(** * openm3u8: the single-pass M3U8 parser of [m3u8_parser.c]

    A shallow embedding of the C parser: the line scanner, the attribute
    lexer, the tag dispatcher, the tag handlers, the two finalizers and
    the main loop, followed by the properties of the specification.

    Conventions of the embedding.
    - A [char] is an [ascii]; a buffer is a [list ascii].  A pointer into
      the input is the list of bytes from that position to the end of the
      content; reading at the end yields the NUL terminator.
    - A heap C string ([char *]) is [option bytes]: [None] is [NULL], and
      the bytes never contain NUL (every copy is cut at the first NUL, as
      every later [strlen]/[strcmp]/[str_dup] of it would be).
    - A singly linked list is a [list]; a [NULL] head is [[]].
    - [double] is [spec_float] at binary64; [int] and [long long] are [Z].
    - [calloc]/[malloc] always succeed. *)

From Stdlib Require Import String Ascii List ZArith Bool Arith Lia.
From Stdlib Require Import Floats.SpecFloat.
Import ListNotations.

Definition bytes := list ascii.

(** A string literal of the source, as bytes. *)
Definition lit (s : string) : bytes := list_ascii_of_string s.
Arguments lit : simpl never.

Definition NUL : ascii := Ascii.zero.

(** [*p] for a pointer [p] into a NUL-terminated buffer. *)
Definition peek (p : bytes) : ascii := hd NUL p.

Definition code (c : ascii) : nat := nat_of_ascii c.

Definition is_blank (c : ascii) : bool :=
  (c =? " ")%char || (c =? "009")%char.

Fixpoint bytes_eqb (a b : bytes) : bool :=
  match a, b with
  | [], [] => true
  | x :: a', y :: b' => (x =? y)%char && bytes_eqb a' b'
  | _, _ => false
  end.

(** ** The C library, as far as the parser calls it *)
Module Libc.

Definition isspace (c : ascii) : bool :=
  (c =? " ")%char || ((9 <=? code c) && (code c <=? 13)).

Definition isdigit (c : ascii) : bool :=
  (48 <=? code c) && (code c <=? 57).

Definition isupper (c : ascii) : bool :=
  (65 <=? code c) && (code c <=? 90).

Definition islower (c : ascii) : bool :=
  (97 <=? code c) && (code c <=? 122).

Definition isalnum (c : ascii) : bool := isdigit c || isupper c || islower c.

(** [tolower] in the "C" locale. *)
Definition tolower (c : ascii) : ascii :=
  if isupper c then ascii_of_nat (code c + 32) else c.

(** The C string that starts at a pointer: the bytes before the first NUL. *)
Fixpoint c_str (p : bytes) : bytes :=
  match p with
  | [] => []
  | c :: p' => if (c =? NUL)%char then [] else c :: c_str p'
  end.

(** [memchr(p, c, n)]: offset of the first [c] among the first [n] bytes. *)
Fixpoint memchr (p : bytes) (c : ascii) (n : nat) : option nat :=
  match n, p with
  | S n', x :: p' =>
      if (x =? c)%char then Some 0
      else option_map S (memchr p' c n')
  | _, _ => None
  end.

(** [strchr(s, c)] on a C string value. *)
Definition strchr (s : bytes) (c : ascii) : option nat :=
  memchr s c (length s).

(** [strncmp(a, b, n) == 0]. *)
Definition strncmp_eq (a b : bytes) (n : nat) : bool :=
  bytes_eqb (firstn n (c_str a)) (firstn n (c_str b)).

(** [strcmp(a, b) == 0] on C string values. *)
Definition strcmp_eq (a b : bytes) : bool := bytes_eqb a b.

Fixpoint skip_space (p : bytes) : bytes :=
  match p with
  | c :: p' => if isspace c then skip_space p' else p
  | [] => []
  end.

Definition digit_val (c : ascii) : Z := Z.of_nat (code c - 48).

(** Reads a run of decimal digits: accumulated value, number of digits
    read, and the rest. *)
Fixpoint read_digits (acc : Z) (n : nat) (p : bytes) : Z * nat * bytes :=
  match p with
  | c :: p' =>
      if isdigit c then read_digits (acc * 10 + digit_val c)%Z (S n) p'
      else (acc, n, p)
  | [] => (acc, n, [])
  end.

(** An optional sign: [true] for '-'. *)
Definition read_sign (p : bytes) : bool * bytes :=
  match p with
  | c :: p' =>
      if (c =? "-")%char then (true, p')
      else if (c =? "+")%char then (false, p')
      else (false, p)
  | [] => (false, [])
  end.

Definition LLONG_MAX : Z := 9223372036854775807.
Definition LLONG_MIN : Z := -9223372036854775808.

(** [strtoll(p, NULL, 10)]: white space, sign, digits; the result is
    clamped to the range of [long long]; 0 when there is no digit. *)
Definition strtoll (p : bytes) : Z :=
  let '(neg, q) := read_sign (skip_space p) in
  let '(v, _, _) := read_digits 0 0 q in
  let v := if neg then (- v)%Z else v in
  Z.max LLONG_MIN (Z.min LLONG_MAX v).

(** Conversion to a 32-bit [int], wrapping around. *)
Definition to_int (v : Z) : Z :=
  ((v + 2147483648) mod 4294967296 - 2147483648)%Z.

(** [atoi(p)], which glibc defines as [(int) strtol(p, NULL, 10)]
    (the C standard leaves the out-of-range case undefined). *)
Definition atoi (p : bytes) : Z := to_int (strtoll p).

(** *** Floating point: [strtod], [atof] and the cast to [long long] *)

Definition prec : Z := 53.
Definition emax : Z := 1024.
Definition double := spec_float.
Definition dzero : double := S754_zero false.

(** The binary64 number nearest to [m * 10 ^ e10] (ties to even), for
    [m >= 0]: glibc's [strtod] rounds correctly. *)
Definition round_decimal (m e10 : Z) : double :=
  match m with
  | Zpos pm =>
      if (0 <=? e10)%Z
      then binary_normalize prec emax (m * 10 ^ e10) 0 false
      else SFdiv prec emax (S754_finite false pm 0)
                 (S754_finite false (Z.to_pos (10 ^ (- e10))) 0)
  | _ => dzero
  end.

(** Does [p] start with [pre], letter case ignored?  Then the rest. *)
Definition ci_prefix (pre : string) (p : bytes) : option bytes :=
  let n := length (lit pre) in
  if bytes_eqb (map tolower (firstn n p)) (lit pre)
  then Some (skipn n p) else None.

Definition hex_val (c : ascii) : option Z :=
  if isdigit c then Some (digit_val c)
  else if (97 <=? code c) && (code c <=? 102) then Some (Z.of_nat (code c - 87))
  else if (65 <=? code c) && (code c <=? 70) then Some (Z.of_nat (code c - 55))
  else None.

Fixpoint read_hex (acc : Z) (n : nat) (p : bytes) : Z * nat * bytes :=
  match p with
  | c :: p' =>
      match hex_val c with
      | Some v => read_hex (acc * 16 + v)%Z (S n) p'
      | None => (acc, n, p)
      end
  | [] => (acc, n, [])
  end.

(** The exponent part [e+12] or [p-3]: taken only when a digit follows. *)
Definition read_exponent (mark : ascii) (p : bytes) : Z :=
  match p with
  | c :: p' =>
      if (tolower c =? mark)%char then
        let '(neg, q) := read_sign p' in
        let '(v, n, _) := read_digits 0 0 q in
        if (n =? 0)%nat then 0%Z else if neg then (- v)%Z else v
      else 0%Z
  | [] => 0%Z
  end.

(** A mantissa [ddd.ddd] in base 10 or 16: its digits as an integer,
    the number of digits, the number of digits after the point, the rest. *)
Definition read_mantissa (rd : Z -> nat -> bytes -> Z * nat * bytes)
    (p : bytes) : Z * nat * nat * bytes :=
  let '(ip, n1, q1) := rd 0%Z 0 p in
  match q1 with
  | c :: q1' =>
      if (c =? ".")%char then
        let '(m, n2, q2) := rd ip 0 q1' in (m, n1 + n2, n2, q2)
      else (ip, n1, 0, q1)
  | [] => (ip, n1, 0, q1)
  end.

(** [strtod(p, NULL)]: white space, sign, then [inf]/[infinity], [nan],
    a hexadecimal or a decimal number; [+0.0] when nothing converts. *)
Definition strtod (p : bytes) : double :=
  let '(neg, q) := read_sign (skip_space p) in
  let sgn (d : double) := if neg then SFopp d else d in
  match ci_prefix "inf" q, ci_prefix "nan" q, ci_prefix "0x" q with
  | Some _, _, _ => sgn (S754_infinity false)
  | None, Some _, _ => S754_nan
  | None, None, hex =>
      let dec :=
        let '(m, n, nfrac, q') := read_mantissa read_digits q in
        if (n =? 0)%nat then dzero
        else sgn (round_decimal m (read_exponent "e" q' - Z.of_nat nfrac)) in
      match hex with
      | Some qh =>
          let '(m, n, nfrac, q') := read_mantissa read_hex qh in
          if (n =? 0)%nat then dec
          else sgn (binary_normalize prec emax m
                      (read_exponent "p" q' - 4 * Z.of_nat nfrac) false)
      | None => dec
      end
  end.

Definition atof (p : bytes) : double := strtod p.

(** [(long long) d]: truncation toward zero.  Out of range the C
    standard leaves the result undefined; x86-64 yields [LLONG_MIN]. *)
Definition to_llong (d : double) : Z :=
  match d with
  | S754_zero _ => 0%Z
  | S754_finite s m e =>
      let a := Z.shiftl (Zpos m) e in
      let v := if s then (- a)%Z else a in
      if ((LLONG_MIN <=? v) && (v <=? LLONG_MAX))%Z then v else LLONG_MIN
  | _ => LLONG_MIN
  end.

End Libc.

Import Libc.

(** ** Memory allocation helpers *)

(** [str_dup] is only ever applied to a C string held as a value (a
    literal, a field, an attribute value or a tail of one), never to the
    raw input: the copy is the value itself. *)
Definition str_dup (src : option bytes) : option bytes := src.

(** [str_ndup] also copies out of the raw input: [n] bytes, read back as
    a C string. *)
Definition str_ndup (src : option bytes) (n : nat) : option bytes :=
  option_map (fun s => c_str (firstn n s)) src.

(** ** String utilities *)

(** Check if line starts with prefix. *)
Definition starts_with (line : bytes) (len : nat) (prefix : string) : bool :=
  let plen := length (lit prefix) in
  if len <? plen then false
  else bytes_eqb (firstn plen line) (lit prefix).

(** The loop that moves the end [e] of a span [s .. e) back while [e > s]
    and the byte before [e] is one to drop: the span without them. *)
Definition trim_end (drop : ascii -> bool) (span : bytes) : bytes :=
  fold_right
    (fun c acc =>
       match acc with
       | [] => if drop c then [] else [c]
       | _ => c :: acc
       end) [] span.

(** Trailing spaces and tabs removed. *)
Definition rtrim (span : bytes) : bytes := trim_end is_blank span.

(** The bytes [line + from .. line + len) of a line. *)
Definition span (line : bytes) (from len : nat) : bytes :=
  skipn from (firstn len line).

(** The loop that advances [p] over spaces and tabs while [p < end]. *)
Fixpoint skip_blank (p : bytes) : bytes :=
  match p with
  | c :: p' => if is_blank c then skip_blank p' else p
  | [] => []
  end.

(** The loop that advances [p] to the first byte satisfying [stop] while
    [p < end]: the bytes passed over, and the position reached ([[]] when
    it is [end]). *)
Fixpoint scan_until (stop : ascii -> bool) (p : bytes) : bytes * bytes :=
  match p with
  | c :: p' =>
      if stop c then ([], p)
      else let (a, b) := scan_until stop p' in (c :: a, b)
  | [] => ([], [])
  end.

(** Is the string of length [len] at [v] enclosed in a pair of double or
    of single quotes? *)
Definition quoted (v : bytes) (len : nat) : bool :=
  (2 <=? len)
  && (((nth 0 v NUL =? "034")%char && (nth (len - 1) v NUL =? "034")%char)
      || ((nth 0 v NUL =? "'")%char && (nth (len - 1) v NUL =? "'")%char)).

(** Remove surrounding quotes from a string. *)
Definition remove_quotes (s : bytes) (len : nat) : option bytes :=
  if quoted s len then str_ndup (Some (skipn 1 s)) (len - 2)
  else str_ndup (Some s) len.

(** Normalize attribute name: replace '-' with '_' and lowercase, then
    trim trailing whitespace. *)
Definition normalize_attr_name (name : bytes) : bytes :=
  rtrim (map (fun c => if (c =? "-")%char then "_"%char else tolower c) name).

(** ** Key-value attributes *)

Record M3U8Attribute := {
  attr_key : option bytes;
  attr_value : option bytes
}.

Definition is_nil {A : Type} (l : list A) : bool :=
  match l with [] => true | _ => false end.

(** A bare value: the token between commas without [=]. *)
Definition bare_attribute (tok : bytes) : list M3U8Attribute :=
  let v := rtrim tok in
  if is_nil v then []
  else [ {| attr_key := str_dup (Some (lit EmptyString));
            attr_value := str_ndup (Some v) (length v) |} ].

Definition keyed_attribute (tok v : bytes) : M3U8Attribute :=
  let k := rtrim tok in
  {| attr_key := option_map normalize_attr_name (str_ndup (Some k) (length k));
     attr_value := str_ndup (Some v) (length v) |}.

Definition is_quote (c : ascii) : bool :=
  (c =? "034")%char || (c =? "'")%char.

Definition is_comma (c : ascii) : bool := (c =? ",")%char.

(** One iteration of the [while (p < end)] loop of [parse_attributes] on
    the bytes [p .. end); [continue_at] stands for the iterations that
    follow. *)
Definition parse_attribute
    (continue_at : bytes -> list M3U8Attribute) (p : bytes)
    : list M3U8Attribute :=
  match skip_blank p with
  | [] => []
  | p0 =>
      let (tok, eq) :=
        scan_until (fun c => (c =? "=")%char || is_comma c) p0 in
      match eq with
      | [] => bare_attribute tok
      | c :: after =>
          if is_comma c then bare_attribute tok ++ continue_at after
          else
            let p1 := skip_blank after in
            if is_quote (peek p1) && negb (is_nil p1) then
              let quote := peek p1 in
              let (content, p2) :=
                scan_until (fun c => (c =? quote)%char) (tl p1) in
              let v := quote :: content ++ firstn 1 p2 in
              let p3 := snd (scan_until is_comma (tl p2)) in
              keyed_attribute tok v :: continue_at (tl p3)
            else
              let (raw, p2) := scan_until is_comma p1 in
              keyed_attribute tok (rtrim raw) :: continue_at (tl p2)
      end
  end.

(** The loop, one iteration per unit of fuel. *)
Fixpoint parse_attributes_loop (fuel : nat) (p : bytes) : list M3U8Attribute :=
  match fuel with
  | 0 => []
  | S fuel' => parse_attribute (parse_attributes_loop fuel') p
  end.

(** Parse attribute list like: [KEY1=value1,KEY2="value2",KEY3='value3']. *)
Definition parse_attributes (line : bytes) (len : nat) : list M3U8Attribute :=
  parse_attributes_loop (S len) (firstn len line).

Arguments parse_attributes : simpl never.

(** Get attribute value by key from attribute list. *)
Fixpoint get_attr (attrs : list M3U8Attribute) (key : bytes) : option bytes :=
  match attrs with
  | a :: rest =>
      match attr_key a with
      | Some k => if strcmp_eq k key then attr_value a else get_attr rest key
      | None => get_attr rest key
      end
  | [] => None
  end.

Definition get_attr_int (attrs : list M3U8Attribute) (key : bytes) (def : Z) : Z :=
  match get_attr attrs key with Some v => atoi v | None => def end.

Definition get_attr_ll (attrs : list M3U8Attribute) (key : bytes) (def : Z) : Z :=
  match get_attr attrs key with Some v => strtoll v | None => def end.

Definition get_attr_double (attrs : list M3U8Attribute) (key : bytes)
    (def : double) : double :=
  match get_attr attrs key with Some v => atof v | None => def end.

(** Copy attribute value as new string. *)
Definition get_attr_str (attrs : list M3U8Attribute) (key : bytes) : option bytes :=
  str_dup (get_attr attrs key).

(** Copy attribute value with quotes removed. *)
Definition get_attr_str_unquoted (attrs : list M3U8Attribute) (key : bytes)
    : option bytes :=
  match get_attr attrs key with
  | None => None
  | Some v =>
      let len := length v in
      if quoted v len then str_ndup (Some (skipn 1 v)) (len - 2)
      else str_dup (Some v)
  end.

(** ** Data structures

    Field names are those of the C structs, prefixed by the struct where
    several structs share a name.  The [next] links are the lists
    themselves; a flag held in an [int] is a [bool]. *)

(** The address of a Key or Map object: the objects that segments share
    by pointer live in a store ([Heap]), in allocation order. *)
Definition addr := nat.

(** Encryption key (#EXT-X-KEY or #EXT-X-SESSION-KEY). *)
Record M3U8Key := mkKey {
  key_method : option bytes;
  key_uri : option bytes;
  key_iv : option bytes;
  key_keyformat : option bytes;
  key_keyformatversions : option bytes
}.

(** Initialization section (#EXT-X-MAP). *)
Record M3U8Map := mkMap {
  map_uri : option bytes;
  map_byterange : option bytes
}.

(** Date range (#EXT-X-DATERANGE). *)
Record M3U8DateRange := mkDateRange {
  dr_id : option bytes;
  dr_class_name : option bytes;
  dr_start_date : option bytes;
  dr_end_date : option bytes;
  dr_duration : double;
  dr_planned_duration : double;
  dr_scte35_cmd : option bytes;
  dr_scte35_out : option bytes;
  dr_scte35_in : option bytes;
  dr_end_on_next : option bytes;
  dr_x_attrs : list M3U8Attribute
}.

(** Partial segment (#EXT-X-PART). *)
Record M3U8Part := mkPart {
  part_uri : option bytes;
  part_duration : double;
  part_byterange : option bytes;
  part_independent : option bytes;
  part_gap : option bytes;
  part_dateranges : list M3U8DateRange;
  part_gap_tag : bool
}.

(** Segment (#EXTINF + URI line). *)
Record M3U8Segment := mkSegment {
  seg_duration : double;
  seg_title : option bytes;
  seg_uri : option bytes;
  seg_byterange : option bytes;
  seg_bitrate : Z;
  seg_discontinuity : bool;
  seg_program_date_time : option bytes;
  seg_cue_in : bool;
  seg_cue_out : bool;
  seg_cue_out_start : bool;
  seg_cue_out_explicitly_duration : bool;
  seg_scte35 : option bytes;
  seg_oatcls_scte35 : option bytes;
  seg_scte35_duration : option bytes;
  seg_scte35_elapsedtime : option bytes;
  seg_asset_metadata : list M3U8Attribute;
  seg_key : option addr;
  seg_init_section : option addr;
  seg_dateranges : list M3U8DateRange;
  seg_gap_tag : bool;
  seg_blackout : option bytes;
  seg_parts : list M3U8Part
}.

(** Variant playlist (#EXT-X-STREAM-INF + URI). *)
Record M3U8Playlist := mkPlaylist {
  pl_uri : option bytes;
  pl_program_id : Z;
  pl_bandwidth : Z;
  pl_average_bandwidth : Z;
  pl_resolution : option bytes;
  pl_codecs : option bytes;
  pl_frame_rate : double;
  pl_video : option bytes;
  pl_audio : option bytes;
  pl_subtitles : option bytes;
  pl_closed_captions : option bytes;
  pl_video_range : option bytes;
  pl_hdcp_level : option bytes;
  pl_pathway_id : option bytes;
  pl_stable_variant_id : option bytes;
  pl_req_video_layout : option bytes
}.

(** I-Frame playlist (#EXT-X-I-FRAME-STREAM-INF). *)
Record M3U8IFramePlaylist := mkIFramePlaylist {
  ifr_uri : option bytes;
  ifr_program_id : Z;
  ifr_bandwidth : Z;
  ifr_average_bandwidth : Z;
  ifr_resolution : option bytes;
  ifr_codecs : option bytes;
  ifr_video_range : option bytes;
  ifr_hdcp_level : option bytes;
  ifr_pathway_id : option bytes;
  ifr_stable_variant_id : option bytes
}.

(** Image playlist (#EXT-X-IMAGE-STREAM-INF). *)
Record M3U8ImagePlaylist := mkImagePlaylist {
  img_uri : option bytes;
  img_program_id : Z;
  img_bandwidth : Z;
  img_average_bandwidth : Z;
  img_resolution : option bytes;
  img_codecs : option bytes;
  img_pathway_id : option bytes;
  img_stable_variant_id : option bytes
}.

(** Media (#EXT-X-MEDIA). *)
Record M3U8Media := mkMedia {
  media_type : option bytes;
  media_uri : option bytes;
  media_group_id : option bytes;
  media_language : option bytes;
  media_assoc_language : option bytes;
  media_name : option bytes;
  media_default_val : option bytes;
  media_autoselect : option bytes;
  media_forced : option bytes;
  media_instream_id : option bytes;
  media_characteristics : option bytes;
  media_channels : option bytes;
  media_stable_rendition_id : option bytes
}.

(** Rendition report (#EXT-X-RENDITION-REPORT). *)
Record M3U8RenditionReport := mkRenditionReport {
  rr_uri : option bytes;
  rr_last_msn : Z;
  rr_last_part : Z;
  rr_has_last_msn : bool;
  rr_has_last_part : bool
}.

(** Session data (#EXT-X-SESSION-DATA). *)
Record M3U8SessionData := mkSessionData {
  sd_data_id : option bytes;
  sd_value : option bytes;
  sd_uri : option bytes;
  sd_language : option bytes
}.

(** Tiles (#EXT-X-TILES). *)
Record M3U8Tiles := mkTiles {
  tiles_resolution : option bytes;
  tiles_layout : option bytes;
  tiles_duration : double;
  tiles_uri : option bytes
}.

(** The groups of [M3U8Data] that one handler fills as a whole. *)
Record Start := mkStart {
  start_time_offset : double;
  has_start : bool;
  start_precise : option bytes
}.

Record ServerControl := mkServerControl {
  server_control_can_block_reload : option bytes;
  server_control_hold_back : double;
  server_control_part_hold_back : double;
  server_control_can_skip_until : double;
  server_control_can_skip_dateranges : option bytes;
  has_server_control : bool
}.

Record PartInf := mkPartInf {
  part_inf_part_target : double;
  has_part_inf : bool
}.

Record Skip := mkSkip {
  skip_skipped_segments : Z;
  skip_recently_removed_dateranges : option bytes;
  has_skip : bool
}.

Record PreloadHint := mkPreloadHint {
  preload_hint_type : option bytes;
  preload_hint_uri : option bytes;
  preload_hint_byterange_start : Z;
  preload_hint_byterange_length : Z;
  has_preload_hint : bool;
  has_preload_hint_byterange_start : bool;
  has_preload_hint_byterange_length : bool
}.

Record ContentSteering := mkContentSteering {
  content_steering_server_uri : option bytes;
  content_steering_pathway_id : option bytes;
  has_content_steering : bool
}.

(** Root data structure.  Each head/tail pair is one list; the key and
    map lists hold the addresses of the objects they link. *)
Record M3U8Data := mkData {
  targetduration : Z;
  media_sequence : Z;
  discontinuity_sequence : Z;
  version : Z;
  allow_cache : option bytes;
  playlist_type : option bytes;
  data_program_date_time : option bytes;
  is_variant : bool;
  is_endlist : bool;
  is_i_frames_only : bool;
  is_independent_segments : bool;
  is_images_only : bool;
  has_media_sequence : bool;
  start : Start;
  server_control : ServerControl;
  part_inf : PartInf;
  skip : Skip;
  preload_hint : PreloadHint;
  content_steering : ContentSteering;
  segments : list M3U8Segment;
  playlists : list M3U8Playlist;
  iframe_playlists : list M3U8IFramePlaylist;
  image_playlists : list M3U8ImagePlaylist;
  media : list M3U8Media;
  keys : list addr;
  session_keys : list addr;
  segment_map : list addr;
  rendition_reports : list M3U8RenditionReport;
  session_data : list M3U8SessionData;
  tiles : list M3U8Tiles
}.

(** The store of the Key and Map objects allocated so far. *)
Record Heap := mkHeap {
  heap_keys : list M3U8Key;
  heap_maps : list M3U8Map
}.

(** Parser state. *)
Record ParserState := mkState {
  expect_segment : bool;
  expect_playlist : bool;
  current_segment : option M3U8Segment;
  current_key : option addr;
  current_map : option addr;
  cue_out : bool;
  cue_out_start : bool;
  cue_out_explicitly_duration : bool;
  cue_in : bool;
  discontinuity : bool;
  gap : bool;
  blackout : option bytes;
  current_cue_out_scte35 : option bytes;
  current_cue_out_oatcls_scte35 : option bytes;
  current_cue_out_duration : option bytes;
  current_cue_out_elapsedtime : option bytes;
  asset_metadata : list M3U8Attribute;
  program_date_time : option bytes;
  dateranges : list M3U8DateRange;
  stream_info : list M3U8Attribute
}.

(** *** Field assignment *)

Definition set_seg_duration (v : double) (r : M3U8Segment) : M3U8Segment :=
  let '(mkSegment x0 x1 x2 x3 x4 x5 x6 x7 x8 x9 x10 x11 x12 x13 x14 x15 x16 x17 x18 x19 x20 x21) := r in
  mkSegment v x1 x2 x3 x4 x5 x6 x7 x8 x9 x10 x11 x12 x13 x14 x15 x16 x17 x18 x19 x20 x21.
Definition set_seg_title (v : option bytes) (r : M3U8Segment) : M3U8Segment :=
  let '(mkSegment x0 x1 x2 x3 x4 x5 x6 x7 x8 x9 x10 x11 x12 x13 x14 x15 x16 x17 x18 x19 x20 x21) := r in
  mkSegment x0 v x2 x3 x4 x5 x6 x7 x8 x9 x10 x11 x12 x13 x14 x15 x16 x17 x18 x19 x20 x21.
Definition set_seg_byterange (v : option bytes) (r : M3U8Segment) : M3U8Segment :=
  let '(mkSegment x0 x1 x2 x3 x4 x5 x6 x7 x8 x9 x10 x11 x12 x13 x14 x15 x16 x17 x18 x19 x20 x21) := r in
  mkSegment x0 x1 x2 v x4 x5 x6 x7 x8 x9 x10 x11 x12 x13 x14 x15 x16 x17 x18 x19 x20 x21.
Definition set_seg_bitrate (v : Z) (r : M3U8Segment) : M3U8Segment :=
  let '(mkSegment x0 x1 x2 x3 x4 x5 x6 x7 x8 x9 x10 x11 x12 x13 x14 x15 x16 x17 x18 x19 x20 x21) := r in
  mkSegment x0 x1 x2 x3 v x5 x6 x7 x8 x9 x10 x11 x12 x13 x14 x15 x16 x17 x18 x19 x20 x21.
Definition set_seg_parts (v : list M3U8Part) (r : M3U8Segment) : M3U8Segment :=
  let '(mkSegment x0 x1 x2 x3 x4 x5 x6 x7 x8 x9 x10 x11 x12 x13 x14 x15 x16 x17 x18 x19 x20 x21) := r in
  mkSegment x0 x1 x2 x3 x4 x5 x6 x7 x8 x9 x10 x11 x12 x13 x14 x15 x16 x17 x18 x19 x20 v.

Definition set_preload_hint_byterange_start (v : Z) (r : PreloadHint) : PreloadHint :=
  let '(mkPreloadHint x0 x1 x2 x3 x4 x5 x6) := r in
  mkPreloadHint x0 x1 v x3 x4 x5 x6.
Definition set_preload_hint_byterange_length (v : Z) (r : PreloadHint) : PreloadHint :=
  let '(mkPreloadHint x0 x1 x2 x3 x4 x5 x6) := r in
  mkPreloadHint x0 x1 x2 v x4 x5 x6.
Definition set_has_preload_hint_byterange_start (v : bool) (r : PreloadHint) : PreloadHint :=
  let '(mkPreloadHint x0 x1 x2 x3 x4 x5 x6) := r in
  mkPreloadHint x0 x1 x2 x3 x4 v x6.
Definition set_has_preload_hint_byterange_length (v : bool) (r : PreloadHint) : PreloadHint :=
  let '(mkPreloadHint x0 x1 x2 x3 x4 x5 x6) := r in
  mkPreloadHint x0 x1 x2 x3 x4 x5 v.

Definition set_targetduration (v : Z) (r : M3U8Data) : M3U8Data :=
  let '(mkData x0 x1 x2 x3 x4 x5 x6 x7 x8 x9 x10 x11 x12 x13 x14 x15 x16 x17 x18 x19 x20 x21 x22 x23 x24 x25 x26 x27 x28 x29) := r in
  mkData v x1 x2 x3 x4 x5 x6 x7 x8 x9 x10 x11 x12 x13 x14 x15 x16 x17 x18 x19 x20 x21 x22 x23 x24 x25 x26 x27 x28 x29.
Definition set_media_sequence (v : Z) (r : M3U8Data) : M3U8Data :=
  let '(mkData x0 x1 x2 x3 x4 x5 x6 x7 x8 x9 x10 x11 x12 x13 x14 x15 x16 x17 x18 x19 x20 x21 x22 x23 x24 x25 x26 x27 x28 x29) := r in
  mkData x0 v x2 x3 x4 x5 x6 x7 x8 x9 x10 x11 x12 x13 x14 x15 x16 x17 x18 x19 x20 x21 x22 x23 x24 x25 x26 x27 x28 x29.
Definition set_discontinuity_sequence (v : Z) (r : M3U8Data) : M3U8Data :=
  let '(mkData x0 x1 x2 x3 x4 x5 x6 x7 x8 x9 x10 x11 x12 x13 x14 x15 x16 x17 x18 x19 x20 x21 x22 x23 x24 x25 x26 x27 x28 x29) := r in
  mkData x0 x1 v x3 x4 x5 x6 x7 x8 x9 x10 x11 x12 x13 x14 x15 x16 x17 x18 x19 x20 x21 x22 x23 x24 x25 x26 x27 x28 x29.
Definition set_version (v : Z) (r : M3U8Data) : M3U8Data :=
  let '(mkData x0 x1 x2 x3 x4 x5 x6 x7 x8 x9 x10 x11 x12 x13 x14 x15 x16 x17 x18 x19 x20 x21 x22 x23 x24 x25 x26 x27 x28 x29) := r in
  mkData x0 x1 x2 v x4 x5 x6 x7 x8 x9 x10 x11 x12 x13 x14 x15 x16 x17 x18 x19 x20 x21 x22 x23 x24 x25 x26 x27 x28 x29.
Definition set_allow_cache (v : option bytes) (r : M3U8Data) : M3U8Data :=
  let '(mkData x0 x1 x2 x3 x4 x5 x6 x7 x8 x9 x10 x11 x12 x13 x14 x15 x16 x17 x18 x19 x20 x21 x22 x23 x24 x25 x26 x27 x28 x29) := r in
  mkData x0 x1 x2 x3 v x5 x6 x7 x8 x9 x10 x11 x12 x13 x14 x15 x16 x17 x18 x19 x20 x21 x22 x23 x24 x25 x26 x27 x28 x29.
Definition set_playlist_type (v : option bytes) (r : M3U8Data) : M3U8Data :=
  let '(mkData x0 x1 x2 x3 x4 x5 x6 x7 x8 x9 x10 x11 x12 x13 x14 x15 x16 x17 x18 x19 x20 x21 x22 x23 x24 x25 x26 x27 x28 x29) := r in
  mkData x0 x1 x2 x3 x4 v x6 x7 x8 x9 x10 x11 x12 x13 x14 x15 x16 x17 x18 x19 x20 x21 x22 x23 x24 x25 x26 x27 x28 x29.
Definition set_data_program_date_time (v : option bytes) (r : M3U8Data) : M3U8Data :=
  let '(mkData x0 x1 x2 x3 x4 x5 x6 x7 x8 x9 x10 x11 x12 x13 x14 x15 x16 x17 x18 x19 x20 x21 x22 x23 x24 x25 x26 x27 x28 x29) := r in
  mkData x0 x1 x2 x3 x4 x5 v x7 x8 x9 x10 x11 x12 x13 x14 x15 x16 x17 x18 x19 x20 x21 x22 x23 x24 x25 x26 x27 x28 x29.
Definition set_is_variant (v : bool) (r : M3U8Data) : M3U8Data :=
  let '(mkData x0 x1 x2 x3 x4 x5 x6 x7 x8 x9 x10 x11 x12 x13 x14 x15 x16 x17 x18 x19 x20 x21 x22 x23 x24 x25 x26 x27 x28 x29) := r in
  mkData x0 x1 x2 x3 x4 x5 x6 v x8 x9 x10 x11 x12 x13 x14 x15 x16 x17 x18 x19 x20 x21 x22 x23 x24 x25 x26 x27 x28 x29.
Definition set_is_endlist (v : bool) (r : M3U8Data) : M3U8Data :=
  let '(mkData x0 x1 x2 x3 x4 x5 x6 x7 x8 x9 x10 x11 x12 x13 x14 x15 x16 x17 x18 x19 x20 x21 x22 x23 x24 x25 x26 x27 x28 x29) := r in
  mkData x0 x1 x2 x3 x4 x5 x6 x7 v x9 x10 x11 x12 x13 x14 x15 x16 x17 x18 x19 x20 x21 x22 x23 x24 x25 x26 x27 x28 x29.
Definition set_is_i_frames_only (v : bool) (r : M3U8Data) : M3U8Data :=
  let '(mkData x0 x1 x2 x3 x4 x5 x6 x7 x8 x9 x10 x11 x12 x13 x14 x15 x16 x17 x18 x19 x20 x21 x22 x23 x24 x25 x26 x27 x28 x29) := r in
  mkData x0 x1 x2 x3 x4 x5 x6 x7 x8 v x10 x11 x12 x13 x14 x15 x16 x17 x18 x19 x20 x21 x22 x23 x24 x25 x26 x27 x28 x29.
Definition set_is_independent_segments (v : bool) (r : M3U8Data) : M3U8Data :=
  let '(mkData x0 x1 x2 x3 x4 x5 x6 x7 x8 x9 x10 x11 x12 x13 x14 x15 x16 x17 x18 x19 x20 x21 x22 x23 x24 x25 x26 x27 x28 x29) := r in
  mkData x0 x1 x2 x3 x4 x5 x6 x7 x8 x9 v x11 x12 x13 x14 x15 x16 x17 x18 x19 x20 x21 x22 x23 x24 x25 x26 x27 x28 x29.
Definition set_is_images_only (v : bool) (r : M3U8Data) : M3U8Data :=
  let '(mkData x0 x1 x2 x3 x4 x5 x6 x7 x8 x9 x10 x11 x12 x13 x14 x15 x16 x17 x18 x19 x20 x21 x22 x23 x24 x25 x26 x27 x28 x29) := r in
  mkData x0 x1 x2 x3 x4 x5 x6 x7 x8 x9 x10 v x12 x13 x14 x15 x16 x17 x18 x19 x20 x21 x22 x23 x24 x25 x26 x27 x28 x29.
Definition set_has_media_sequence (v : bool) (r : M3U8Data) : M3U8Data :=
  let '(mkData x0 x1 x2 x3 x4 x5 x6 x7 x8 x9 x10 x11 x12 x13 x14 x15 x16 x17 x18 x19 x20 x21 x22 x23 x24 x25 x26 x27 x28 x29) := r in
  mkData x0 x1 x2 x3 x4 x5 x6 x7 x8 x9 x10 x11 v x13 x14 x15 x16 x17 x18 x19 x20 x21 x22 x23 x24 x25 x26 x27 x28 x29.
Definition set_start (v : Start) (r : M3U8Data) : M3U8Data :=
  let '(mkData x0 x1 x2 x3 x4 x5 x6 x7 x8 x9 x10 x11 x12 x13 x14 x15 x16 x17 x18 x19 x20 x21 x22 x23 x24 x25 x26 x27 x28 x29) := r in
  mkData x0 x1 x2 x3 x4 x5 x6 x7 x8 x9 x10 x11 x12 v x14 x15 x16 x17 x18 x19 x20 x21 x22 x23 x24 x25 x26 x27 x28 x29.
Definition set_server_control (v : ServerControl) (r : M3U8Data) : M3U8Data :=
  let '(mkData x0 x1 x2 x3 x4 x5 x6 x7 x8 x9 x10 x11 x12 x13 x14 x15 x16 x17 x18 x19 x20 x21 x22 x23 x24 x25 x26 x27 x28 x29) := r in
  mkData x0 x1 x2 x3 x4 x5 x6 x7 x8 x9 x10 x11 x12 x13 v x15 x16 x17 x18 x19 x20 x21 x22 x23 x24 x25 x26 x27 x28 x29.
Definition set_part_inf (v : PartInf) (r : M3U8Data) : M3U8Data :=
  let '(mkData x0 x1 x2 x3 x4 x5 x6 x7 x8 x9 x10 x11 x12 x13 x14 x15 x16 x17 x18 x19 x20 x21 x22 x23 x24 x25 x26 x27 x28 x29) := r in
  mkData x0 x1 x2 x3 x4 x5 x6 x7 x8 x9 x10 x11 x12 x13 x14 v x16 x17 x18 x19 x20 x21 x22 x23 x24 x25 x26 x27 x28 x29.
Definition set_skip (v : Skip) (r : M3U8Data) : M3U8Data :=
  let '(mkData x0 x1 x2 x3 x4 x5 x6 x7 x8 x9 x10 x11 x12 x13 x14 x15 x16 x17 x18 x19 x20 x21 x22 x23 x24 x25 x26 x27 x28 x29) := r in
  mkData x0 x1 x2 x3 x4 x5 x6 x7 x8 x9 x10 x11 x12 x13 x14 x15 v x17 x18 x19 x20 x21 x22 x23 x24 x25 x26 x27 x28 x29.
Definition set_preload_hint (v : PreloadHint) (r : M3U8Data) : M3U8Data :=
  let '(mkData x0 x1 x2 x3 x4 x5 x6 x7 x8 x9 x10 x11 x12 x13 x14 x15 x16 x17 x18 x19 x20 x21 x22 x23 x24 x25 x26 x27 x28 x29) := r in
  mkData x0 x1 x2 x3 x4 x5 x6 x7 x8 x9 x10 x11 x12 x13 x14 x15 x16 v x18 x19 x20 x21 x22 x23 x24 x25 x26 x27 x28 x29.
Definition set_content_steering (v : ContentSteering) (r : M3U8Data) : M3U8Data :=
  let '(mkData x0 x1 x2 x3 x4 x5 x6 x7 x8 x9 x10 x11 x12 x13 x14 x15 x16 x17 x18 x19 x20 x21 x22 x23 x24 x25 x26 x27 x28 x29) := r in
  mkData x0 x1 x2 x3 x4 x5 x6 x7 x8 x9 x10 x11 x12 x13 x14 x15 x16 x17 v x19 x20 x21 x22 x23 x24 x25 x26 x27 x28 x29.
Definition set_segments (v : list M3U8Segment) (r : M3U8Data) : M3U8Data :=
  let '(mkData x0 x1 x2 x3 x4 x5 x6 x7 x8 x9 x10 x11 x12 x13 x14 x15 x16 x17 x18 x19 x20 x21 x22 x23 x24 x25 x26 x27 x28 x29) := r in
  mkData x0 x1 x2 x3 x4 x5 x6 x7 x8 x9 x10 x11 x12 x13 x14 x15 x16 x17 x18 v x20 x21 x22 x23 x24 x25 x26 x27 x28 x29.
Definition set_playlists (v : list M3U8Playlist) (r : M3U8Data) : M3U8Data :=
  let '(mkData x0 x1 x2 x3 x4 x5 x6 x7 x8 x9 x10 x11 x12 x13 x14 x15 x16 x17 x18 x19 x20 x21 x22 x23 x24 x25 x26 x27 x28 x29) := r in
  mkData x0 x1 x2 x3 x4 x5 x6 x7 x8 x9 x10 x11 x12 x13 x14 x15 x16 x17 x18 x19 v x21 x22 x23 x24 x25 x26 x27 x28 x29.
Definition set_iframe_playlists (v : list M3U8IFramePlaylist) (r : M3U8Data) : M3U8Data :=
  let '(mkData x0 x1 x2 x3 x4 x5 x6 x7 x8 x9 x10 x11 x12 x13 x14 x15 x16 x17 x18 x19 x20 x21 x22 x23 x24 x25 x26 x27 x28 x29) := r in
  mkData x0 x1 x2 x3 x4 x5 x6 x7 x8 x9 x10 x11 x12 x13 x14 x15 x16 x17 x18 x19 x20 v x22 x23 x24 x25 x26 x27 x28 x29.
Definition set_image_playlists (v : list M3U8ImagePlaylist) (r : M3U8Data) : M3U8Data :=
  let '(mkData x0 x1 x2 x3 x4 x5 x6 x7 x8 x9 x10 x11 x12 x13 x14 x15 x16 x17 x18 x19 x20 x21 x22 x23 x24 x25 x26 x27 x28 x29) := r in
  mkData x0 x1 x2 x3 x4 x5 x6 x7 x8 x9 x10 x11 x12 x13 x14 x15 x16 x17 x18 x19 x20 x21 v x23 x24 x25 x26 x27 x28 x29.
Definition set_media (v : list M3U8Media) (r : M3U8Data) : M3U8Data :=
  let '(mkData x0 x1 x2 x3 x4 x5 x6 x7 x8 x9 x10 x11 x12 x13 x14 x15 x16 x17 x18 x19 x20 x21 x22 x23 x24 x25 x26 x27 x28 x29) := r in
  mkData x0 x1 x2 x3 x4 x5 x6 x7 x8 x9 x10 x11 x12 x13 x14 x15 x16 x17 x18 x19 x20 x21 x22 v x24 x25 x26 x27 x28 x29.
Definition set_keys (v : list addr) (r : M3U8Data) : M3U8Data :=
  let '(mkData x0 x1 x2 x3 x4 x5 x6 x7 x8 x9 x10 x11 x12 x13 x14 x15 x16 x17 x18 x19 x20 x21 x22 x23 x24 x25 x26 x27 x28 x29) := r in
  mkData x0 x1 x2 x3 x4 x5 x6 x7 x8 x9 x10 x11 x12 x13 x14 x15 x16 x17 x18 x19 x20 x21 x22 x23 v x25 x26 x27 x28 x29.
Definition set_session_keys (v : list addr) (r : M3U8Data) : M3U8Data :=
  let '(mkData x0 x1 x2 x3 x4 x5 x6 x7 x8 x9 x10 x11 x12 x13 x14 x15 x16 x17 x18 x19 x20 x21 x22 x23 x24 x25 x26 x27 x28 x29) := r in
  mkData x0 x1 x2 x3 x4 x5 x6 x7 x8 x9 x10 x11 x12 x13 x14 x15 x16 x17 x18 x19 x20 x21 x22 x23 x24 v x26 x27 x28 x29.
Definition set_segment_map (v : list addr) (r : M3U8Data) : M3U8Data :=
  let '(mkData x0 x1 x2 x3 x4 x5 x6 x7 x8 x9 x10 x11 x12 x13 x14 x15 x16 x17 x18 x19 x20 x21 x22 x23 x24 x25 x26 x27 x28 x29) := r in
  mkData x0 x1 x2 x3 x4 x5 x6 x7 x8 x9 x10 x11 x12 x13 x14 x15 x16 x17 x18 x19 x20 x21 x22 x23 x24 x25 v x27 x28 x29.
Definition set_rendition_reports (v : list M3U8RenditionReport) (r : M3U8Data) : M3U8Data :=
  let '(mkData x0 x1 x2 x3 x4 x5 x6 x7 x8 x9 x10 x11 x12 x13 x14 x15 x16 x17 x18 x19 x20 x21 x22 x23 x24 x25 x26 x27 x28 x29) := r in
  mkData x0 x1 x2 x3 x4 x5 x6 x7 x8 x9 x10 x11 x12 x13 x14 x15 x16 x17 x18 x19 x20 x21 x22 x23 x24 x25 x26 v x28 x29.
Definition set_session_data (v : list M3U8SessionData) (r : M3U8Data) : M3U8Data :=
  let '(mkData x0 x1 x2 x3 x4 x5 x6 x7 x8 x9 x10 x11 x12 x13 x14 x15 x16 x17 x18 x19 x20 x21 x22 x23 x24 x25 x26 x27 x28 x29) := r in
  mkData x0 x1 x2 x3 x4 x5 x6 x7 x8 x9 x10 x11 x12 x13 x14 x15 x16 x17 x18 x19 x20 x21 x22 x23 x24 x25 x26 x27 v x29.
Definition set_tiles (v : list M3U8Tiles) (r : M3U8Data) : M3U8Data :=
  let '(mkData x0 x1 x2 x3 x4 x5 x6 x7 x8 x9 x10 x11 x12 x13 x14 x15 x16 x17 x18 x19 x20 x21 x22 x23 x24 x25 x26 x27 x28 x29) := r in
  mkData x0 x1 x2 x3 x4 x5 x6 x7 x8 x9 x10 x11 x12 x13 x14 x15 x16 x17 x18 x19 x20 x21 x22 x23 x24 x25 x26 x27 x28 v.

Definition set_expect_segment (v : bool) (r : ParserState) : ParserState :=
  let '(mkState x0 x1 x2 x3 x4 x5 x6 x7 x8 x9 x10 x11 x12 x13 x14 x15 x16 x17 x18 x19) := r in
  mkState v x1 x2 x3 x4 x5 x6 x7 x8 x9 x10 x11 x12 x13 x14 x15 x16 x17 x18 x19.
Definition set_expect_playlist (v : bool) (r : ParserState) : ParserState :=
  let '(mkState x0 x1 x2 x3 x4 x5 x6 x7 x8 x9 x10 x11 x12 x13 x14 x15 x16 x17 x18 x19) := r in
  mkState x0 v x2 x3 x4 x5 x6 x7 x8 x9 x10 x11 x12 x13 x14 x15 x16 x17 x18 x19.
Definition set_current_segment (v : option M3U8Segment) (r : ParserState) : ParserState :=
  let '(mkState x0 x1 x2 x3 x4 x5 x6 x7 x8 x9 x10 x11 x12 x13 x14 x15 x16 x17 x18 x19) := r in
  mkState x0 x1 v x3 x4 x5 x6 x7 x8 x9 x10 x11 x12 x13 x14 x15 x16 x17 x18 x19.
Definition set_current_key (v : option addr) (r : ParserState) : ParserState :=
  let '(mkState x0 x1 x2 x3 x4 x5 x6 x7 x8 x9 x10 x11 x12 x13 x14 x15 x16 x17 x18 x19) := r in
  mkState x0 x1 x2 v x4 x5 x6 x7 x8 x9 x10 x11 x12 x13 x14 x15 x16 x17 x18 x19.
Definition set_current_map (v : option addr) (r : ParserState) : ParserState :=
  let '(mkState x0 x1 x2 x3 x4 x5 x6 x7 x8 x9 x10 x11 x12 x13 x14 x15 x16 x17 x18 x19) := r in
  mkState x0 x1 x2 x3 v x5 x6 x7 x8 x9 x10 x11 x12 x13 x14 x15 x16 x17 x18 x19.
Definition set_cue_out (v : bool) (r : ParserState) : ParserState :=
  let '(mkState x0 x1 x2 x3 x4 x5 x6 x7 x8 x9 x10 x11 x12 x13 x14 x15 x16 x17 x18 x19) := r in
  mkState x0 x1 x2 x3 x4 v x6 x7 x8 x9 x10 x11 x12 x13 x14 x15 x16 x17 x18 x19.
Definition set_cue_out_start (v : bool) (r : ParserState) : ParserState :=
  let '(mkState x0 x1 x2 x3 x4 x5 x6 x7 x8 x9 x10 x11 x12 x13 x14 x15 x16 x17 x18 x19) := r in
  mkState x0 x1 x2 x3 x4 x5 v x7 x8 x9 x10 x11 x12 x13 x14 x15 x16 x17 x18 x19.
Definition set_cue_out_explicitly_duration (v : bool) (r : ParserState) : ParserState :=
  let '(mkState x0 x1 x2 x3 x4 x5 x6 x7 x8 x9 x10 x11 x12 x13 x14 x15 x16 x17 x18 x19) := r in
  mkState x0 x1 x2 x3 x4 x5 x6 v x8 x9 x10 x11 x12 x13 x14 x15 x16 x17 x18 x19.
Definition set_cue_in (v : bool) (r : ParserState) : ParserState :=
  let '(mkState x0 x1 x2 x3 x4 x5 x6 x7 x8 x9 x10 x11 x12 x13 x14 x15 x16 x17 x18 x19) := r in
  mkState x0 x1 x2 x3 x4 x5 x6 x7 v x9 x10 x11 x12 x13 x14 x15 x16 x17 x18 x19.
Definition set_discontinuity (v : bool) (r : ParserState) : ParserState :=
  let '(mkState x0 x1 x2 x3 x4 x5 x6 x7 x8 x9 x10 x11 x12 x13 x14 x15 x16 x17 x18 x19) := r in
  mkState x0 x1 x2 x3 x4 x5 x6 x7 x8 v x10 x11 x12 x13 x14 x15 x16 x17 x18 x19.
Definition set_gap (v : bool) (r : ParserState) : ParserState :=
  let '(mkState x0 x1 x2 x3 x4 x5 x6 x7 x8 x9 x10 x11 x12 x13 x14 x15 x16 x17 x18 x19) := r in
  mkState x0 x1 x2 x3 x4 x5 x6 x7 x8 x9 v x11 x12 x13 x14 x15 x16 x17 x18 x19.
Definition set_blackout (v : option bytes) (r : ParserState) : ParserState :=
  let '(mkState x0 x1 x2 x3 x4 x5 x6 x7 x8 x9 x10 x11 x12 x13 x14 x15 x16 x17 x18 x19) := r in
  mkState x0 x1 x2 x3 x4 x5 x6 x7 x8 x9 x10 v x12 x13 x14 x15 x16 x17 x18 x19.
Definition set_current_cue_out_scte35 (v : option bytes) (r : ParserState) : ParserState :=
  let '(mkState x0 x1 x2 x3 x4 x5 x6 x7 x8 x9 x10 x11 x12 x13 x14 x15 x16 x17 x18 x19) := r in
  mkState x0 x1 x2 x3 x4 x5 x6 x7 x8 x9 x10 x11 v x13 x14 x15 x16 x17 x18 x19.
Definition set_current_cue_out_oatcls_scte35 (v : option bytes) (r : ParserState) : ParserState :=
  let '(mkState x0 x1 x2 x3 x4 x5 x6 x7 x8 x9 x10 x11 x12 x13 x14 x15 x16 x17 x18 x19) := r in
  mkState x0 x1 x2 x3 x4 x5 x6 x7 x8 x9 x10 x11 x12 v x14 x15 x16 x17 x18 x19.
Definition set_current_cue_out_duration (v : option bytes) (r : ParserState) : ParserState :=
  let '(mkState x0 x1 x2 x3 x4 x5 x6 x7 x8 x9 x10 x11 x12 x13 x14 x15 x16 x17 x18 x19) := r in
  mkState x0 x1 x2 x3 x4 x5 x6 x7 x8 x9 x10 x11 x12 x13 v x15 x16 x17 x18 x19.
Definition set_current_cue_out_elapsedtime (v : option bytes) (r : ParserState) : ParserState :=
  let '(mkState x0 x1 x2 x3 x4 x5 x6 x7 x8 x9 x10 x11 x12 x13 x14 x15 x16 x17 x18 x19) := r in
  mkState x0 x1 x2 x3 x4 x5 x6 x7 x8 x9 x10 x11 x12 x13 x14 v x16 x17 x18 x19.
Definition set_asset_metadata (v : list M3U8Attribute) (r : ParserState) : ParserState :=
  let '(mkState x0 x1 x2 x3 x4 x5 x6 x7 x8 x9 x10 x11 x12 x13 x14 x15 x16 x17 x18 x19) := r in
  mkState x0 x1 x2 x3 x4 x5 x6 x7 x8 x9 x10 x11 x12 x13 x14 x15 v x17 x18 x19.
Definition set_program_date_time (v : option bytes) (r : ParserState) : ParserState :=
  let '(mkState x0 x1 x2 x3 x4 x5 x6 x7 x8 x9 x10 x11 x12 x13 x14 x15 x16 x17 x18 x19) := r in
  mkState x0 x1 x2 x3 x4 x5 x6 x7 x8 x9 x10 x11 x12 x13 x14 x15 x16 v x18 x19.
Definition set_dateranges (v : list M3U8DateRange) (r : ParserState) : ParserState :=
  let '(mkState x0 x1 x2 x3 x4 x5 x6 x7 x8 x9 x10 x11 x12 x13 x14 x15 x16 x17 x18 x19) := r in
  mkState x0 x1 x2 x3 x4 x5 x6 x7 x8 x9 x10 x11 x12 x13 x14 x15 x16 x17 v x19.
Definition set_stream_info (v : list M3U8Attribute) (r : ParserState) : ParserState :=
  let '(mkState x0 x1 x2 x3 x4 x5 x6 x7 x8 x9 x10 x11 x12 x13 x14 x15 x16 x17 x18 x19) := r in
  mkState x0 x1 x2 x3 x4 x5 x6 x7 x8 x9 x10 x11 x12 x13 x14 x15 x16 x17 x18 v.

(** What [calloc] returns: every field zero. *)
Definition zero_segment : M3U8Segment :=
  mkSegment dzero None None None 0 false None false false false false
            None None None None [] None None [] false None [].

Definition zero_data : M3U8Data :=
  mkData 0 0 0 0 None None None false false false false false false
         (mkStart dzero false None)
         (mkServerControl None dzero dzero dzero None false)
         (mkPartInf dzero false)
         (mkSkip 0 None false)
         (mkPreloadHint None None 0 0 false false false)
         (mkContentSteering None None false)
         [] [] [] [] [] [] [] [] [] [] [].

Definition zero_state : ParserState :=
  mkState false false None None None false false false false false false
          None None None None None [] None [] [].

Definition empty_heap : Heap := mkHeap [] [].

(** ** Tag handlers

    A handler receives the line as the C code does: [line] is the input
    from the first byte of the line on, [len] the length of the line. *)

Definition handle_targetduration (data : M3U8Data) (line : bytes) (len : nat)
    : M3U8Data :=
  let p := skipn 22 line in
  set_targetduration (atoi p) data.

Definition handle_media_sequence (data : M3U8Data) (line : bytes) (len : nat)
    : M3U8Data :=
  let p := skipn 22 line in
  set_has_media_sequence true (set_media_sequence (strtoll p) data).

Definition handle_discontinuity_sequence (data : M3U8Data) (line : bytes)
    (len : nat) : M3U8Data :=
  let p := skipn 30 line in
  set_discontinuity_sequence (strtoll p) data.

Definition handle_version (data : M3U8Data) (line : bytes) (len : nat)
    : M3U8Data :=
  let p := skipn 15 line in
  set_version (atoi p) data.

Definition lowercase (s : option bytes) : option bytes :=
  option_map (map tolower) s.

Definition handle_allow_cache (data : M3U8Data) (line : bytes) (len : nat)
    : M3U8Data :=
  let p := skip_blank (span line 19 len) in
  let val_len := length p in
  set_allow_cache (lowercase (str_ndup (Some p) val_len)) data.

Definition handle_playlist_type (data : M3U8Data) (line : bytes) (len : nat)
    : M3U8Data :=
  let p := skip_blank (span line 21 len) in
  let val_len := length p in
  set_playlist_type (lowercase (str_ndup (Some p) val_len)) data.

Definition handle_program_date_time (data : M3U8Data) (state : ParserState)
    (line : bytes) (len : nat) : M3U8Data * ParserState :=
  let p := skip_blank (span line 25 len) in
  let val_len := length p in
  let state := set_program_date_time (str_ndup (Some p) val_len) state in
  match data_program_date_time data with
  | None => (set_data_program_date_time (str_ndup (Some p) val_len) data, state)
  | Some _ => (data, state)
  end.

Definition handle_endlist (data : M3U8Data) : M3U8Data :=
  set_is_endlist true data.

Definition handle_i_frames_only (data : M3U8Data) : M3U8Data :=
  set_is_i_frames_only true data.

Definition handle_independent_segments (data : M3U8Data) : M3U8Data :=
  set_is_independent_segments true data.

Definition handle_images_only (data : M3U8Data) : M3U8Data :=
  set_is_images_only true data.

Definition handle_discontinuity (state : ParserState) : ParserState :=
  set_discontinuity true state.

Definition handle_gap (state : ParserState) : ParserState :=
  set_gap true state.

Definition handle_cue_in (state : ParserState) : ParserState :=
  set_cue_in true state.

Definition handle_cue_span (state : ParserState) : ParserState :=
  set_cue_out true state.

Definition handle_blackout (state : ParserState) (line : bytes) (len : nat)
    : ParserState :=
  match memchr line ":" len with
  | Some colon =>
      let val_len := len - colon - 1 in
      set_blackout (str_ndup (Some (skipn (colon + 1) line)) val_len) state
  | None =>
      set_blackout (str_dup (Some (lit "__BLACKOUT_TRUE__"))) state
  end.

(** The five attributes of a key, all with quotes removed. *)
Definition make_key (attrs : list M3U8Attribute) : M3U8Key :=
  {| key_method := get_attr_str_unquoted attrs (lit "method");
     key_uri := get_attr_str_unquoted attrs (lit "uri");
     key_iv := get_attr_str_unquoted attrs (lit "iv");
     key_keyformat := get_attr_str_unquoted attrs (lit "keyformat");
     key_keyformatversions :=
       get_attr_str_unquoted attrs (lit "keyformatversions") |}.

(** [calloc] of a Key object: it gets the next address of the store. *)
Definition alloc_key (h : Heap) (k : M3U8Key) : addr * Heap :=
  (length (heap_keys h), mkHeap (heap_keys h ++ [k]) (heap_maps h)).

Definition alloc_map (h : Heap) (m : M3U8Map) : addr * Heap :=
  (length (heap_maps h), mkHeap (heap_keys h) (heap_maps h ++ [m])).

Definition handle_key (h : Heap) (data : M3U8Data) (state : ParserState)
    (line : bytes) (len : nat) : Heap * M3U8Data * ParserState :=
  let params := skipn 11 line in
  let params_len := len - 11 in
  let attrs := parse_attributes params params_len in
  let (key, h) := alloc_key h (make_key attrs) in
  (h, set_keys (keys data ++ [key]) data, set_current_key (Some key) state).

Definition handle_session_key (h : Heap) (data : M3U8Data)
    (line : bytes) (len : nat) : Heap * M3U8Data :=
  let params := skipn 19 line in
  let params_len := len - 19 in
  let attrs := parse_attributes params params_len in
  let (key, h) := alloc_key h (make_key attrs) in
  (h, set_session_keys (session_keys data ++ [key]) data).

Definition make_map (attrs : list M3U8Attribute) : M3U8Map :=
  {| map_uri := get_attr_str_unquoted attrs (lit "uri");
     map_byterange := get_attr_str_unquoted attrs (lit "byterange") |}.

Definition handle_map (h : Heap) (data : M3U8Data) (state : ParserState)
    (line : bytes) (len : nat) : Heap * M3U8Data * ParserState :=
  let params := skipn 11 line in
  let params_len := len - 11 in
  let attrs := parse_attributes params params_len in
  let (map, h) := alloc_map h (make_map attrs) in
  (h, set_segment_map (segment_map data ++ [map]) data,
   set_current_map (Some map) state).

(** [if (!state->current_segment) state->current_segment = calloc(...)]. *)
Definition ensure_segment (state : ParserState) : M3U8Segment :=
  match current_segment state with
  | Some seg => seg
  | None => zero_segment
  end.

Definition handle_extinf (state : ParserState) (line : bytes) (len : nat)
    : ParserState :=
  let p := skipn 8 line in
  let remaining := len - 8 in
  let seg := ensure_segment state in
  let seg := set_seg_duration (strtod p) seg in
  let seg :=
    match memchr p "," remaining with
    | Some comma =>
        let title := skip_blank (span line (8 + comma + 1) len) in
        let title_len := length title in
        if 0 <? title_len
        then set_seg_title (str_ndup (Some title) title_len) seg
        else seg
    | None => seg
    end in
  set_expect_segment true (set_current_segment (Some seg) state).

Definition handle_byterange (state : ParserState) (line : bytes) (len : nat)
    : ParserState :=
  let p := skipn 17 line in
  let val_len := len - 17 in
  let seg := ensure_segment state in
  let seg := set_seg_byterange (str_ndup (Some p) val_len) seg in
  set_expect_segment true (set_current_segment (Some seg) state).

Definition handle_bitrate (state : ParserState) (line : bytes) (len : nat)
    : ParserState :=
  let p := skipn 15 line in
  let seg := ensure_segment state in
  let seg := set_seg_bitrate (atoi p) seg in
  set_current_segment (Some seg) state.

(** The scan of [handle_cue_out] for the DURATION keyword: [p] is
    [line + i] and [remaining] is [len - i]. *)
Fixpoint find_duration_keyword (p : bytes) (remaining : nat) : bool :=
  match remaining, p with
  | S r, c :: p' =>
      let c := if islower c then ascii_of_nat (code c - 32) else c in
      if (c =? "D")%char && (8 <=? remaining)
         && (strncmp_eq p (lit "DURATION") 8 || strncmp_eq p (lit "duration") 8)
      then true
      else find_duration_keyword p' r
  | _, _ => false
  end.

Definition or_keep (new old : option bytes) : option bytes :=
  match new with Some _ => new | None => old end.

Definition handle_cue_out (state : ParserState) (line : bytes) (len : nat)
    : ParserState :=
  let state := set_cue_out true (set_cue_out_start true state) in
  let state :=
    if (12 <? len) && find_duration_keyword line len
    then set_cue_out_explicitly_duration true state
    else state in
  match memchr line ":" len with
  | Some colon =>
      if colon <? len - 1 then
        let params := skipn (colon + 1) line in
        let params_len := len - (colon + 1) in
        let attrs := parse_attributes params params_len in
        let cue := get_attr_str_unquoted attrs (lit "cue") in
        let state :=
          set_current_cue_out_scte35
            (or_keep cue (current_cue_out_scte35 state)) state in
        let duration :=
          match get_attr attrs (lit "duration") with
          | Some d => Some d
          | None => get_attr attrs (lit EmptyString)
          end in
        set_current_cue_out_duration
          (or_keep (str_dup duration) (current_cue_out_duration state)) state
      else state
  | None => state
  end.

Definition handle_cue_out_cont (state : ParserState) (line : bytes) (len : nat)
    : ParserState :=
  let state := set_cue_out true state in
  match memchr line ":" len with
  | None => state
  | Some colon =>
      let params := skipn (colon + 1) line in
      let params_len := len - (colon + 1) in
      let attrs := parse_attributes params params_len in
      let state :=
        match get_attr attrs (lit EmptyString) with
        | Some bare =>
            match strchr bare "/" with
            | Some slash =>
                let state :=
                  set_current_cue_out_elapsedtime
                    (str_ndup (Some bare) slash) state in
                set_current_cue_out_duration
                  (str_dup (Some (skipn (slash + 1) bare))) state
            | None =>
                set_current_cue_out_duration (str_dup (Some bare)) state
            end
        | None => state
        end in
      let duration := get_attr_str_unquoted attrs (lit "duration") in
      let state :=
        set_current_cue_out_duration
          (or_keep duration (current_cue_out_duration state)) state in
      let scte35 := get_attr_str_unquoted attrs (lit "scte35") in
      let state :=
        set_current_cue_out_scte35
          (or_keep scte35 (current_cue_out_scte35 state)) state in
      let elapsed := get_attr_str_unquoted attrs (lit "elapsedtime") in
      set_current_cue_out_elapsedtime
        (or_keep elapsed (current_cue_out_elapsedtime state)) state
  end.

Definition handle_oatcls_scte35 (state : ParserState) (line : bytes) (len : nat)
    : ParserState :=
  match memchr line ":" len with
  | Some colon =>
      let val := skipn (colon + 1) line in
      let val_len := len - (colon + 1) in
      let state :=
        set_current_cue_out_oatcls_scte35 (str_ndup (Some val) val_len) state in
      match current_cue_out_scte35 state with
      | None => set_current_cue_out_scte35 (str_ndup (Some val) val_len) state
      | Some _ => state
      end
  | None => state
  end.

Definition handle_asset (state : ParserState) (line : bytes) (len : nat)
    : ParserState :=
  match memchr line ":" len with
  | Some colon =>
      let params := skipn (colon + 1) line in
      let params_len := len - (colon + 1) in
      set_asset_metadata (parse_attributes params params_len) state
  | None => state
  end.

(** Collect X-* attributes: the attributes whose key starts with [x_]. *)
Definition is_x_attr (a : M3U8Attribute) : bool :=
  match attr_key a with
  | Some k => (nth 0 k NUL =? "x")%char && (nth 1 k NUL =? "_")%char
  | None => false
  end.

Definition copy_attribute (a : M3U8Attribute) : M3U8Attribute :=
  {| attr_key := str_dup (attr_key a); attr_value := str_dup (attr_value a) |}.

Definition make_daterange (attrs : list M3U8Attribute) : M3U8DateRange :=
  {| dr_id := get_attr_str_unquoted attrs (lit "id");
     dr_class_name := get_attr_str_unquoted attrs (lit "class");
     dr_start_date := get_attr_str_unquoted attrs (lit "start_date");
     dr_end_date := get_attr_str_unquoted attrs (lit "end_date");
     dr_duration := get_attr_double attrs (lit "duration") dzero;
     dr_planned_duration := get_attr_double attrs (lit "planned_duration") dzero;
     dr_scte35_cmd := get_attr_str attrs (lit "scte35_cmd");
     dr_scte35_out := get_attr_str attrs (lit "scte35_out");
     dr_scte35_in := get_attr_str attrs (lit "scte35_in");
     dr_end_on_next := get_attr_str attrs (lit "end_on_next");
     dr_x_attrs := map copy_attribute (filter is_x_attr attrs) |}.

Definition handle_daterange (state : ParserState) (line : bytes) (len : nat)
    : ParserState :=
  let params := skipn 17 line in
  let params_len := len - 17 in
  let attrs := parse_attributes params params_len in
  let dr := make_daterange attrs in
  (* dr->next = state->dateranges; state->dateranges = dr *)
  set_dateranges (dr :: dateranges state) state.

Definition handle_stream_inf (data : M3U8Data) (state : ParserState)
    (line : bytes) (len : nat) : M3U8Data * ParserState :=
  let params := skipn 18 line in
  let params_len := len - 18 in
  let data := set_has_media_sequence false (set_is_variant true data) in
  let state := set_stream_info (parse_attributes params params_len) state in
  (data, set_expect_playlist true state).

Definition handle_i_frame_stream_inf (data : M3U8Data) (line : bytes) (len : nat)
    : M3U8Data :=
  let params := skipn 26 line in
  let params_len := len - 26 in
  let attrs := parse_attributes params params_len in
  let pl :=
    {| ifr_uri := get_attr_str_unquoted attrs (lit "uri");
       ifr_program_id := get_attr_int attrs (lit "program_id") 0;
       ifr_bandwidth := get_attr_ll attrs (lit "bandwidth") 0;
       ifr_average_bandwidth := get_attr_ll attrs (lit "average_bandwidth") 0;
       ifr_resolution := get_attr_str attrs (lit "resolution");
       ifr_codecs := get_attr_str_unquoted attrs (lit "codecs");
       ifr_video_range := get_attr_str_unquoted attrs (lit "video_range");
       ifr_hdcp_level := get_attr_str attrs (lit "hdcp_level");
       ifr_pathway_id := get_attr_str_unquoted attrs (lit "pathway_id");
       ifr_stable_variant_id :=
         get_attr_str_unquoted attrs (lit "stable_variant_id") |} in
  set_iframe_playlists (iframe_playlists data ++ [pl]) data.

Definition handle_image_stream_inf (data : M3U8Data) (line : bytes) (len : nat)
    : M3U8Data :=
  let params := skipn 24 line in
  let params_len := len - 24 in
  let attrs := parse_attributes params params_len in
  let pl :=
    {| img_uri := get_attr_str_unquoted attrs (lit "uri");
       img_program_id := get_attr_int attrs (lit "program_id") 0;
       img_bandwidth := get_attr_ll attrs (lit "bandwidth") 0;
       img_average_bandwidth := get_attr_ll attrs (lit "average_bandwidth") 0;
       img_resolution := get_attr_str attrs (lit "resolution");
       img_codecs := get_attr_str_unquoted attrs (lit "codecs");
       img_pathway_id := get_attr_str_unquoted attrs (lit "pathway_id");
       img_stable_variant_id :=
         get_attr_str_unquoted attrs (lit "stable_variant_id") |} in
  set_image_playlists (image_playlists data ++ [pl]) data.

Definition handle_media (data : M3U8Data) (line : bytes) (len : nat)
    : M3U8Data :=
  let params := skipn 13 line in
  let params_len := len - 13 in
  let attrs := parse_attributes params params_len in
  let m :=
    {| media_type := get_attr_str attrs (lit "type");
       media_uri := get_attr_str_unquoted attrs (lit "uri");
       media_group_id := get_attr_str_unquoted attrs (lit "group_id");
       media_language := get_attr_str_unquoted attrs (lit "language");
       media_assoc_language := get_attr_str_unquoted attrs (lit "assoc_language");
       media_name := get_attr_str_unquoted attrs (lit "name");
       media_default_val := get_attr_str attrs (lit "default");
       media_autoselect := get_attr_str attrs (lit "autoselect");
       media_forced := get_attr_str attrs (lit "forced");
       media_instream_id := get_attr_str_unquoted attrs (lit "instream_id");
       media_characteristics :=
         get_attr_str_unquoted attrs (lit "characteristics");
       media_channels := get_attr_str_unquoted attrs (lit "channels");
       media_stable_rendition_id :=
         get_attr_str_unquoted attrs (lit "stable_rendition_id") |} in
  set_media (media data ++ [m]) data.

Definition handle_start (data : M3U8Data) (line : bytes) (len : nat)
    : M3U8Data :=
  let params := skipn 13 line in
  let params_len := len - 13 in
  let attrs := parse_attributes params params_len in
  set_start
    {| start_time_offset := get_attr_double attrs (lit "time_offset") dzero;
       start_precise := get_attr_str attrs (lit "precise");
       has_start := true |} data.

Definition handle_server_control (data : M3U8Data) (line : bytes) (len : nat)
    : M3U8Data :=
  let params := skipn 22 line in
  let params_len := len - 22 in
  let attrs := parse_attributes params params_len in
  set_server_control
    {| server_control_can_block_reload :=
         get_attr_str attrs (lit "can_block_reload");
       server_control_hold_back := get_attr_double attrs (lit "hold_back") dzero;
       server_control_part_hold_back :=
         get_attr_double attrs (lit "part_hold_back") dzero;
       server_control_can_skip_until :=
         get_attr_double attrs (lit "can_skip_until") dzero;
       server_control_can_skip_dateranges :=
         get_attr_str attrs (lit "can_skip_dateranges");
       has_server_control := true |} data.

Definition handle_part_inf (data : M3U8Data) (line : bytes) (len : nat)
    : M3U8Data :=
  let params := skipn 16 line in
  let params_len := len - 16 in
  let attrs := parse_attributes params params_len in
  set_part_inf
    {| part_inf_part_target := get_attr_double attrs (lit "part_target") dzero;
       has_part_inf := true |} data.

Definition handle_skip (data : M3U8Data) (line : bytes) (len : nat)
    : M3U8Data :=
  let params := skipn 12 line in
  let params_len := len - 12 in
  let attrs := parse_attributes params params_len in
  set_skip
    {| skip_skipped_segments := get_attr_int attrs (lit "skipped_segments") 0;
       skip_recently_removed_dateranges :=
         get_attr_str_unquoted attrs (lit "recently_removed_dateranges");
       has_skip := true |} data.

Definition handle_rendition_report (data : M3U8Data) (line : bytes) (len : nat)
    : M3U8Data :=
  let params := skipn 24 line in
  let params_len := len - 24 in
  let attrs := parse_attributes params params_len in
  let last_msn := get_attr attrs (lit "last_msn") in
  let last_part := get_attr attrs (lit "last_part") in
  let rr :=
    {| rr_uri := get_attr_str_unquoted attrs (lit "uri");
       rr_last_msn := match last_msn with Some v => strtoll v | None => 0%Z end;
       rr_has_last_msn := match last_msn with Some _ => true | None => false end;
       rr_last_part := match last_part with Some v => strtoll v | None => 0%Z end;
       rr_has_last_part :=
         match last_part with Some _ => true | None => false end |} in
  set_rendition_reports (rendition_reports data ++ [rr]) data.

Definition handle_session_data (data : M3U8Data) (line : bytes) (len : nat)
    : M3U8Data :=
  let params := skipn 20 line in
  let params_len := len - 20 in
  let attrs := parse_attributes params params_len in
  let sd :=
    {| sd_data_id := get_attr_str_unquoted attrs (lit "data_id");
       sd_value := get_attr_str_unquoted attrs (lit "value");
       sd_uri := get_attr_str_unquoted attrs (lit "uri");
       sd_language := get_attr_str_unquoted attrs (lit "language") |} in
  set_session_data (session_data data ++ [sd]) data.

Definition handle_preload_hint (data : M3U8Data) (line : bytes) (len : nat)
    : M3U8Data :=
  let params := skipn 20 line in
  let params_len := len - 20 in
  let attrs := parse_attributes params params_len in
  let ph := preload_hint data in
  let ph :=
    mkPreloadHint (get_attr_str attrs (lit "type"))
                  (get_attr_str_unquoted attrs (lit "uri"))
                  (preload_hint_byterange_start ph)
                  (preload_hint_byterange_length ph)
                  (has_preload_hint ph)
                  (has_preload_hint_byterange_start ph)
                  (has_preload_hint_byterange_length ph) in
  let ph :=
    match get_attr attrs (lit "byterange_start") with
    | Some bs =>
        set_has_preload_hint_byterange_start true
          (set_preload_hint_byterange_start (atoi bs) ph)
    | None => ph
    end in
  let ph :=
    match get_attr attrs (lit "byterange_length") with
    | Some bl =>
        set_has_preload_hint_byterange_length true
          (set_preload_hint_byterange_length (atoi bl) ph)
    | None => ph
    end in
  let ph :=
    mkPreloadHint (preload_hint_type ph) (preload_hint_uri ph)
                  (preload_hint_byterange_start ph)
                  (preload_hint_byterange_length ph)
                  true
                  (has_preload_hint_byterange_start ph)
                  (has_preload_hint_byterange_length ph) in
  set_preload_hint ph data.

Definition handle_content_steering (data : M3U8Data) (line : bytes) (len : nat)
    : M3U8Data :=
  let params := skipn 24 line in
  let params_len := len - 24 in
  let attrs := parse_attributes params params_len in
  set_content_steering
    {| content_steering_server_uri :=
         get_attr_str_unquoted attrs (lit "server_uri");
       content_steering_pathway_id :=
         get_attr_str_unquoted attrs (lit "pathway_id");
       has_content_steering := true |} data.

Definition handle_tiles (data : M3U8Data) (line : bytes) (len : nat)
    : M3U8Data :=
  let params := skipn 13 line in
  let params_len := len - 13 in
  let attrs := parse_attributes params params_len in
  let t :=
    {| tiles_resolution := get_attr_str attrs (lit "resolution");
       tiles_layout := get_attr_str attrs (lit "layout");
       tiles_duration := get_attr_double attrs (lit "duration") dzero;
       tiles_uri := get_attr_str_unquoted attrs (lit "uri") |} in
  set_tiles (tiles data ++ [t]) data.

Definition handle_part (state : ParserState) (line : bytes) (len : nat)
    : ParserState :=
  let params := skipn 12 line in
  let params_len := len - 12 in
  let attrs := parse_attributes params params_len in
  let part :=
    {| part_uri := get_attr_str_unquoted attrs (lit "uri");
       part_duration := get_attr_double attrs (lit "duration") dzero;
       part_byterange := get_attr_str attrs (lit "byterange");
       part_independent := get_attr_str attrs (lit "independent");
       part_gap := get_attr_str attrs (lit "gap");
       part_gap_tag := gap state;
       (* Transfer dateranges *)
       part_dateranges := dateranges state |} in
  let state := set_gap false (set_dateranges [] state) in
  let seg := ensure_segment state in
  let seg := set_seg_parts (seg_parts seg ++ [part]) seg in
  set_current_segment (Some seg) state.

(** ** Finalizers *)

(** The state of a parse: the object store, the document, the parser state. *)
Definition Config : Type := Heap * M3U8Data * ParserState.

(** A handler of the document and the state leaves the store alone. *)
Definition with_heap (h : Heap) (ds : M3U8Data * ParserState) : Config :=
  (h, fst ds, snd ds).

(** Finalize a segment when URI line is encountered. *)
Definition finalize_segment (data : M3U8Data) (state : ParserState)
    (uri : bytes) (uri_len : nat) : M3U8Data * ParserState :=
  let seg := ensure_segment state in
  let in_span := cue_out state in
  let seg :=
    {| seg_duration := seg_duration seg;
       seg_title := seg_title seg;
       seg_uri := str_ndup (Some uri) uri_len;
       seg_byterange := seg_byterange seg;
       seg_bitrate := seg_bitrate seg;
       (* Apply state *)
       seg_discontinuity := discontinuity state;
       seg_cue_in := cue_in state;
       seg_cue_out := cue_out state;
       seg_cue_out_start := cue_out_start state;
       seg_cue_out_explicitly_duration := cue_out_explicitly_duration state;
       seg_gap_tag := gap state;
       seg_blackout :=
         match blackout state with
         | Some b => str_dup (Some b)
         | None => seg_blackout seg
         end;
       seg_program_date_time :=
         match program_date_time state with
         | Some t => str_dup (Some t)
         | None => seg_program_date_time seg
         end;
       (* SCTE35 handling: copies inside a span, the pointers otherwise *)
       seg_scte35 :=
         if in_span then str_dup (current_cue_out_scte35 state)
         else current_cue_out_scte35 state;
       seg_oatcls_scte35 :=
         if in_span then str_dup (current_cue_out_oatcls_scte35 state)
         else current_cue_out_oatcls_scte35 state;
       seg_scte35_duration :=
         if in_span then str_dup (current_cue_out_duration state)
         else current_cue_out_duration state;
       seg_scte35_elapsedtime :=
         if in_span then str_dup (current_cue_out_elapsedtime state)
         else current_cue_out_elapsedtime state;
       (* Asset metadata *)
       seg_asset_metadata :=
         match asset_metadata state with
         | [] => seg_asset_metadata seg
         | pending =>
             if in_span then map copy_attribute pending else pending
         end;
       (* Key and map *)
       seg_key := current_key state;
       seg_init_section := current_map state;
       (* Dateranges *)
       seg_dateranges := dateranges state;
       seg_parts := seg_parts seg |} in
  let state := set_program_date_time None state in
  (* Pop SCTE35 data on cue_in *)
  let state :=
    if in_span then state
    else
      set_current_cue_out_elapsedtime None
        (set_current_cue_out_duration None
           (set_current_cue_out_oatcls_scte35 None
              (set_current_cue_out_scte35 None state))) in
  let state :=
    if in_span then state else set_asset_metadata [] state in
  let state := set_dateranges [] state in
  (* Add to list *)
  let data := set_segments (segments data ++ [seg]) data in
  (* Reset state *)
  let state := set_current_segment None state in
  let state := set_expect_segment false state in
  let state := set_discontinuity false state in
  let state := set_cue_in false state in
  let state := set_cue_out false state in
  let state := set_cue_out_start false state in
  let state := set_cue_out_explicitly_duration false state in
  let state := set_gap false state in
  let state := set_blackout None state in
  (data, state).

(** Finalize a variant playlist when URI line is encountered. *)
Definition finalize_playlist (data : M3U8Data) (state : ParserState)
    (uri : bytes) (uri_len : nat) : M3U8Data * ParserState :=
  let info := stream_info state in
  let data :=
    if is_nil info then data
    else
      let pl :=
        {| pl_uri := str_ndup (Some uri) uri_len;
           pl_program_id := get_attr_int info (lit "program_id") 0;
           pl_bandwidth :=
             match get_attr info (lit "bandwidth") with
             | Some bw => to_llong (strtod bw)  (* Handle float bandwidth *)
             | None => 0%Z
             end;
           pl_average_bandwidth := get_attr_ll info (lit "average_bandwidth") 0;
           pl_resolution := get_attr_str info (lit "resolution");
           pl_codecs := get_attr_str_unquoted info (lit "codecs");
           pl_frame_rate := get_attr_double info (lit "frame_rate") dzero;
           pl_video := get_attr_str_unquoted info (lit "video");
           pl_audio := get_attr_str_unquoted info (lit "audio");
           pl_subtitles := get_attr_str_unquoted info (lit "subtitles");
           pl_video_range := get_attr_str_unquoted info (lit "video_range");
           pl_hdcp_level := get_attr_str info (lit "hdcp_level");
           pl_pathway_id := get_attr_str_unquoted info (lit "pathway_id");
           pl_stable_variant_id :=
             get_attr_str_unquoted info (lit "stable_variant_id");
           pl_req_video_layout := get_attr_str info (lit "req_video_layout");
           pl_closed_captions := str_dup (get_attr info (lit "closed_captions")) |} in
      set_playlists (playlists data ++ [pl]) data in
  (* Reset state *)
  (data, set_expect_playlist false (set_stream_info [] state)).

(** ** Main parser *)

(** The tag prefixes of the dispatcher, in the order it tests them. *)
Definition recognized_tags : list string :=
  [ "#EXTM3U"; "#EXTINF:"; "#EXT-X-TARGETDURATION:"; "#EXT-X-MEDIA-SEQUENCE:";
    "#EXT-X-DISCONTINUITY-SEQUENCE:"; "#EXT-X-VERSION:"; "#EXT-X-ALLOW-CACHE:";
    "#EXT-X-PLAYLIST-TYPE:"; "#EXT-X-PROGRAM-DATE-TIME:"; "#EXT-X-ENDLIST";
    "#EXT-X-I-FRAMES-ONLY"; "#EXT-X-INDEPENDENT-SEGMENTS"; "#EXT-X-IMAGES-ONLY";
    "#EXT-X-DISCONTINUITY"; "#EXT-X-GAP"; "#EXT-X-BLACKOUT"; "#EXT-X-CUE-IN";
    "#EXT-X-CUE-SPAN"; "#EXT-X-CUE-OUT-CONT"; "#EXT-X-CUE-OUT";
    "#EXT-OATCLS-SCTE35:"; "#EXT-X-ASSET:"; "#EXT-X-KEY:";
    "#EXT-X-SESSION-KEY:"; "#EXT-X-MAP:"; "#EXT-X-BYTERANGE:";
    "#EXT-X-BITRATE:"; "#EXT-X-DATERANGE:"; "#EXT-X-STREAM-INF:";
    "#EXT-X-I-FRAME-STREAM-INF:"; "#EXT-X-IMAGE-STREAM-INF:"; "#EXT-X-MEDIA:";
    "#EXT-X-START:"; "#EXT-X-SERVER-CONTROL:"; "#EXT-X-PART-INF:";
    "#EXT-X-SKIP:"; "#EXT-X-RENDITION-REPORT:"; "#EXT-X-SESSION-DATA:";
    "#EXT-X-PRELOAD-HINT:"; "#EXT-X-CONTENT-STEERING:"; "#EXT-X-TILES:";
    "#EXT-X-PART:" ]%string.

Local Open Scope string_scope.

(** Dispatch of a tag line (a line whose first byte is [#]). *)
Definition dispatch_tag (c : Config) (cursor : bytes) (line_len : nat) : Config :=
  let '(h, data, state) := c in
  let tag := starts_with cursor line_len in
  if tag "#EXTM3U" then c  (* Valid playlist header, ignore *)
  else if tag "#EXTINF:" then (h, data, handle_extinf state cursor line_len)
  else if tag "#EXT-X-TARGETDURATION:" then
    (h, handle_targetduration data cursor line_len, state)
  else if tag "#EXT-X-MEDIA-SEQUENCE:" then
    (h, handle_media_sequence data cursor line_len, state)
  else if tag "#EXT-X-DISCONTINUITY-SEQUENCE:" then
    (h, handle_discontinuity_sequence data cursor line_len, state)
  else if tag "#EXT-X-VERSION:" then
    (h, handle_version data cursor line_len, state)
  else if tag "#EXT-X-ALLOW-CACHE:" then
    (h, handle_allow_cache data cursor line_len, state)
  else if tag "#EXT-X-PLAYLIST-TYPE:" then
    (h, handle_playlist_type data cursor line_len, state)
  else if tag "#EXT-X-PROGRAM-DATE-TIME:" then
    with_heap h (handle_program_date_time data state cursor line_len)
  else if tag "#EXT-X-ENDLIST" then (h, handle_endlist data, state)
  else if tag "#EXT-X-I-FRAMES-ONLY" then (h, handle_i_frames_only data, state)
  else if tag "#EXT-X-INDEPENDENT-SEGMENTS" then
    (h, handle_independent_segments data, state)
  else if tag "#EXT-X-IMAGES-ONLY" then (h, handle_images_only data, state)
  else if tag "#EXT-X-DISCONTINUITY"
          && negb (tag "#EXT-X-DISCONTINUITY-SEQUENCE") then
    (h, data, handle_discontinuity state)
  else if tag "#EXT-X-GAP" then (h, data, handle_gap state)
  else if tag "#EXT-X-BLACKOUT" then
    (h, data, handle_blackout state cursor line_len)
  else if tag "#EXT-X-CUE-IN" then (h, data, handle_cue_in state)
  else if tag "#EXT-X-CUE-SPAN" then (h, data, handle_cue_span state)
  else if tag "#EXT-X-CUE-OUT-CONT" then
    (h, data, handle_cue_out_cont state cursor line_len)
  else if tag "#EXT-X-CUE-OUT" then
    (h, data, handle_cue_out state cursor line_len)
  else if tag "#EXT-OATCLS-SCTE35:" then
    (h, data, handle_oatcls_scte35 state cursor line_len)
  else if tag "#EXT-X-ASSET:" then (h, data, handle_asset state cursor line_len)
  else if tag "#EXT-X-KEY:" then handle_key h data state cursor line_len
  else if tag "#EXT-X-SESSION-KEY:" then
    (handle_session_key h data cursor line_len, state)
  else if tag "#EXT-X-MAP:" then handle_map h data state cursor line_len
  else if tag "#EXT-X-BYTERANGE:" then
    (h, data, handle_byterange state cursor line_len)
  else if tag "#EXT-X-BITRATE:" then
    (h, data, handle_bitrate state cursor line_len)
  else if tag "#EXT-X-DATERANGE:" then
    (h, data, handle_daterange state cursor line_len)
  else if tag "#EXT-X-STREAM-INF:" then
    with_heap h (handle_stream_inf data state cursor line_len)
  else if tag "#EXT-X-I-FRAME-STREAM-INF:" then
    (h, handle_i_frame_stream_inf data cursor line_len, state)
  else if tag "#EXT-X-IMAGE-STREAM-INF:" then
    (h, handle_image_stream_inf data cursor line_len, state)
  else if tag "#EXT-X-MEDIA:" then (h, handle_media data cursor line_len, state)
  else if tag "#EXT-X-START:" then (h, handle_start data cursor line_len, state)
  else if tag "#EXT-X-SERVER-CONTROL:" then
    (h, handle_server_control data cursor line_len, state)
  else if tag "#EXT-X-PART-INF:" then
    (h, handle_part_inf data cursor line_len, state)
  else if tag "#EXT-X-SKIP:" then (h, handle_skip data cursor line_len, state)
  else if tag "#EXT-X-RENDITION-REPORT:" then
    (h, handle_rendition_report data cursor line_len, state)
  else if tag "#EXT-X-SESSION-DATA:" then
    (h, handle_session_data data cursor line_len, state)
  else if tag "#EXT-X-PRELOAD-HINT:" then
    (h, handle_preload_hint data cursor line_len, state)
  else if tag "#EXT-X-CONTENT-STEERING:" then
    (h, handle_content_steering data cursor line_len, state)
  else if tag "#EXT-X-TILES:" then (h, handle_tiles data cursor line_len, state)
  else if tag "#EXT-X-PART:" then (h, data, handle_part state cursor line_len)
  else c.  (* Unknown tags are ignored (like comments) *)

Local Close Scope string_scope.

(** Dispatch of a URI line. *)
Definition dispatch_uri (c : Config) (cursor : bytes) (line_len : nat) : Config :=
  let '(h, data, state) := c in
  if expect_segment state then
    with_heap h (finalize_segment data state cursor line_len)
  else if expect_playlist state then
    with_heap h (finalize_playlist data state cursor line_len)
  else c.  (* Other non-comment lines are ignored *)

(** Dispatch based on line content. *)
Definition process_line (c : Config) (cursor : bytes) (line_len : nat) : Config :=
  if (peek cursor =? "#")%char then dispatch_tag c cursor line_len
  else dispatch_uri c cursor line_len.

Definition CR : ascii := "013"%char.
Definition LF : ascii := "010"%char.

Definition is_eol (c : ascii) : bool := (c =? LF)%char || (c =? CR)%char.

(** Find end of line. *)
Definition find_eol (s : bytes) : bytes * bytes := scan_until is_eol s.

(** [if (cursor < end && *cursor == c) cursor++]. *)
Definition skip_one (c : ascii) (cursor : bytes) : bytes :=
  match cursor with
  | x :: rest => if (x =? c)%char then rest else cursor
  | [] => []
  end.

(** The [while (cursor < end)] loop of [m3u8_parse], one iteration per unit
    of fuel; [None] when the fuel runs out before the input does. *)
Fixpoint parse_loop (fuel : nat) (cursor : bytes) (c : Config) : option Config :=
  match fuel with
  | 0 => None
  | S fuel' =>
      (* Skip leading whitespace *)
      match skip_blank cursor with
      | [] => Some c
      | cursor =>
          let (line, line_end) := find_eol cursor in
          (* Trim trailing whitespace *)
          let line_len :=
            length (trim_end (fun c => is_blank c || (c =? CR)%char) line) in
          if line_len =? 0 then parse_loop fuel' (tl line_end) c
          else
            let c := process_line c cursor line_len in
            (* Move to next line *)
            parse_loop fuel' (skip_one LF (skip_one CR line_end)) c
      end
  end.

(** The loop that frees the dateranges not attached to a segment. *)
Fixpoint free_pending_dateranges (l : list M3U8DateRange) : list M3U8DateRange :=
  match l with
  | [] => []
  | _ :: next => free_pending_dateranges next
  end.

(** What follows the loop: the partial segment at the end is appended,
    and the state is cleaned up. *)
Definition finish (c : Config) : Config :=
  let '(h, data, state) := c in
  let data :=
    match current_segment state with
    | Some seg => set_segments (segments data ++ [seg]) data
    | None => data
    end in
  (h, data, set_dateranges (free_pending_dateranges (dateranges state)) state).

Definition initial : Config := (empty_heap, zero_data, zero_state).

(** [m3u8_parse] down to its [return], with the local state still in
    view.  [content] is [None] for a NULL pointer and otherwise holds the
    [length] bytes of the input. *)
Definition m3u8_parse_run (content : option bytes) : option Config :=
  match content with
  | None => None
  | Some buf =>
      if length buf =? 0 then None
      else option_map finish (parse_loop (S (length buf)) buf initial)
  end.

(** The document [m3u8_parse] returns, with the store its pointers refer to. *)
Definition m3u8_parse (content : option bytes) : option (Heap * M3U8Data) :=
  option_map fst (m3u8_parse_run content).

(** ** The parse as a run over logical lines

    A logical line is what one iteration of the main loop hands to the
    dispatcher: the cursor (the input from the first byte of the line on)
    and the trimmed length of the line. *)

Definition Line : Type := bytes * nat.

Definition step (c : Config) (l : Line) : Config :=
  process_line c (fst l) (snd l).

Definition run_from (c : Config) (ls : list Line) : Config :=
  fold_left step ls c.

Definition run (ls : list Line) : Config := run_from initial ls.

(** The lines the main loop dispatches, in order. *)
Fixpoint scan_lines (fuel : nat) (cursor : bytes) : list Line :=
  match fuel with
  | 0 => []
  | S fuel' =>
      match skip_blank cursor with
      | [] => []
      | cursor =>
          let (line, line_end) := find_eol cursor in
          let line_len :=
            length (trim_end (fun c => is_blank c || (c =? CR)%char) line) in
          if line_len =? 0 then scan_lines fuel' (tl line_end)
          else (cursor, line_len)
                 :: scan_lines fuel' (skip_one LF (skip_one CR line_end))
      end
  end.

Definition lines_of (content : bytes) : list Line :=
  scan_lines (S (length content)) content.

(** Components of a configuration. *)
Definition heap_of (c : Config) : Heap := fst (fst c).
Definition data_of (c : Config) : M3U8Data := snd (fst c).
Definition state_of (c : Config) : ParserState := snd c.

(** Text input: lines joined by LF. *)
Definition text (lines : list string) : bytes :=
  concat (map (fun l => lit l ++ [LF]) lines).

(** * Vocabulary of the properties *)

(** Two prefixes that can start the same line agree on their common length. *)
Definition compatible (p q : string) : bool :=
  let n := Nat.min (length (lit p)) (length (lit q)) in
  bytes_eqb (firstn n (lit p)) (firstn n (lit q)).

(** What [normalize_attr_name] does to one character. *)
Definition normalize_char (c : ascii) : ascii :=
  if (c =? "-")%char then "_"%char else tolower c.

(** The set [a-z0-9_]. *)
Definition key_charset (c : ascii) : bool :=
  islower c || isdigit c || (c =? "_")%char.

(** The set [A-Za-z0-9_-]. *)
Definition name_charset (c : ascii) : bool :=
  isalnum c || (c =? "_")%char || (c =? "-")%char.

(** Do all the keys of an attribute list lie in [a-z0-9_]? *)
Definition keys_in_charset (attrs : list M3U8Attribute) : bool :=
  forallb (fun a =>
             match attr_key a with
             | Some k => forallb key_charset k
             | None => true
             end) attrs.

(** Every character of a key is the normalization of a character of the
    text the lexer was given. *)
Definition key_from (p : bytes) (a : M3U8Attribute) : Prop :=
  forall k, attr_key a = Some k ->
  Forall (fun c => exists c0, In c0 p /\ c = normalize_char c0) k.

(** The [cue_out_explicitly_duration] flags of the segments of the
    document parsed from [content]. *)
Definition explicit_duration_flags (content : bytes) : option (list bool) :=
  option_map (fun r => map seg_cue_out_explicitly_duration (segments (snd r)))
             (m3u8_parse (Some content)).

(** A segment that carries nothing of what [finalize_segment] assigns. *)
Definition unfinalized (s : M3U8Segment) : Prop :=
  seg_uri s = None /\ seg_asset_metadata s = [] /\ seg_key s = None
  /\ seg_init_section s = None /\ seg_dateranges s = [].

(** The segment under construction, if any, has not been finalized. *)
Definition pending_ok (c : Config) : Prop :=
  forall s, current_segment (state_of c) = Some s -> unfinalized s.

(** The pending SCTE-35 quartet of a state. *)
Definition pending_scte35 (st : ParserState)
    : option bytes * option bytes * option bytes * option bytes :=
  (current_cue_out_scte35 st, current_cue_out_oatcls_scte35 st,
   current_cue_out_duration st, current_cue_out_elapsedtime st).

(** The quartet a segment carries. *)
Definition segment_scte35 (s : M3U8Segment)
    : option bytes * option bytes * option bytes * option bytes :=
  (seg_scte35 s, seg_oatcls_scte35 s, seg_scte35_duration s,
   seg_scte35_elapsedtime s).

(** Is the line routed to [handle_cue_out]? *)
Definition is_cue_out_tag (l : Line) : bool :=
  starts_with (fst l) (snd l) "#EXT-X-CUE-OUT"
  && negb (starts_with (fst l) (snd l) "#EXT-X-CUE-OUT-CONT").

(** Is the line routed to [handle_cue_out_cont] or to [handle_cue_span],
    the other two handlers that set [cue_out]? *)
Definition is_cue_cont_tag (l : Line) : bool :=
  starts_with (fst l) (snd l) "#EXT-X-CUE-OUT-CONT"
  || starts_with (fst l) (snd l) "#EXT-X-CUE-SPAN".

(** One line that is not a CUE-OUT tag either appends no segment and keeps
    [cue_out_start] (and [cue_out], unless it is a CONT or SPAN tag, which
    set it), or appends one segment that takes both flags and resets them. *)
Definition cue_step (c c' : Config) (l : Line) : Prop :=
  (segments (data_of c') = segments (data_of c)
   /\ cue_out_start (state_of c') = cue_out_start (state_of c)
   /\ (cue_out (state_of c) = true -> cue_out (state_of c') = true)
   /\ (is_cue_cont_tag l = false ->
       cue_out (state_of c') = cue_out (state_of c)))
  \/ (exists seg,
        segments (data_of c') = segments (data_of c) ++ [seg]
        /\ seg_cue_out seg = cue_out (state_of c)
        /\ seg_cue_out_start seg = cue_out_start (state_of c)
        /\ cue_out (state_of c') = false
        /\ cue_out_start (state_of c') = false).

(** The flags of the segments a run of lines appends, seen from the state
    before the run: the first takes the flags of the state, the later ones
    have [cue_out_start] false, and also [cue_out] false when no line of
    the run is a CONT or SPAN tag ([plain]). *)
Definition span_flags (st : ParserState) (plain : Prop)
    (new : list M3U8Segment) : Prop :=
  match new with
  | [] => True
  | first :: rest =>
      seg_cue_out_start first = cue_out_start st
      /\ (cue_out st = true -> seg_cue_out first = true)
      /\ Forall (fun s => seg_cue_out_start s = false) rest
      /\ (plain -> seg_cue_out first = cue_out st
                   /\ Forall (fun s => seg_cue_out s = false) rest)
  end.

(** Is the line routed to [handle_key]?  To [handle_map]? *)
Definition is_key_tag (l : Line) : bool :=
  starts_with (fst l) (snd l) "#EXT-X-KEY:".

Definition is_map_tag (l : Line) : bool :=
  starts_with (fst l) (snd l) "#EXT-X-MAP:".

(** The Key object [handle_key] builds from a KEY tag line, and the Map
    object [handle_map] builds from a MAP tag line. *)
Definition key_of_tag (l : Line) : M3U8Key :=
  make_key (parse_attributes (skipn 11 (fst l)) (snd l - 11)).

Definition map_of_tag (l : Line) : M3U8Map :=
  make_map (parse_attributes (skipn 11 (fst l)) (snd l - 11)).

(** Objects are only ever appended: to the store and to the lists of the
    document that the claims are about. *)
Definition extends {A : Type} (l l' : list A) : Prop := exists x, l' = l ++ x.

(** From [c] to [c'] the store and the lists of segments, keys and maps
    were only appended to. *)
Definition grows (c c' : Config) : Prop :=
  extends (segments (data_of c)) (segments (data_of c'))
  /\ extends (keys (data_of c)) (keys (data_of c'))
  /\ extends (segment_map (data_of c)) (segment_map (data_of c'))
  /\ extends (heap_keys (heap_of c)) (heap_keys (heap_of c'))
  /\ extends (heap_maps (heap_of c)) (heap_maps (heap_of c')).

(** Is the line routed to [handle_daterange]? *)
Definition is_daterange_tag (l : Line) : bool :=
  starts_with (fst l) (snd l) "#EXT-X-DATERANGE:".

(** The DateRange object [handle_daterange] builds from a tag line. *)
Definition daterange_of_tag (l : Line) : M3U8DateRange :=
  make_daterange (parse_attributes (skipn 17 (fst l)) (snd l - 17)).

(** The DateRange objects the tags of a run of lines create, in order. *)
Definition created_dateranges (ls : list Line) : list M3U8DateRange :=
  map daterange_of_tag (filter is_daterange_tag ls).

(** The dateranges a segment holds, in its parts and in its own list, in
    the order of their tags (each list is linked newest first). *)
Definition attached_in_segment (s : M3U8Segment) : list M3U8DateRange :=
  concat (map (fun p => rev (part_dateranges p)) (seg_parts s))
  ++ rev (seg_dateranges s).

(** The dateranges held by the segments of the document. *)
Definition attached (segs : list M3U8Segment) : list M3U8DateRange :=
  concat (map attached_in_segment segs).

(** The dateranges held by the segment under construction. *)
Definition attached_in_current (st : ParserState) : list M3U8DateRange :=
  match current_segment st with
  | Some s => attached_in_segment s
  | None => []
  end.

(** Every DateRange object in existence, once for each place that holds
    it: the segments of the document, the segment under construction,
    the pending list. *)
Definition ledger (c : Config) : list M3U8DateRange :=
  attached (segments (data_of c))
  ++ attached_in_current (state_of c)
  ++ rev (dateranges (state_of c)).

(** What the scenarios of the specification observe of a segment: the
    cue flags, the SCTE-35 quartet and the URI. *)
Definition observed_cues (s : M3U8Segment) :=
  (seg_cue_out s, seg_cue_out_start s, seg_cue_out_explicitly_duration s,
   seg_cue_in s, segment_scte35 s, seg_uri s).

(** The segments of the document parsed from a text. *)
Definition parsed_segments (lines : list string) : list M3U8Segment :=
  match m3u8_parse (Some (text lines)) with
  | Some (_, d) => segments d
  | None => []
  end.

(** ** Lines, attribute lists and tags *)

(** The text of a dispatched line: the first [len] bytes at the cursor. *)
Definition line_text (l : Line) : bytes := firstn (snd l) (fst l).

(** A text without line break. *)
Definition no_eol (l : bytes) : Prop := Forall (fun c => is_eol c = false) l.

(** A line without the spaces and tabs around it. *)
Definition strip (l : bytes) : bytes := rtrim (skip_blank l).

(** Lines written out, each followed by the line ending [eol]. *)
Definition join (eol : bytes) (ls : list bytes) : bytes :=
  concat (map (fun l => l ++ eol) ls).

(** The three line endings: LF, CR LF and CR. *)
Definition line_terminator (t : bytes) : Prop :=
  t = [LF] \/ t = [CR; LF] \/ t = [CR].

(** [p] is the input [content] from some position on. *)
Definition is_suffix (p content : bytes) : Prop :=
  exists before, content = before ++ p.

(** What follows the text of a line in the input. *)
Definition after_line (l : Line) : bytes := skipn (snd l) (fst l).

(** The input ends here, or goes on with a space, a tab or a line break. *)
Definition line_stops (p : bytes) : Prop :=
  forall x r, p = x :: r -> is_blank x || is_eol x = true.

(** The attribute list of a text taken whole. *)
Definition lex (p : bytes) : list M3U8Attribute :=
  parse_attributes p (length p).

(** A character of a plain attribute name: no space, tab, [=], comma, NUL. *)
Definition name_char (c : ascii) : bool :=
  negb (is_blank c || (c =? "=")%char || is_comma c || (c =? NUL)%char).

(** The text ends here or goes on with a comma. *)
Definition at_separator (p : bytes) : Prop :=
  forall x r, p = x :: r -> is_comma x = true.

(** A text without NUL. *)
Definition no_nul (s : bytes) : Prop :=
  Forall (fun c => (c =? NUL)%char = false) s.

(** Does the text hold a NUL byte? *)
Definition has_nul (s : bytes) : bool :=
  existsb (fun c => (c =? NUL)%char) s.

(** Does the line start with the prefix? *)
Definition has_prefix (p : string) (l : Line) : bool :=
  starts_with (fst l) (snd l) p.

(** Is the line a tag line (its first byte is [#])? *)
Definition is_tag_line (l : Line) : bool := (peek (fst l) =? "#")%char.

(** Is the line routed to [handle_discontinuity]? *)
Definition is_discontinuity_tag (l : Line) : bool :=
  has_prefix "#EXT-X-DISCONTINUITY" l
  && negb (has_prefix "#EXT-X-DISCONTINUITY-SEQUENCE" l).

(** The value [handle_program_date_time] reads from a tag line. *)
Definition program_date_time_of_tag (l : Line) : option bytes :=
  let p := skip_blank (span (fst l) 25 (snd l)) in
  str_ndup (Some p) (length p).

(** Is the line routed to [handle_session_key]? *)
Definition is_session_key_tag (l : Line) : bool :=
  has_prefix "#EXT-X-SESSION-KEY:" l.

(** The Key object [handle_session_key] builds from a tag line. *)
Definition session_key_of_tag (l : Line) : M3U8Key :=
  make_key (parse_attributes (skipn 19 (fst l)) (snd l - 19)).

(** The objects at an address of the store. *)
Definition key_at (h : Heap) (a : addr) : option M3U8Key :=
  nth_error (heap_keys h) a.

Definition map_at (h : Heap) (a : addr) : option M3U8Map :=
  nth_error (heap_maps h) a.

(** The eleven lists of the document were only appended to. *)
Definition document_extends (d d' : M3U8Data) : Prop :=
  extends (segments d) (segments d')
  /\ extends (playlists d) (playlists d')
  /\ extends (iframe_playlists d) (iframe_playlists d')
  /\ extends (image_playlists d) (image_playlists d')
  /\ extends (media d) (media d')
  /\ extends (keys d) (keys d')
  /\ extends (session_keys d) (session_keys d')
  /\ extends (segment_map d) (segment_map d')
  /\ extends (rendition_reports d) (rendition_reports d')
  /\ extends (session_data d) (session_data d')
  /\ extends (tiles d) (tiles d').

(** Is the line routed to [handle_part]? *)
Definition is_part_tag (l : Line) : bool := has_prefix "#EXT-X-PART:" l.

(** The URI [handle_part] reads from a PART tag line. *)
Definition part_uri_of_tag (l : Line) : option bytes :=
  get_attr_str_unquoted (parse_attributes (skipn 12 (fst l)) (snd l - 12))
                        (lit "uri").

(** The parts of the segment under construction. *)
Definition current_parts (st : ParserState) : list M3U8Part :=
  match current_segment st with
  | Some s => seg_parts s
  | None => []
  end.

(** The text of a tag line after its prefix of [n] bytes. *)
Definition tag_body (n : nat) (l : Line) : bytes := skipn n (line_text l).

(** Does the text hold a byte that is not white space for [strtoll]? *)
Definition has_value (body : bytes) : bool :=
  existsb (fun c => negb (isspace c)) body.

(** A character of the elapsed time in [elapsed/duration]. *)
Definition elapsed_char (c : ascii) : bool :=
  name_char c && negb (c =? "/")%char.

(** The value [handle_blackout] stages from a BLACKOUT tag line. *)
Definition blackout_of_tag (l : Line) : option bytes :=
  match memchr (fst l) ":" (snd l) with
  | Some colon =>
      str_ndup (Some (skipn (colon + 1) (fst l))) (snd l - colon - 1)
  | None => Some (lit "__BLACKOUT_TRUE__")
  end.

(** * Properties *)

(** ** Bytes and prefixes *)

Lemma bytes_eqb_eq (a b : bytes) : bytes_eqb a b = true <-> a = b.
Proof.
  revert b; induction a as [|x a IH]; intros [|y b]; simpl;
    try (split; [discriminate | discriminate]); try tauto.
  rewrite andb_true_iff, Ascii.eqb_eq, IH.
  split; [intros [-> ->]; reflexivity | intros E; inversion E; auto].
Qed.

Lemma starts_with_true line len p :
  starts_with line len p = true ->
  firstn (length (lit p)) line = lit p /\ length (lit p) <= len.
Proof.
  unfold starts_with.
  destruct (len <? length (lit p)) eqn:E; [discriminate|].
  apply Nat.ltb_ge in E. rewrite bytes_eqb_eq. auto.
Qed.

Lemma starts_with_compatible line len p q :
  starts_with line len p = true ->
  starts_with line len q = true ->
  compatible p q = true.
Proof.
  intros Hp Hq.
  apply starts_with_true in Hp as [Hp _].
  apply starts_with_true in Hq as [Hq _].
  unfold compatible. apply bytes_eqb_eq.
  set (n := Nat.min _ _).
  rewrite <- Hp at 1. rewrite <- Hq at 1.
  rewrite !firstn_firstn.
  f_equal. subst n. lia.
Qed.

Lemma starts_with_other line len p q :
  compatible p q = false ->
  starts_with line len p = true ->
  starts_with line len q = false.
Proof.
  intros Hc Hp.
  destruct (starts_with line len q) eqn:Hq; [|reflexivity].
  rewrite (starts_with_compatible _ _ _ _ Hp Hq) in Hc. discriminate.
Qed.

Lemma starts_with_peek line len p c rest :
  lit p = c :: rest ->
  starts_with line len p = true ->
  peek line = c.
Proof.
  intros E H. apply starts_with_true in H as [H _].
  rewrite E in H. destruct line; simpl in H; [discriminate|].
  inversion H; reflexivity.
Qed.

(** Rewrites away every prefix test that the matched prefix [H] excludes. *)
Ltac other_tags H :=
  repeat match goal with
    | |- context [starts_with ?l ?n ?q] =>
        let E := fresh "E" in
        assert (E : starts_with l n q = false)
          by (apply (starts_with_other _ _ _ q) with (2 := H); reflexivity);
        rewrite !E; clear E
    end.

(** ** The main loop terminates and is a run over the scanned lines *)

Lemma skip_blank_length p : length (skip_blank p) <= length p.
Proof.
  induction p as [|c p IH]; simpl; [lia|].
  destruct (is_blank c); simpl; lia.
Qed.

Lemma scan_until_app stop p :
  fst (scan_until stop p) ++ snd (scan_until stop p) = p.
Proof.
  induction p as [|c p IH]; simpl; [reflexivity|].
  destruct (stop c); simpl; [reflexivity|].
  destruct (scan_until stop p); simpl in *. now rewrite IH.
Qed.

Lemma scan_until_length stop p :
  length (fst (scan_until stop p)) + length (snd (scan_until stop p))
  = length p.
Proof.
  rewrite <- (scan_until_app stop p) at 3. now rewrite length_app.
Qed.

Lemma skip_one_length c p : length (skip_one c p) <= length p.
Proof.
  destruct p as [|x p]; simpl; [lia|]. destruct (x =? c)%char; simpl; lia.
Qed.

Lemma tl_length {A} (l : list A) : length (tl l) <= length l.
Proof. destruct l; simpl; lia. Qed.

(** One iteration of the loop, as both [parse_loop] and [scan_lines] see
    it: either the input is exhausted, or the cursor moves on strictly. *)
Lemma next_cursor_shorter cursor x r :
  skip_blank cursor = x :: r ->
  let (line, line_end) := find_eol (x :: r) in
  length (tl line_end) < length cursor /\
  (line <> [] ->
   length (skip_one LF (skip_one CR line_end)) < length cursor).
Proof.
  intros E.
  pose proof (skip_blank_length cursor) as Hs. rewrite E in Hs.
  pose proof (scan_until_length is_eol (x :: r)) as Hl.
  unfold find_eol. destruct (scan_until is_eol (x :: r)) as [line line_end].
  simpl fst in Hl; simpl snd in Hl. split.
  - pose proof (tl_length line_end). simpl in Hs.
    destruct line_end; simpl in *; lia.
  - intros Hne.
    pose proof (skip_one_length LF (skip_one CR line_end)).
    pose proof (skip_one_length CR line_end).
    destruct line; [congruence|]. simpl in *. lia.
Qed.

Lemma parse_loop_run fuel : forall cursor c,
  length cursor < fuel ->
  parse_loop fuel cursor c = Some (run_from c (scan_lines fuel cursor)).
Proof.
  induction fuel as [|fuel IH]; intros cursor c Hf; [lia|].
  simpl. destruct (skip_blank cursor) as [|x r] eqn:E; [reflexivity|].
  pose proof (next_cursor_shorter cursor x r E) as Hn.
  destruct (find_eol (x :: r)) as [line line_end].
  destruct Hn as [Hn1 Hn2].
  destruct (length (trim_end _ line) =? 0) eqn:El.
  - apply IH. lia.
  - simpl. apply IH.
    assert (line <> []) by (intros ->; discriminate).
    specialize (Hn2 H). lia.
Qed.

Lemma m3u8_parse_run_lines x content :
  m3u8_parse_run (Some (x :: content))
  = Some (finish (run (lines_of (x :: content)))).
Proof.
  unfold m3u8_parse_run, lines_of, run.
  change (length (x :: content) =? 0) with false. cbv iota.
  rewrite parse_loop_run by lia. reflexivity.
Qed.

Lemma free_pending_dateranges_nil l : free_pending_dateranges l = [].
Proof. induction l; simpl; auto. Qed.

(** ** C9: the parser is total *)

(** C9. Allocation failure aside, [m3u8_parse] returns NULL if and only
    if the content pointer is NULL or the length is 0; on every other
    input, however malformed, the loop ends and a document is returned. *)
Theorem m3u8_parse_null_iff (content : option bytes) :
  m3u8_parse content = None <-> content = None \/ content = Some [].
Proof.
  unfold m3u8_parse. destruct content as [[|x buf]|].
  - simpl. tauto.
  - rewrite m3u8_parse_run_lines. simpl.
    split; [discriminate | intros [H|H]; discriminate].
  - simpl. tauto.
Qed.

(** ** C8: unknown tag lines *)

(** C8. A line that begins with [#] and matches none of the prefixes the
    dispatcher tests leaves the store, the document and the parser state
    unchanged. *)
Theorem unknown_tag_ignored (c : Config) (cursor : bytes) (line_len : nat) :
  peek cursor = "#"%char ->
  Forall (fun t => starts_with cursor line_len t = false) recognized_tags ->
  process_line c cursor line_len = c.
Proof.
  intros Hp Hall. unfold process_line. rewrite Hp. simpl (_ =? _)%char. cbv iota.
  unfold recognized_tags in Hall.
  repeat match goal with
    | H : Forall _ (_ :: _) |- _ =>
        let H1 := fresh "T" in
        apply Forall_cons_iff in H; destruct H as [H1 H]
    end.
  destruct c as [[h d] st].
  cbv beta zeta delta [dispatch_tag].
  repeat match goal with
    | H : starts_with _ _ _ = false |- _ => rewrite H; clear H
    end.
  reflexivity.
Qed.

Lemma unknown_tag_ignored_witness :
  process_line initial (text ["#EXT-X-FOO:BAR=1"; "x.ts"]%string) 16 = initial.
Proof.
  apply unknown_tag_ignored; [reflexivity|].
  repeat constructor.
Defined.

(** ** C6: the characters of a normalized attribute key *)

Lemma trim_end_incl drop l : incl (trim_end drop l) l.
Proof.
  induction l as [|c l IH]; simpl; [apply incl_refl|].
  fold (trim_end drop l).
  destruct (trim_end drop l) as [|y t] eqn:E.
  - destruct (drop c); [apply incl_nil_l|].
    intros z [<-|[]]; now left.
  - intros z [<-|Hz]; [now left | right; now apply IH].
Qed.

Lemma c_str_incl p : incl (c_str p) p.
Proof.
  induction p as [|c p IH]; simpl; [apply incl_refl|].
  destruct (c =? NUL)%char; [apply incl_nil_l|].
  intros z [<-|Hz]; [now left | right; now apply IH].
Qed.

Lemma skip_blank_incl p : incl (skip_blank p) p.
Proof.
  induction p as [|c p IH]; simpl; [apply incl_refl|].
  destruct (is_blank c); [now apply incl_tl | apply incl_refl].
Qed.

Lemma scan_until_incl stop p :
  incl (fst (scan_until stop p)) p /\ incl (snd (scan_until stop p)) p.
Proof.
  rewrite <- (scan_until_app stop p) at 2 4.
  split; [apply incl_appl | apply incl_appr]; apply incl_refl.
Qed.

Lemma tl_incl {A} (l : list A) : incl (tl l) l.
Proof. destruct l; [apply incl_refl | apply incl_tl, incl_refl]. Qed.

Lemma firstn_incl {A} n (l : list A) : incl (firstn n l) l.
Proof.
  rewrite <- (firstn_skipn n l) at 2. apply incl_appl, incl_refl.
Qed.

Lemma key_from_incl p q a : incl p q -> key_from p a -> key_from q a.
Proof.
  intros Hi Hk k E. specialize (Hk k E).
  rewrite Forall_forall in *. intros c Hc.
  destruct (Hk c Hc) as (c0 & Hin & ->). exists c0. auto.
Qed.

Lemma bare_attribute_key_from tok p a :
  In a (bare_attribute tok) -> key_from p a.
Proof.
  unfold bare_attribute. destruct (is_nil (rtrim tok)); [intros []|].
  intros [<-|[]] k E. simpl in E. inversion E. constructor.
Qed.

Lemma keyed_attribute_key_from tok v : key_from tok (keyed_attribute tok v).
Proof.
  intros k E. unfold keyed_attribute, str_ndup in E. simpl in E.
  inversion E; subst k; clear E.
  apply Forall_forall. intros c Hc.
  apply (trim_end_incl is_blank) in Hc.
  apply in_map_iff in Hc as (c0 & <- & Hc0).
  exists c0. split; [|reflexivity].
  apply (trim_end_incl is_blank tok).
  apply (firstn_incl (length (rtrim tok))).
  now apply c_str_incl.
Qed.

Lemma parse_attributes_loop_key_from fuel : forall p a,
  In a (parse_attributes_loop fuel p) -> key_from p a.
Proof.
  induction fuel as [|fuel IH]; intros p a; simpl; [intros []|].
  unfold parse_attribute.
  pose proof (skip_blank_incl p) as Hp0.
  destruct (skip_blank p) as [|x p0'] eqn:E0; [intros []|].
  pose proof (scan_until_incl (fun c => (c =? "=")%char || is_comma c)
                (x :: p0')) as [Htok Heq].
  destruct (scan_until (fun c => (c =? "=")%char || is_comma c) (x :: p0'))
    as [tok eq].
  simpl fst in Htok; simpl snd in Heq.
  destruct eq as [|c after].
  { intros H. exact (bare_attribute_key_from _ p _ H). }
  assert (Hafter : incl after p).
  { eapply incl_tran; [|exact Hp0]. eapply incl_tran; [|exact Heq].
    apply incl_tl, incl_refl. }
  assert (Hrec : forall q, incl q after ->
            In a (parse_attributes_loop fuel q) -> key_from p a).
  { intros q Hq Hin. eapply key_from_incl; [|apply IH; exact Hin].
    eapply incl_tran; eauto. }
  assert (Hkey : forall v, key_from p (keyed_attribute tok v)).
  { intros v. eapply key_from_incl; [|apply keyed_attribute_key_from].
    eapply incl_tran; eauto. }
  destruct (is_comma c).
  { intros H. apply in_app_or in H as [H|H].
    - exact (bare_attribute_key_from _ p _ H).
    - apply (Hrec after); [apply incl_refl | exact H]. }
  pose proof (skip_blank_incl after) as Hp1.
  cbv zeta.
  destruct (is_quote (peek (skip_blank after)) && negb (is_nil (skip_blank after))).
  - pose proof (scan_until_incl
                  (fun c => (c =? peek (skip_blank after))%char)
                  (tl (skip_blank after))) as [_ Hp2].
    destruct (scan_until _ (tl (skip_blank after))) as [content p2].
    simpl snd in Hp2.
    intros [<-|H]; [apply Hkey|].
    apply (Hrec (tl (snd (scan_until is_comma (tl p2))))); [|exact H].
    eapply incl_tran; [apply tl_incl|].
    eapply incl_tran; [apply scan_until_incl|].
    eapply incl_tran; [apply tl_incl|].
    eapply incl_tran; [exact Hp2|].
    eapply incl_tran; [apply tl_incl|]. exact Hp1.
  - pose proof (scan_until_incl is_comma (skip_blank after)) as [_ Hp2].
    destruct (scan_until is_comma (skip_blank after)) as [raw p2].
    simpl snd in Hp2.
    intros [<-|H]; [apply Hkey|].
    apply (Hrec (tl p2)); [|exact H].
    eapply incl_tran; [apply tl_incl|].
    eapply incl_tran; [exact Hp2|]. exact Hp1.
Qed.

Lemma normalize_char_not_upper c0 :
  isupper (normalize_char c0) = false /\ normalize_char c0 <> "-"%char.
Proof.
  destruct c0 as [[] [] [] [] [] [] [] []];
    (split; [reflexivity | discriminate]).
Qed.

Lemma normalize_char_charset c0 :
  name_charset c0 = true -> key_charset (normalize_char c0) = true.
Proof.
  destruct c0 as [[] [] [] [] [] [] [] []];
    solve [reflexivity | intros H; discriminate H].
Qed.

(** C6, as amended.  Every character of a key the attribute lexer
    produces is the normalization of a character of the tag body
    (a hyphen becomes an underscore, an uppercase letter its lowercase
    letter, any other character itself): no key holds an uppercase letter
    or a hyphen, and characters of [A-Za-z0-9_-] end up in [a-z0-9_]. *)
Theorem normalized_key_characters (line : bytes) (len : nat)
    (a : M3U8Attribute) (k : bytes) :
  In a (parse_attributes line len) ->
  attr_key a = Some k ->
  Forall (fun c =>
            isupper c = false /\ c <> "-"%char /\
            exists c0, In c0 (firstn len line) /\ c = normalize_char c0 /\
                       (name_charset c0 = true -> key_charset c = true)) k.
Proof.
  intros Hin Hk.
  pose proof (parse_attributes_loop_key_from _ _ _ Hin k Hk) as H.
  rewrite Forall_forall in *. intros c Hc.
  destruct (H c Hc) as (c0 & Hc0 & ->).
  destruct (normalize_char_not_upper c0) as [Hu Hh].
  repeat split; auto.
  exists c0. repeat split; auto. apply normalize_char_charset.
Qed.

Lemma normalized_key_characters_witness :
  Forall (fun c =>
            isupper c = false /\ c <> "-"%char /\
            exists c0, In c0 (firstn 12 (lit "X-My.Key = 1")) /\
                       c = normalize_char c0 /\
                       (name_charset c0 = true -> key_charset c = true))
         (lit "x_my.key").
Proof.
  apply (normalized_key_characters (lit "X-My.Key = 1") 12
           {| attr_key := Some (lit "x_my.key"); attr_value := Some (lit "1") |}).
  - vm_compute. left. reflexivity.
  - reflexivity.
Defined.

(** C6 as stated fails: in the key of [X.Y=1] the dot survives. *)
Lemma normalized_key_outside_charset :
  ~ (forall line len, keys_in_charset (parse_attributes line len) = true).
Proof.
  intros H. specialize (H (lit "X.Y=1") 5). vm_compute in H. discriminate.
Qed.

(** ** The fuel of the attribute lexer is enough *)

Lemma parse_attribute_ext f g p :
  (forall q, length q < length p -> f q = g q) ->
  parse_attribute f p = parse_attribute g p.
Proof.
  intros Hfg. unfold parse_attribute.
  pose proof (skip_blank_length p) as Hp0.
  destruct (skip_blank p) as [|x p0'] eqn:E0; [reflexivity|].
  pose proof (scan_until_length (fun c => (c =? "=")%char || is_comma c)
                (x :: p0')) as Hl.
  destruct (scan_until (fun c => (c =? "=")%char || is_comma c) (x :: p0'))
    as [tok eq].
  simpl fst in Hl; simpl snd in Hl.
  destruct eq as [|c after]; [reflexivity|].
  assert (Hafter : length after < length p) by (simpl in *; lia).
  destruct (is_comma c); [now rewrite Hfg|].
  pose proof (skip_blank_length after) as Hp1.
  cbv zeta.
  destruct (is_quote (peek (skip_blank after)) && negb (is_nil (skip_blank after))).
  - pose proof (scan_until_length
                  (fun c => (c =? peek (skip_blank after))%char)
                  (tl (skip_blank after))) as Hl2.
    destruct (scan_until _ (tl (skip_blank after))) as [content p2].
    simpl fst in Hl2; simpl snd in Hl2.
    rewrite Hfg; [reflexivity|].
    pose proof (tl_length (snd (scan_until is_comma (tl p2)))).
    pose proof (scan_until_length is_comma (tl p2)).
    pose proof (tl_length p2). pose proof (tl_length (skip_blank after)).
    lia.
  - pose proof (scan_until_length is_comma (skip_blank after)) as Hl2.
    destruct (scan_until is_comma (skip_blank after)) as [raw p2].
    simpl fst in Hl2; simpl snd in Hl2.
    rewrite Hfg; [reflexivity|].
    pose proof (tl_length p2). lia.
Qed.

(** More fuel than the length of the text changes nothing: the lexer
    never stops for lack of fuel. *)
Lemma parse_attributes_loop_fuel n : forall m p,
  length p < n -> length p < m ->
  parse_attributes_loop n p = parse_attributes_loop m p.
Proof.
  induction n as [|n IH]; intros m p Hn Hm; [lia|].
  destruct m as [|m]; [lia|]. simpl.
  apply parse_attribute_ext. intros q Hq. apply IH; lia.
Qed.

(** ** C7 and C10: finalizing a variant playlist *)

Lemma starts_with_hash line len p :
  starts_with line len p = true ->
  peek (lit p) = "#"%char ->
  (peek line =? "#")%char = true.
Proof.
  intros H E. apply starts_with_true in H as [H L].
  destruct (lit p) as [|c r]; [discriminate|]. simpl in E. subst c.
  destruct line; [discriminate|]. inversion H. reflexivity.
Qed.

Lemma get_attr_some_not_nil attrs key v :
  get_attr attrs key = Some v -> is_nil attrs = false.
Proof. destruct attrs; [discriminate | reflexivity]. Qed.

(** A STREAM-INF line is routed to [handle_stream_inf]. *)
Lemma process_stream_inf h d st line len :
  starts_with line len "#EXT-X-STREAM-INF:" = true ->
  process_line (h, d, st) line len
  = with_heap h (handle_stream_inf d st line len).
Proof.
  intros H. unfold process_line.
  rewrite (starts_with_hash _ _ _ H eq_refl).
  cbv beta zeta delta [dispatch_tag].
  other_tags H. rewrite H. reflexivity.
Qed.

(** C7, as amended.  When the staged STREAM-INF attributes give
    [bandwidth] the value [5000000.5] -- the text as the lexer hands it
    on, which is what [BANDWIDTH=5000000.5] written without quotes lexes
    to -- and no segment is expected at the URI line, that line appends
    a Variant whose bandwidth is the integer 5000000: the value is read
    by [strtod] and truncated to a [long long]. *)
Theorem fractional_bandwidth_truncated
    (c : Config) (tag : bytes) (tag_len : nat) (uri : bytes) (uri_len : nat) :
  expect_segment (state_of c) = false ->
  starts_with tag tag_len "#EXT-X-STREAM-INF:" = true ->
  get_attr (parse_attributes (skipn 18 tag) (tag_len - 18)) (lit "bandwidth")
    = Some (lit "5000000.5") ->
  (peek uri =? "#")%char = false ->
  exists pl,
    playlists (data_of (process_line (process_line c tag tag_len) uri uri_len))
      = playlists (data_of c) ++ [pl]
    /\ pl_bandwidth pl = to_llong (strtod (lit "5000000.5"))
    /\ pl_bandwidth pl = 5000000%Z
    /\ pl_uri pl = str_ndup (Some uri) uri_len.
Proof.
  destruct c as [[h d] st]. unfold state_of, data_of. simpl fst; simpl snd.
  intros Hseg Htag Hbw Huri.
  rewrite (process_stream_inf _ _ _ _ _ Htag).
  unfold process_line at 1. rewrite Huri.
  unfold handle_stream_inf, with_heap, dispatch_uri.
  set (attrs := parse_attributes _ _) in *. clearbody attrs.
  destruct st; destruct d; simpl in Hseg; subst; simpl.
  rewrite (get_attr_some_not_nil _ _ _ Hbw). simpl.
  eexists; split; [reflexivity|]. simpl. rewrite Hbw.
  split; [reflexivity|]. split; [vm_compute; reflexivity | reflexivity].
Qed.

Lemma fractional_bandwidth_truncated_witness :
  exists pl,
    playlists (data_of (run_from initial
      (lines_of
         (text ["#EXT-X-STREAM-INF:BANDWIDTH=5000000.5,RESOLUTION=1920x1080";
                "https://cdn/hi.m3u8"]%string))))
      = [pl]
    /\ pl_bandwidth pl = to_llong (strtod (lit "5000000.5"))
    /\ pl_bandwidth pl = 5000000%Z
    /\ pl_uri pl = Some (lit "https://cdn/hi.m3u8").
Proof.
  apply (fractional_bandwidth_truncated initial
           (text ["#EXT-X-STREAM-INF:BANDWIDTH=5000000.5,RESOLUTION=1920x1080";
                  "https://cdn/hi.m3u8"]%string) 58
           (text ["https://cdn/hi.m3u8"]%string) 19);
    vm_compute; reflexivity.
Defined.

(** C7 as stated fails: written inside quote characters, as in the
    claim, the value of [bandwidth] reaches [strtod] with its quotes,
    nothing converts, and the bandwidth of the Variant is 0, not
    5000000. *)
Lemma quoted_bandwidth_parses_to_zero :
  let content :=
    lit "#EXT-X-STREAM-INF:BANDWIDTH=" ++ "034"%char :: lit "5000000.5"
      ++ ["034"%char; LF] ++ lit "https://cdn/hi.m3u8" ++ [LF] in
  let info := parse_attributes (skipn 18 content) (39 - 18) in
  get_attr info (lit "bandwidth")
    = Some ("034"%char :: lit "5000000.5" ++ ["034"%char])
  /\ option_map (fun r => map (fun pl => (pl_bandwidth pl, pl_uri pl))
                              (playlists (snd r)))
                (m3u8_parse (Some content))
     = Some [(0%Z, Some (lit "https://cdn/hi.m3u8"))].
Proof. vm_compute. split; reflexivity. Qed.

(** The value of [bandwidth] is read as it was written: inside quote
    characters nothing converts and the bandwidth is 0. *)
Example quoted_bandwidth_not_converted :
  to_llong (strtod ("034"%char :: lit "5000000.5" ++ ["034"%char])) = 0%Z
  /\ to_llong (strtod (lit "5000000.5")) = 5000000%Z.
Proof. split; vm_compute; reflexivity. Qed.

Lemma skip_blank_all_blank p :
  Forall (fun c => is_blank c = true) p -> skip_blank p = [].
Proof.
  induction 1 as [|c p Hc _ IH]; simpl; [reflexivity|]. now rewrite Hc.
Qed.

(** A body that is empty or holds only spaces and tabs lexes to no
    attribute at all. *)
Lemma parse_attributes_blank line len :
  Forall (fun c => is_blank c = true) (firstn len line) ->
  parse_attributes line len = [].
Proof.
  intros H. unfold parse_attributes. simpl. unfold parse_attribute.
  now rewrite (skip_blank_all_blank _ H).
Qed.

(** C10, as amended.  When the body of a STREAM-INF tag lexes to an
    empty attribute list, the URI line after it appends no Variant: the
    playlists are as before the tag.  When no segment is expected at that
    URI line, so that the variant path takes it, it changes nothing in the
    document or the store -- the URI is dropped -- and it clears
    [expect_playlist]. *)
Theorem empty_stream_inf_appends_nothing
    (c : Config) (tag : bytes) (tag_len : nat) (uri : bytes) (uri_len : nat) :
  starts_with tag tag_len "#EXT-X-STREAM-INF:" = true ->
  parse_attributes (skipn 18 tag) (tag_len - 18) = [] ->
  (peek uri =? "#")%char = false ->
  let c1 := process_line c tag tag_len in
  let c2 := process_line c1 uri uri_len in
  playlists (data_of c2) = playlists (data_of c)
  /\ (expect_segment (state_of c) = false ->
      expect_playlist (state_of c1) = true
      /\ heap_of c2 = heap_of c1
      /\ data_of c2 = data_of c1
      /\ state_of c2 = set_expect_playlist false (state_of c1)
      /\ expect_playlist (state_of c2) = false
      /\ stream_info (state_of c2) = []).
Proof.
  destruct c as [[h d] st]. unfold state_of, data_of, heap_of.
  intros Htag Hnil Huri. cbv zeta.
  rewrite (process_stream_inf _ _ _ _ _ Htag).
  unfold process_line. rewrite Huri.
  unfold handle_stream_inf, with_heap, dispatch_uri. rewrite Hnil.
  destruct st; destruct d; simpl.
  destruct expect_segment0; simpl; split; try reflexivity; try discriminate.
  intros _. repeat split.
Qed.

Lemma empty_stream_inf_appends_nothing_witness :
  let tag := text ["#EXT-X-STREAM-INF:"; "low.m3u8"]%string in
  let c1 := process_line initial tag 18 in
  let c2 := process_line c1 (text ["low.m3u8"]%string) 8 in
  playlists (data_of c2) = []
  /\ data_of c2 = data_of c1
  /\ expect_playlist (state_of c1) = true
  /\ expect_playlist (state_of c2) = false.
Proof.
  intros tag c1 c2.
  destruct (empty_stream_inf_appends_nothing initial tag 18
              (text ["low.m3u8"]%string) 8)
    as (Hpl & Hrest).
  - reflexivity.
  - apply parse_attributes_blank. vm_compute. constructor.
  - reflexivity.
  - destruct (Hrest eq_refl) as (H1 & _ & H2 & _ & H3 & _).
    repeat split; assumption.
Defined.

(** C10 as stated fails when a segment is expected at the URI line: the
    segment path takes the line, so the URI is not dropped -- it becomes
    the URI of a segment -- and [expect_playlist] stays set. *)
Lemma empty_stream_inf_uri_taken_by_segment :
  let c := run (lines_of (text ["#EXTINF:4,"; "#EXT-X-STREAM-INF:";
                                "low.m3u8"]%string)) in
  playlists (data_of c) = []
  /\ map seg_uri (segments (data_of c)) = [Some (lit "low.m3u8")]
  /\ expect_playlist (state_of c) = true.
Proof. vm_compute. repeat split. Qed.

(** ** C5: the DURATION keyword of a CUE-OUT tag *)

(** C5 fails on the code for mixed letter case: the scan of
    [handle_cue_out] accepts the spellings DURATION and duration only, so
    a CUE-OUT tag written with [Duration] leaves the flag of the next
    segment false, whereas the two accepted spellings set it. *)
Lemma cue_out_mixed_case_duration_missed :
  explicit_duration_flags
    (text ["#EXT-X-CUE-OUT:Duration=30"; "#EXTINF:10,"; "p1.ts"]%string)
    = Some [false]
  /\ explicit_duration_flags
       (text ["#EXT-X-CUE-OUT:DURATION=30"; "#EXTINF:10,"; "p1.ts"]%string)
     = Some [true]
  /\ explicit_duration_flags
       (text ["#EXT-X-CUE-OUT:duration=30"; "#EXTINF:10,"; "p1.ts"]%string)
     = Some [true].
Proof. repeat split; vm_compute; reflexivity. Qed.

(** ** Case analysis of the dispatcher

    To prove a property of the configuration after a line, it is enough
    to prove it for the configuration left alone and for the result of
    each handler, under the prefix test that routes the line to it. *)

Lemma dispatch_tag_cases (P : Config -> Prop)
    (h : Heap) (data : M3U8Data) (state : ParserState)
    (cursor : bytes) (line_len : nat) :
  P (h, data, state) ->
  (starts_with cursor line_len "#EXTINF:" = true ->
   P (h, data, handle_extinf state cursor line_len)) ->
  (starts_with cursor line_len "#EXT-X-TARGETDURATION:" = true ->
   P (h, handle_targetduration data cursor line_len, state)) ->
  (starts_with cursor line_len "#EXT-X-MEDIA-SEQUENCE:" = true ->
   P (h, handle_media_sequence data cursor line_len, state)) ->
  (starts_with cursor line_len "#EXT-X-DISCONTINUITY-SEQUENCE:" = true ->
   P (h, handle_discontinuity_sequence data cursor line_len, state)) ->
  (starts_with cursor line_len "#EXT-X-VERSION:" = true ->
   P (h, handle_version data cursor line_len, state)) ->
  (starts_with cursor line_len "#EXT-X-ALLOW-CACHE:" = true ->
   P (h, handle_allow_cache data cursor line_len, state)) ->
  (starts_with cursor line_len "#EXT-X-PLAYLIST-TYPE:" = true ->
   P (h, handle_playlist_type data cursor line_len, state)) ->
  (starts_with cursor line_len "#EXT-X-PROGRAM-DATE-TIME:" = true ->
   P (with_heap h (handle_program_date_time data state cursor line_len))) ->
  (starts_with cursor line_len "#EXT-X-ENDLIST" = true ->
   P (h, handle_endlist data, state)) ->
  (starts_with cursor line_len "#EXT-X-I-FRAMES-ONLY" = true ->
   P (h, handle_i_frames_only data, state)) ->
  (starts_with cursor line_len "#EXT-X-INDEPENDENT-SEGMENTS" = true ->
   P (h, handle_independent_segments data, state)) ->
  (starts_with cursor line_len "#EXT-X-IMAGES-ONLY" = true ->
   P (h, handle_images_only data, state)) ->
  (starts_with cursor line_len "#EXT-X-DISCONTINUITY" = true ->
   P (h, data, handle_discontinuity state)) ->
  (starts_with cursor line_len "#EXT-X-GAP" = true ->
   P (h, data, handle_gap state)) ->
  (starts_with cursor line_len "#EXT-X-BLACKOUT" = true ->
   P (h, data, handle_blackout state cursor line_len)) ->
  (starts_with cursor line_len "#EXT-X-CUE-IN" = true ->
   P (h, data, handle_cue_in state)) ->
  (starts_with cursor line_len "#EXT-X-CUE-SPAN" = true ->
   P (h, data, handle_cue_span state)) ->
  (starts_with cursor line_len "#EXT-X-CUE-OUT-CONT" = true ->
   P (h, data, handle_cue_out_cont state cursor line_len)) ->
  (starts_with cursor line_len "#EXT-X-CUE-OUT" = true ->
   starts_with cursor line_len "#EXT-X-CUE-OUT-CONT" = false ->
   P (h, data, handle_cue_out state cursor line_len)) ->
  (starts_with cursor line_len "#EXT-OATCLS-SCTE35:" = true ->
   P (h, data, handle_oatcls_scte35 state cursor line_len)) ->
  (starts_with cursor line_len "#EXT-X-ASSET:" = true ->
   P (h, data, handle_asset state cursor line_len)) ->
  (starts_with cursor line_len "#EXT-X-KEY:" = true ->
   P (handle_key h data state cursor line_len)) ->
  (starts_with cursor line_len "#EXT-X-SESSION-KEY:" = true ->
   P (handle_session_key h data cursor line_len, state)) ->
  (starts_with cursor line_len "#EXT-X-MAP:" = true ->
   P (handle_map h data state cursor line_len)) ->
  (starts_with cursor line_len "#EXT-X-BYTERANGE:" = true ->
   P (h, data, handle_byterange state cursor line_len)) ->
  (starts_with cursor line_len "#EXT-X-BITRATE:" = true ->
   P (h, data, handle_bitrate state cursor line_len)) ->
  (starts_with cursor line_len "#EXT-X-DATERANGE:" = true ->
   P (h, data, handle_daterange state cursor line_len)) ->
  (starts_with cursor line_len "#EXT-X-STREAM-INF:" = true ->
   P (with_heap h (handle_stream_inf data state cursor line_len))) ->
  (starts_with cursor line_len "#EXT-X-I-FRAME-STREAM-INF:" = true ->
   P (h, handle_i_frame_stream_inf data cursor line_len, state)) ->
  (starts_with cursor line_len "#EXT-X-IMAGE-STREAM-INF:" = true ->
   P (h, handle_image_stream_inf data cursor line_len, state)) ->
  (starts_with cursor line_len "#EXT-X-MEDIA:" = true ->
   P (h, handle_media data cursor line_len, state)) ->
  (starts_with cursor line_len "#EXT-X-START:" = true ->
   P (h, handle_start data cursor line_len, state)) ->
  (starts_with cursor line_len "#EXT-X-SERVER-CONTROL:" = true ->
   P (h, handle_server_control data cursor line_len, state)) ->
  (starts_with cursor line_len "#EXT-X-PART-INF:" = true ->
   P (h, handle_part_inf data cursor line_len, state)) ->
  (starts_with cursor line_len "#EXT-X-SKIP:" = true ->
   P (h, handle_skip data cursor line_len, state)) ->
  (starts_with cursor line_len "#EXT-X-RENDITION-REPORT:" = true ->
   P (h, handle_rendition_report data cursor line_len, state)) ->
  (starts_with cursor line_len "#EXT-X-SESSION-DATA:" = true ->
   P (h, handle_session_data data cursor line_len, state)) ->
  (starts_with cursor line_len "#EXT-X-PRELOAD-HINT:" = true ->
   P (h, handle_preload_hint data cursor line_len, state)) ->
  (starts_with cursor line_len "#EXT-X-CONTENT-STEERING:" = true ->
   P (h, handle_content_steering data cursor line_len, state)) ->
  (starts_with cursor line_len "#EXT-X-TILES:" = true ->
   P (h, handle_tiles data cursor line_len, state)) ->
  (starts_with cursor line_len "#EXT-X-PART:" = true ->
   P (h, data, handle_part state cursor line_len)) ->
  P (dispatch_tag (h, data, state) cursor line_len).
Proof.
  intros Hsame. intros.
  cbv beta zeta delta [dispatch_tag].
  repeat match goal with
    | |- context [if ?b then _ else _] =>
        let E := fresh "E" in
        destruct b eqn:E; cbv iota;
        [ try (apply andb_true_iff in E; destruct E as [E _]); auto; fail | ]
    end.
  exact Hsame.
Qed.

Lemma process_line_cases (P : Config -> Prop)
    (h : Heap) (data : M3U8Data) (state : ParserState)
    (cursor : bytes) (line_len : nat) :
  P (h, data, state) ->
  P (dispatch_tag (h, data, state) cursor line_len) ->
  (expect_segment state = true ->
   P (with_heap h (finalize_segment data state cursor line_len))) ->
  (expect_segment state = false -> expect_playlist state = true ->
   P (with_heap h (finalize_playlist data state cursor line_len))) ->
  P (process_line (h, data, state) cursor line_len).
Proof.
  intros Hsame Htag Hseg Hpl. unfold process_line.
  destruct (peek cursor =? "#")%char; [exact Htag|].
  unfold dispatch_uri.
  destruct (expect_segment state) eqn:E1; [auto|].
  destruct (expect_playlist state) eqn:E2; auto.
Qed.

(** Reduction of field access and field assignment, and nothing else. *)
Ltac rsimpl :=
  cbn [
    set_seg_duration set_seg_title set_seg_byterange set_seg_bitrate
    set_seg_parts set_preload_hint_byterange_start
    set_preload_hint_byterange_length set_has_preload_hint_byterange_start
    set_has_preload_hint_byterange_length set_targetduration
    set_media_sequence set_discontinuity_sequence set_version set_allow_cache
    set_playlist_type set_data_program_date_time set_is_variant
    set_is_endlist set_is_i_frames_only set_is_independent_segments
    set_is_images_only set_has_media_sequence set_start set_server_control
    set_part_inf set_skip set_preload_hint set_content_steering set_segments
    set_playlists set_iframe_playlists set_image_playlists set_media set_keys
    set_session_keys set_segment_map set_rendition_reports set_session_data
    set_tiles set_expect_segment set_expect_playlist set_current_segment
    set_current_key set_current_map set_cue_out set_cue_out_start
    set_cue_out_explicitly_duration set_cue_in set_discontinuity set_gap
    set_blackout set_current_cue_out_scte35 set_current_cue_out_oatcls_scte35
    set_current_cue_out_duration set_current_cue_out_elapsedtime
    set_asset_metadata set_program_date_time set_dateranges set_stream_info
    expect_segment expect_playlist current_segment current_key current_map
    cue_out cue_out_start cue_out_explicitly_duration cue_in discontinuity
    gap blackout current_cue_out_scte35 current_cue_out_oatcls_scte35
    current_cue_out_duration current_cue_out_elapsedtime asset_metadata
    program_date_time dateranges stream_info targetduration media_sequence
    discontinuity_sequence version allow_cache playlist_type
    data_program_date_time is_variant is_endlist is_i_frames_only
    is_independent_segments is_images_only has_media_sequence start
    server_control part_inf skip preload_hint content_steering segments
    playlists iframe_playlists image_playlists media keys session_keys
    segment_map rendition_reports session_data tiles seg_duration seg_title
    seg_uri seg_byterange seg_bitrate seg_discontinuity seg_program_date_time
    seg_cue_in seg_cue_out seg_cue_out_start seg_cue_out_explicitly_duration
    seg_scte35 seg_oatcls_scte35 seg_scte35_duration seg_scte35_elapsedtime
    seg_asset_metadata seg_key seg_init_section seg_dateranges seg_gap_tag
    seg_blackout seg_parts heap_keys heap_maps preload_hint_type
    preload_hint_uri preload_hint_byterange_start
    preload_hint_byterange_length has_preload_hint
    has_preload_hint_byterange_start has_preload_hint_byterange_length
    part_uri part_duration part_byterange part_independent part_gap
    part_dateranges part_gap_tag fst snd with_heap alloc_key alloc_map
    ensure_segment or_keep str_dup heap_of data_of state_of
  ] in *.

Ltac unfold_handlers :=
  unfold
    handle_targetduration, handle_media_sequence,
    handle_discontinuity_sequence, handle_version, handle_allow_cache,
    handle_playlist_type, handle_program_date_time, handle_endlist,
    handle_i_frames_only, handle_independent_segments, handle_images_only,
    handle_discontinuity, handle_gap, handle_cue_in, handle_cue_span,
    handle_blackout, handle_key, handle_session_key, handle_map,
    handle_extinf, handle_byterange, handle_bitrate, handle_cue_out,
    handle_cue_out_cont, handle_oatcls_scte35, handle_asset,
    handle_daterange, handle_stream_inf, handle_i_frame_stream_inf,
    handle_image_stream_inf, handle_media, handle_start,
    handle_server_control, handle_part_inf, handle_skip,
    handle_rendition_report, handle_session_data, handle_preload_hint,
    handle_content_steering, handle_tiles, handle_part, finalize_segment,
    finalize_playlist
  in *.

Ltac destruct_records :=
  repeat match goal with
    | c : Config |- _ => destruct c as [[? ?] ?]
    | d : M3U8Data |- _ => destruct d
    | st : ParserState |- _ => destruct st
    | h : Heap |- _ => destruct h
    end.

(** Case analysis on whatever a handler branches on. *)
Ltac has_match x :=
  match x with context [match _ with _ => _ end] => idtac end.

Ltac branch :=
  repeat (match goal with
          | |- context [match ?x with _ => _ end] =>
              first [ has_match x; fail 1 | destruct x eqn:? ]
          end; rsimpl).

Ltac handler_crush :=
  unfold_handlers; unfold ensure_segment, or_keep in *;
  destruct_records; rsimpl; branch.

(** ** The segment under construction

    Until a URI line finalizes it, the segment under construction carries
    nothing of what [finalize_segment] assigns. *)

Ltac pending_case :=
  let Hc := fresh "Hc" in
  let s := fresh "s" in
  let Hs := fresh "Hs" in
  intros;
  match goal with H : pending_ok _ |- _ => revert H end;
  unfold pending_ok, state_of;
  unfold_handlers; unfold ensure_segment, or_keep in *;
  destruct_records; rsimpl;
  intros Hc s;
  repeat match goal with
    | x : option M3U8Segment |- _ => destruct x as [[]|]
    end;
  try specialize (Hc _ eq_refl);
  branch; intros Hs; try discriminate;
  inversion Hs; subst; unfold unfinalized in *; rsimpl;
  repeat split; tauto.

Lemma step_pending_ok c l : pending_ok c -> pending_ok (step c l).
Proof.
  destruct c as [[h d] st]; destruct l as [cursor len].
  unfold step. cbn [fst snd].
  apply process_line_cases; [tauto | | |].
  - apply dispatch_tag_cases; intros; try tauto; pending_case.
  - intros _. pending_case.
  - intros _ _. pending_case.
Qed.

Lemma run_from_app c ls1 ls2 :
  run_from c (ls1 ++ ls2) = run_from (run_from c ls1) ls2.
Proof. apply fold_left_app. Qed.

Lemma run_from_pending_ok ls : forall c, pending_ok c -> pending_ok (run_from c ls).
Proof.
  induction ls as [|l ls IH]; intros c Hc; simpl; [exact Hc|].
  apply IH, step_pending_ok, Hc.
Qed.

Lemma run_pending_ok ls : pending_ok (run ls).
Proof. apply run_from_pending_ok. intros s Hs. discriminate. Qed.

(** ** C1: ownership of the SCTE-35 quartet and of the asset metadata *)

Lemma map_copy_attribute l : map copy_attribute l = l.
Proof.
  induction l as [|[k v] l IH]; simpl; [reflexivity|]. now rewrite IH.
Qed.

(** C1. At every URI line that finalizes a segment, in any state the
    parser can reach: the segment receives the pending SCTE-35 quartet and
    the pending asset metadata; when [cue_out] is true the state keeps
    them (they were copied), when [cue_out] is false the four state fields
    become NULL and the pending asset metadata is gone from the state
    (they were moved). *)
Theorem finalize_segment_ownership
    (ls : list Line) (cursor : bytes) (len : nat) :
  let c := run ls in
  let c' := process_line c cursor len in
  (peek cursor =? "#")%char = false ->
  expect_segment (state_of c) = true ->
  exists seg,
    segments (data_of c') = segments (data_of c) ++ [seg]
    /\ segment_scte35 seg = pending_scte35 (state_of c)
    /\ seg_asset_metadata seg = asset_metadata (state_of c)
    /\ (cue_out (state_of c) = true ->
        pending_scte35 (state_of c') = pending_scte35 (state_of c)
        /\ asset_metadata (state_of c') = asset_metadata (state_of c))
    /\ (cue_out (state_of c) = false ->
        pending_scte35 (state_of c') = (None, None, None, None)
        /\ asset_metadata (state_of c') = []).
Proof.
  intros c c' Huri Hexp. subst c'.
  pose proof (run_pending_ok ls) as Hok. fold c in Hok.
  destruct c as [[h d] st]. unfold process_line. rewrite Huri.
  unfold dispatch_uri, state_of, data_of in *. cbn [fst snd] in *.
  rewrite Hexp. unfold pending_ok, state_of in Hok. cbn [snd] in Hok.
  unfold finalize_segment, ensure_segment, pending_scte35, segment_scte35.
  destruct st, d; rsimpl. subst.
  assert (Hasset : forall s, current_segment0 = Some s ->
                             seg_asset_metadata s = []).
  { intros s Hs. apply (Hok s Hs). }
  eexists; split; [reflexivity|]. rsimpl.
  destruct cue_out0; rsimpl.
  - repeat split; try discriminate.
    destruct asset_metadata0 as [|a l].
    + destruct current_segment0 as [s|]; [now apply Hasset | reflexivity].
    + apply map_copy_attribute.
  - repeat split; try discriminate.
    destruct asset_metadata0 as [|a l]; [|reflexivity].
    destruct current_segment0 as [s|]; [now apply Hasset | reflexivity].
Qed.

Lemma finalize_segment_ownership_witness :
  let c := run (lines_of (text ["#EXT-X-ASSET:CAID=0x1";
                                "#EXT-X-CUE-OUT:DURATION=30,cue=c1";
                                "#EXTINF:10,"]%string)) in
  let c' := process_line c (text ["p1.ts"]%string) 5 in
  exists seg,
    segments (data_of c') = [seg]
    /\ segment_scte35 seg = (Some (lit "c1"), None, Some (lit "30"), None)
    /\ pending_scte35 (state_of c') = segment_scte35 seg
    /\ asset_metadata (state_of c') = seg_asset_metadata seg.
Proof.
  intros c c'.
  destruct (finalize_segment_ownership
              (lines_of (text ["#EXT-X-ASSET:CAID=0x1";
                               "#EXT-X-CUE-OUT:DURATION=30,cue=c1";
                               "#EXTINF:10,"]%string))
              (text ["p1.ts"]%string) 5 eq_refl eq_refl)
    as (seg & Hsegs & Hq & Ha & Hin & _).
  destruct (Hin eq_refl) as [Hq' Ha'].
  subst c c'. cbv zeta in *.
  exists seg. split; [exact Hsegs|].
  split; [rewrite Hq; reflexivity|].
  split; [rewrite Hq', Hq; reflexivity|].
  rewrite Ha', Ha. reflexivity.
Defined.

(** ** What a URI line does when a segment is expected *)

Lemma process_uri_segment h d st cursor len :
  (peek cursor =? "#")%char = false ->
  expect_segment st = true ->
  process_line (h, d, st) cursor len
  = with_heap h (finalize_segment d st cursor len).
Proof.
  intros Hu He. unfold process_line, dispatch_uri. now rewrite Hu, He.
Qed.

Lemma starts_with_prefix line len p q :
  starts_with line len p = true ->
  firstn (length (lit q)) (lit p) = lit q ->
  starts_with line len q = true.
Proof.
  intros H Hq. apply starts_with_true in H as [H L].
  assert (Hlen : length (lit q) <= length (lit p)).
  { rewrite <- Hq. rewrite length_firstn. lia. }
  unfold starts_with.
  replace (len <? length (lit q)) with false
    by (symmetry; apply Nat.ltb_ge; lia).
  apply bytes_eqb_eq.
  transitivity (firstn (length (lit q)) (firstn (length (lit p)) line)).
  - rewrite firstn_firstn. f_equal. lia.
  - rewrite H. exact Hq.
Qed.

(** ** C4: the cue-out flags along a span *)

Ltac cue_case :=
  intros; unfold cue_step, data_of, state_of;
  handler_crush;
  solve [ left; repeat split; try reflexivity; intros; congruence
        | right; eexists; repeat split; reflexivity ].

Lemma step_cue_flags c l : is_cue_out_tag l = false -> cue_step c (step c l) l.
Proof.
  destruct c as [[h d] st]; destruct l as [cursor len].
  unfold step, is_cue_out_tag. cbn [fst snd]. intros Hno.
  apply process_line_cases.
  - left. repeat split; auto.
  - apply dispatch_tag_cases; try (clear Hno; cue_case).
    + (* CUE-SPAN *)
      intros Hs. unfold cue_step, is_cue_cont_tag. cbn [fst snd].
      rewrite Hs, orb_true_r. clear. handler_crush.
      left; repeat split; try reflexivity; discriminate.
    + (* CUE-OUT-CONT *)
      intros Hs. unfold cue_step, is_cue_cont_tag. cbn [fst snd].
      rewrite Hs. cbn [orb]. clear. handler_crush;
      left; repeat split; try reflexivity; discriminate.
    + (* CUE-OUT *)
      intros H1 H2. rewrite H1, H2 in Hno. discriminate.
  - clear Hno. cue_case.
  - clear Hno. cue_case.
Qed.

Lemma run_cue_flags ls : forall c,
  Forall (fun l => is_cue_out_tag l = false) ls ->
  exists new,
    segments (data_of (run_from c ls)) = segments (data_of c) ++ new
    /\ span_flags (state_of c)
         (Forall (fun l => is_cue_cont_tag l = false) ls) new.
Proof.
  induction ls as [|l ls IH]; intros c Hls.
  { exists []. simpl. rewrite app_nil_r. auto. }
  apply Forall_cons_iff in Hls as [Hl Hls].
  destruct (IH (step c l) Hls) as (new1 & Hseg1 & Hflags1).
  simpl run_from. rewrite Hseg1.
  destruct (step_cue_flags c l Hl) as [(Hs & Hstart & Hout & Hplain) |
                                      (seg & Hs & Ho & Hst & Ho' & Hst')].
  - exists new1. rewrite Hs. split; [reflexivity|].
    destruct new1 as [|first rest]; [exact I|].
    destruct Hflags1 as (F1 & F2 & F3 & F4).
    split; [congruence|]. split; [auto|]. split; [exact F3|].
    intros Hp. apply Forall_cons_iff in Hp as [Hp1 Hp2].
    destruct (F4 Hp2) as [F5 F6]. split; [|exact F6].
    rewrite F5. auto.
  - exists (seg :: new1). rewrite Hs, <- app_assoc. split; [reflexivity|].
    assert (Hstart1 : Forall (fun s => seg_cue_out_start s = false) new1).
    { destruct new1 as [|first rest]; [constructor|].
      destruct Hflags1 as (F1 & _ & F3 & _). constructor; congruence. }
    split; [exact Hst|]. split; [congruence|]. split; [exact Hstart1|].
    intros Hp. apply Forall_cons_iff in Hp as [_ Hp2].
    split; [exact Ho|].
    destruct new1 as [|first rest]; [constructor|].
    destruct Hflags1 as (_ & _ & _ & F4). destruct (F4 Hp2) as [F5 F6].
    constructor; congruence.
Qed.

Lemma process_cue_out h d st line len :
  is_cue_out_tag (line, len) = true ->
  process_line (h, d, st) line len = (h, d, handle_cue_out st line len).
Proof.
  unfold is_cue_out_tag. cbn [fst snd]. intros H.
  apply andb_true_iff in H as [H1 H2]. apply negb_true_iff in H2.
  unfold process_line. rewrite (starts_with_hash _ _ _ H1 eq_refl).
  cbv beta zeta delta [dispatch_tag].
  other_tags H1. rewrite H1, H2. reflexivity.
Qed.

Lemma process_cue_out_cont h d st line len :
  starts_with line len "#EXT-X-CUE-OUT-CONT" = true ->
  process_line (h, d, st) line len = (h, d, handle_cue_out_cont st line len).
Proof.
  intros H. unfold process_line. rewrite (starts_with_hash _ _ _ H eq_refl).
  cbv beta zeta delta [dispatch_tag].
  other_tags H. rewrite H. reflexivity.
Qed.

Lemma handle_cue_out_flags st line len :
  cue_out (handle_cue_out st line len) = true
  /\ cue_out_start (handle_cue_out st line len) = true.
Proof. handler_crush; split; reflexivity. Qed.

(** C4, as amended.  [finalize_segment] resets [cue_out] and
    [cue_out_start] after every segment; a CUE-OUT-CONT tag sets [cue_out]
    again and leaves [cue_out_start] as it is; and of the segments
    finalized after a CUE-OUT tag and before any further CUE-OUT tag, the
    first has [cue_out] and [cue_out_start] true and no later one has
    [cue_out_start] true -- nor [cue_out] true, when neither a CONT nor a
    CUE-SPAN tag intervenes. *)
Theorem cue_out_start_first_segment_only :
  (forall d st uri uri_len,
      cue_out (snd (finalize_segment d st uri uri_len)) = false
      /\ cue_out_start (snd (finalize_segment d st uri uri_len)) = false)
  /\ (forall c line len,
         starts_with line len "#EXT-X-CUE-OUT-CONT" = true ->
         cue_out (state_of (process_line c line len)) = true
         /\ cue_out_start (state_of (process_line c line len))
            = cue_out_start (state_of c))
  /\ (forall c tag tag_len ls,
         is_cue_out_tag (tag, tag_len) = true ->
         Forall (fun l => is_cue_out_tag l = false) ls ->
         exists new,
           segments (data_of (run_from (process_line c tag tag_len) ls))
             = segments (data_of c) ++ new
           /\ match new with
              | [] => True
              | first :: rest =>
                  seg_cue_out first = true
                  /\ seg_cue_out_start first = true
                  /\ Forall (fun s => seg_cue_out_start s = false) rest
                  /\ (Forall (fun l => is_cue_cont_tag l = false) ls ->
                      Forall (fun s => seg_cue_out s = false) rest)
              end).
Proof.
  split; [|split].
  - intros d st uri uri_len. handler_crush; split; reflexivity.
  - intros [[h d] st] line len H. rewrite (process_cue_out_cont _ _ _ _ _ H).
    unfold state_of. clear. handler_crush; split; reflexivity.
  - intros [[h d] st] tag tag_len ls Htag Hls.
    rewrite (process_cue_out _ _ _ _ _ Htag).
    destruct (run_cue_flags ls (h, d, handle_cue_out st tag tag_len) Hls)
      as (new & Hseg & Hflags).
    exists new. split; [exact Hseg|].
    destruct new as [|first rest]; [exact I|].
    unfold state_of in Hflags. cbn [snd] in Hflags.
    destruct (handle_cue_out_flags st tag tag_len) as [Ho Hs].
    destruct Hflags as (F1 & F2 & F3 & F4).
    repeat split; auto; try congruence.
    intros Hp. now destruct (F4 Hp).
Qed.

Lemma cue_out_start_first_segment_only_witness :
  exists new,
    segments (data_of (run_from
      (process_line initial (text ["#EXT-X-CUE-OUT:30"]%string) 17)
      (lines_of (text ["#EXTINF:10,"; "p1.ts"; "#EXTINF:10,"; "p2.ts";
                       "#EXTINF:10,"; "p3.ts"]%string))))
      = [] ++ new
    /\ match new with
       | [] => True
       | first :: rest =>
           seg_cue_out first = true
           /\ seg_cue_out_start first = true
           /\ Forall (fun s => seg_cue_out_start s = false) rest
           /\ (Forall (fun l => is_cue_cont_tag l = false)
                 (lines_of (text ["#EXTINF:10,"; "p1.ts"; "#EXTINF:10,";
                                  "p2.ts"; "#EXTINF:10,"; "p3.ts"]%string)) ->
               Forall (fun s => seg_cue_out s = false) rest)
       end.
Proof.
  destruct cue_out_start_first_segment_only as (_ & _ & H).
  apply (H initial (text ["#EXT-X-CUE-OUT:30"]%string) 17).
  - reflexivity.
  - vm_compute. repeat constructor.
Defined.

(** C4 as stated fails when a CUE-SPAN tag intervenes: no CONT tag
    follows the CUE-OUT tag, yet the second segment has [cue_out] true
    (its [cue_out_start] is false). *)
Lemma cue_span_sets_cue_out_again :
  exists h d,
    m3u8_parse (Some (text ["#EXT-X-CUE-OUT:30"; "#EXTINF:10,"; "p1.ts";
                            "#EXT-X-CUE-SPAN"; "#EXTINF:10,"; "p2.ts"]%string))
      = Some (h, d)
    /\ map (fun s => (seg_cue_out s, seg_cue_out_start s)) (segments d)
       = [(true, true); (true, false)].
Proof. do 2 eexists. split; vm_compute; reflexivity. Qed.

(** ** C2: the Key and Map a segment refers to *)

Lemma extends_refl {A : Type} (l : list A) : extends l l.
Proof. exists []. now rewrite app_nil_r. Qed.

Lemma extends_app {A : Type} (l x : list A) : extends l (l ++ x).
Proof. now exists x. Qed.

Lemma extends_trans {A : Type} (l1 l2 l3 : list A) :
  extends l1 l2 -> extends l2 l3 -> extends l1 l3.
Proof. intros [x ->] [y ->]. exists (x ++ y). now rewrite app_assoc. Qed.

Lemma extends_In {A : Type} (l l' : list A) a :
  extends l l' -> In a l -> In a l'.
Proof. intros [x ->] H. apply in_or_app. now left. Qed.

Lemma extends_nth_error {A : Type} (l l' : list A) n a :
  extends l l' -> nth_error l n = Some a -> nth_error l' n = Some a.
Proof.
  intros [x ->] H. rewrite nth_error_app1; [exact H|].
  apply nth_error_Some. congruence.
Qed.

Lemma grows_refl c : grows c c.
Proof. repeat split; apply extends_refl. Qed.

Lemma grows_trans c1 c2 c3 : grows c1 c2 -> grows c2 c3 -> grows c1 c3.
Proof.
  intros (A1 & A2 & A3 & A4 & A5) (B1 & B2 & B3 & B4 & B5).
  repeat split; eapply extends_trans; eauto.
Qed.

Ltac grows_case :=
  intros; unfold grows, data_of, state_of, heap_of;
  handler_crush;
  repeat split; first [apply extends_refl | apply extends_app].

Lemma step_grows c l : grows c (step c l).
Proof.
  destruct c as [[h d] st]; destruct l as [cursor len].
  unfold step. cbn [fst snd].
  apply process_line_cases; [apply grows_refl | | grows_case | grows_case].
  apply dispatch_tag_cases; try apply grows_refl; grows_case.
Qed.

Lemma run_from_grows ls : forall c, grows c (run_from c ls).
Proof.
  induction ls as [|l ls IH]; intros c; simpl; [apply grows_refl|].
  eapply grows_trans; [apply step_grows | apply IH].
Qed.

Lemma finish_grows c : grows c (finish c).
Proof. destruct c as [[h d] st]. unfold finish. grows_case. Qed.

Ltac frame_case :=
  intros; unfold data_of, state_of, heap_of;
  handler_crush; first [reflexivity | congruence].

Lemma step_keeps_current_key c l :
  is_key_tag l = false ->
  current_key (state_of (step c l)) = current_key (state_of c).
Proof.
  destruct c as [[h d] st]; destruct l as [cursor len].
  unfold step, is_key_tag. cbn [fst snd]. intros Hno.
  apply process_line_cases; [reflexivity | | frame_case | frame_case].
  apply dispatch_tag_cases; try reflexivity; frame_case.
Qed.

Lemma step_keeps_current_map c l :
  is_map_tag l = false ->
  current_map (state_of (step c l)) = current_map (state_of c).
Proof.
  destruct c as [[h d] st]; destruct l as [cursor len].
  unfold step, is_map_tag. cbn [fst snd]. intros Hno.
  apply process_line_cases; [reflexivity | | frame_case | frame_case].
  apply dispatch_tag_cases; try reflexivity; frame_case.
Qed.

Lemma run_keeps_current_key ls : forall c,
  Forall (fun l => is_key_tag l = false) ls ->
  current_key (state_of (run_from c ls)) = current_key (state_of c).
Proof.
  induction ls as [|l ls IH]; intros c H; simpl; [reflexivity|].
  apply Forall_cons_iff in H as [H1 H2].
  rewrite IH by assumption. now apply step_keeps_current_key.
Qed.

Lemma run_keeps_current_map ls : forall c,
  Forall (fun l => is_map_tag l = false) ls ->
  current_map (state_of (run_from c ls)) = current_map (state_of c).
Proof.
  induction ls as [|l ls IH]; intros c H; simpl; [reflexivity|].
  apply Forall_cons_iff in H as [H1 H2].
  rewrite IH by assumption. now apply step_keeps_current_map.
Qed.

(** A KEY tag allocates one Key object, links it at the tail of the keys
    of the document and makes it the current key. *)
Lemma step_key_tag c l :
  is_key_tag l = true ->
  let a := length (heap_keys (heap_of c)) in
  heap_keys (heap_of (step c l)) = heap_keys (heap_of c) ++ [key_of_tag l]
  /\ keys (data_of (step c l)) = keys (data_of c) ++ [a]
  /\ current_key (state_of (step c l)) = Some a.
Proof.
  destruct c as [[h d] st]; destruct l as [cursor len].
  unfold step, is_key_tag, key_of_tag. cbn [fst snd]. intros H.
  unfold process_line. rewrite (starts_with_hash _ _ _ H eq_refl).
  cbv beta zeta delta [dispatch_tag].
  other_tags H. rewrite H. cbn [andb negb]. clear.
  unfold data_of, state_of, heap_of. handler_crush. repeat split.
Qed.

Lemma step_map_tag c l :
  is_map_tag l = true ->
  let a := length (heap_maps (heap_of c)) in
  heap_maps (heap_of (step c l)) = heap_maps (heap_of c) ++ [map_of_tag l]
  /\ segment_map (data_of (step c l)) = segment_map (data_of c) ++ [a]
  /\ current_map (state_of (step c l)) = Some a.
Proof.
  destruct c as [[h d] st]; destruct l as [cursor len].
  unfold step, is_map_tag, map_of_tag. cbn [fst snd]. intros H.
  unfold process_line. rewrite (starts_with_hash _ _ _ H eq_refl).
  cbv beta zeta delta [dispatch_tag].
  other_tags H. rewrite H. cbn [andb negb]. clear.
  unfold data_of, state_of, heap_of. handler_crush. repeat split.
Qed.

(** What [finalize_segment] hands to the segment and leaves in the state. *)
Lemma finalize_segment_effect d st uri uri_len :
  exists seg,
    segments (fst (finalize_segment d st uri uri_len)) = segments d ++ [seg]
    /\ seg_uri seg = str_ndup (Some uri) uri_len
    /\ seg_key seg = current_key st
    /\ seg_init_section seg = current_map st
    /\ seg_dateranges seg = dateranges st
    /\ seg_parts seg = seg_parts (ensure_segment st)
    /\ seg_asset_metadata seg
       = (if is_nil (asset_metadata st)
          then seg_asset_metadata (ensure_segment st)
          else asset_metadata st)
    /\ dateranges (snd (finalize_segment d st uri uri_len)) = []
    /\ asset_metadata (snd (finalize_segment d st uri uri_len))
       = (if cue_out st then asset_metadata st else [])
    /\ current_segment (snd (finalize_segment d st uri uri_len)) = None.
Proof.
  unfold finalize_segment. destruct d, st. rsimpl.
  eexists. split; [reflexivity|]. rsimpl.
  destruct cue_out0, asset_metadata0; rsimpl;
    repeat split; apply map_copy_attribute.
Qed.

Lemma run_snoc ls l : run (ls ++ [l]) = step (run ls) l.
Proof. unfold run, run_from. now rewrite fold_left_app. Qed.

Lemma run_app ls1 ls2 : run (ls1 ++ ls2) = run_from (run ls1) ls2.
Proof. apply run_from_app. Qed.

Lemma nth_error_snoc {A : Type} (l x : list A) (a : A) :
  nth_error ((l ++ [a]) ++ x) (length l) = Some a.
Proof.
  rewrite <- app_assoc. rewrite nth_error_app2 by lia.
  now rewrite Nat.sub_diag.
Qed.

(** A line appends a segment only when it is a URI line and a segment is
    expected, and then exactly one. *)
Lemma step_segments c l :
  segments (data_of (step c l)) = segments (data_of c)
  \/ ((peek (fst l) =? "#")%char = false
      /\ expect_segment (state_of c) = true
      /\ exists seg, segments (data_of (step c l))
                     = segments (data_of c) ++ [seg]).
Proof.
  destruct c as [[h d] st]; destruct l as [cursor len].
  unfold step, process_line. cbn [fst snd].
  destruct (peek cursor =? "#")%char eqn:Hp.
  - left. apply dispatch_tag_cases; try reflexivity; frame_case.
  - unfold dispatch_uri, state_of. cbn [snd].
    destruct (expect_segment st) eqn:He.
    + right. split; [reflexivity|]. split; [reflexivity|].
      destruct (finalize_segment_effect d st cursor len) as (seg & Hs & _).
      exists seg. exact Hs.
    + left. destruct (expect_playlist st); [frame_case | reflexivity].
Qed.

(** Every segment of the list was appended by a URI line that finalized it. *)
Lemma segments_origin ls : forall i s,
  nth_error (segments (data_of (run ls))) i = Some s ->
  exists pre uri uri_len post,
    ls = pre ++ (uri, uri_len) :: post
    /\ (peek uri =? "#")%char = false
    /\ expect_segment (state_of (run pre)) = true
    /\ i = length (segments (data_of (run pre))).
Proof.
  induction ls as [|l ls IH] using rev_ind; intros i s Hi.
  { destruct i; discriminate. }
  rewrite run_snoc in Hi.
  assert (Hold : nth_error (segments (data_of (run ls))) i = Some s ->
                 exists pre uri uri_len post,
                   ls ++ [l] = pre ++ (uri, uri_len) :: post
                   /\ (peek uri =? "#")%char = false
                   /\ expect_segment (state_of (run pre)) = true
                   /\ i = length (segments (data_of (run pre)))).
  { intros H. destruct (IH i s H) as (pre & uri & n & post & -> & H1 & H2 & H3).
    exists pre, uri, n, (post ++ [l]). rewrite <- app_assoc. auto. }
  destruct (step_segments (run ls) l) as [E | (Hp & He & seg & E)];
    rewrite E in Hi; [auto|].
  destruct (Nat.lt_ge_cases i (length (segments (data_of (run ls)))))
    as [Hlt | Hge].
  - rewrite nth_error_app1 in Hi by assumption. auto.
  - assert (i = length (segments (data_of (run ls)))).
    { assert (Hlt : i < length (segments (data_of (run ls)) ++ [seg]))
        by (apply nth_error_Some; congruence).
      rewrite length_app in Hlt. simpl in Hlt. lia. }
    exists ls, (fst l), (snd l), []. destruct l. auto.
Qed.

(** C2, as amended.  A segment finalized by a URI line refers to the Key
    object allocated by the most recent KEY tag before that line -- the
    object itself, by its address, which is linked in the keys of the
    returned document -- or to NULL when no KEY tag came before; and
    likewise to the Map object of the most recent MAP tag.  The segment
    still under construction at the end of the input is appended with
    NULL for its URI, its key and its init section.  Every segment of the
    returned document is one or the other. *)
Theorem segment_refers_to_latest_key_and_map :
  (forall (pre post : list Line) (uri : bytes) (uri_len : nat),
      (peek uri =? "#")%char = false ->
      expect_segment (state_of (run pre)) = true ->
      let final := finish (run (pre ++ (uri, uri_len) :: post)) in
      exists seg,
        nth_error (segments (data_of final))
                  (length (segments (data_of (run pre)))) = Some seg
        /\ seg_uri seg = str_ndup (Some uri) uri_len
        /\ (Forall (fun l => is_key_tag l = false) pre -> seg_key seg = None)
        /\ (forall p1 tag p2,
               pre = p1 ++ tag :: p2 -> is_key_tag tag = true ->
               Forall (fun l => is_key_tag l = false) p2 ->
               let a := length (heap_keys (heap_of (run p1))) in
               seg_key seg = Some a
               /\ In a (keys (data_of final))
               /\ nth_error (heap_keys (heap_of final)) a
                  = Some (key_of_tag tag))
        /\ (Forall (fun l => is_map_tag l = false) pre ->
            seg_init_section seg = None)
        /\ (forall p1 tag p2,
               pre = p1 ++ tag :: p2 -> is_map_tag tag = true ->
               Forall (fun l => is_map_tag l = false) p2 ->
               let a := length (heap_maps (heap_of (run p1))) in
               seg_init_section seg = Some a
               /\ In a (segment_map (data_of final))
               /\ nth_error (heap_maps (heap_of final)) a
                  = Some (map_of_tag tag)))
  /\ (forall (ls : list Line) (s : M3U8Segment),
         current_segment (state_of (run ls)) = Some s ->
         segments (data_of (finish (run ls)))
           = segments (data_of (run ls)) ++ [s]
         /\ seg_uri s = None /\ seg_key s = None
         /\ seg_init_section s = None)
  /\ (forall (ls : list Line) (i : nat) (s : M3U8Segment),
         nth_error (segments (data_of (finish (run ls)))) i = Some s ->
         (current_segment (state_of (run ls)) = Some s
          /\ i = length (segments (data_of (run ls))))
         \/ (exists pre uri uri_len post,
                ls = pre ++ (uri, uri_len) :: post
                /\ (peek uri =? "#")%char = false
                /\ expect_segment (state_of (run pre)) = true
                /\ i = length (segments (data_of (run pre))))).
Proof.
  split; [|split].
  - intros pre post uri uri_len Huri Hexp final.
    assert (Hrun : run (pre ++ (uri, uri_len) :: post)
                   = run_from (step (run pre) (uri, uri_len)) post).
    { now rewrite run_app. }
    remember (run pre) as c eqn:Ec. destruct c as [[h d] st].
    unfold state_of in Hexp. cbn [snd] in Hexp.
    assert (Hstep : step (h, d, st) (uri, uri_len)
                    = with_heap h (finalize_segment d st uri uri_len)).
    { unfold step. cbn [fst snd]. now apply process_uri_segment. }
    destruct (finalize_segment_effect d st uri uri_len)
      as (seg & Hsegs & Huri' & Hkey & Hmap & _).
    pose proof (grows_trans _ _ _
                  (run_from_grows post (step (h, d, st) (uri, uri_len)))
                  (finish_grows _)) as Hg.
    rewrite <- Hrun in Hg. fold final in Hg.
    exists seg. split.
    { destruct Hg as ([x Hx] & _). rewrite Hx, Hstep.
      unfold data_of, with_heap. cbn [fst snd]. rewrite Hsegs.
      apply nth_error_snoc. }
    split; [exact Huri'|].
    assert (Hg0 : grows (h, d, st) final).
    { eapply grows_trans; [apply step_grows | exact Hg]. }
    split; [|split; [|split]].
    + intros Hno. rewrite Hkey.
      change (current_key st) with (current_key (state_of (h, d, st))).
      rewrite Ec. unfold run. now rewrite run_keeps_current_key.
    + intros p1 tag p2 Hpre Htag Hno a.
      destruct (step_key_tag (run p1) tag Htag) as (Hh & Hk & Hc).
      fold a in Hk, Hc.
      assert (Ec' : (h, d, st) = run_from (step (run p1) tag) p2).
      { rewrite Ec, Hpre, run_app. reflexivity. }
      assert (Hg1 : grows (step (run p1) tag) final).
      { eapply grows_trans; [|exact Hg0]. rewrite Ec'. apply run_from_grows. }
      split.
      { rewrite Hkey.
        change (current_key st) with (current_key (state_of (h, d, st))).
        rewrite Ec', run_keeps_current_key by assumption. exact Hc. }
      destruct Hg1 as (_ & G2 & _ & G4 & _). split.
      { eapply extends_In; [exact G2|]. rewrite Hk.
        apply in_or_app. right. now left. }
      { eapply extends_nth_error; [exact G4|]. rewrite Hh.
        rewrite nth_error_app2 by (subst a; lia).
        subst a. now rewrite Nat.sub_diag. }
    + intros Hno. rewrite Hmap.
      change (current_map st) with (current_map (state_of (h, d, st))).
      rewrite Ec. unfold run. now rewrite run_keeps_current_map.
    + intros p1 tag p2 Hpre Htag Hno a.
      destruct (step_map_tag (run p1) tag Htag) as (Hh & Hk & Hc).
      fold a in Hk, Hc.
      assert (Ec' : (h, d, st) = run_from (step (run p1) tag) p2).
      { rewrite Ec, Hpre, run_app. reflexivity. }
      assert (Hg1 : grows (step (run p1) tag) final).
      { eapply grows_trans; [|exact Hg0]. rewrite Ec'. apply run_from_grows. }
      split.
      { rewrite Hmap.
        change (current_map st) with (current_map (state_of (h, d, st))).
        rewrite Ec', run_keeps_current_map by assumption. exact Hc. }
      destruct Hg1 as (_ & _ & G3 & _ & G5). split.
      { eapply extends_In; [exact G3|]. rewrite Hk.
        apply in_or_app. right. now left. }
      { eapply extends_nth_error; [exact G5|]. rewrite Hh.
        rewrite nth_error_app2 by (subst a; lia).
        subst a. now rewrite Nat.sub_diag. }
  - intros ls s Hs.
    destruct (run_pending_ok ls s Hs) as (U1 & _ & U3 & U4 & _).
    destruct (run ls) as [[h d] st].
    unfold finish, state_of, data_of in *. cbn [fst snd] in *.
    rewrite Hs. destruct d. rsimpl. auto.
  - intros ls i s Hi.
    assert (Hfin : segments (data_of (finish (run ls)))
                   = segments (data_of (run ls))
                     ++ match current_segment (state_of (run ls)) with
                        | Some r => [r]
                        | None => []
                        end).
    { destruct (run ls) as [[h d] st].
      unfold finish, state_of, data_of. cbn [fst snd].
      destruct (current_segment st); destruct d; rsimpl;
        [reflexivity | now rewrite app_nil_r]. }
    rewrite Hfin in Hi.
    destruct (Nat.lt_ge_cases i (length (segments (data_of (run ls)))))
      as [Hlt | Hge].
    + rewrite nth_error_app1 in Hi by assumption.
      right. exact (segments_origin ls i s Hi).
    + rewrite nth_error_app2 in Hi by assumption.
      destruct (current_segment (state_of (run ls))) as [r|].
      * destruct (i - length (segments (data_of (run ls)))) as [|k] eqn:Ek;
          simpl in Hi; [|destruct k; discriminate].
        left. split; [congruence | lia].
      * destruct (i - length (segments (data_of (run ls)))); discriminate.
Qed.

Lemma segment_refers_to_latest_key_and_map_witness :
  let l1 := (text ["#EXT-X-KEY:METHOD=AES-128,URI=k1";
                   "#EXT-X-MAP:URI=init.mp4"; "#EXTINF:4,"; "a.ts"]%string,
             32) in
  let l2 := (text ["#EXT-X-MAP:URI=init.mp4"; "#EXTINF:4,"; "a.ts"]%string,
             23) in
  let l3 := (text ["#EXTINF:4,"; "a.ts"]%string, 10) in
  let uri := text ["a.ts"]%string in
  let final := finish (run ([l1; l2; l3] ++ (uri, 4) :: [])) in
  exists seg,
    nth_error (segments (data_of final))
              (length (segments (data_of (run [l1; l2; l3])))) = Some seg
    /\ seg_key seg = Some (length (heap_keys (heap_of (run []))))
    /\ In (length (heap_keys (heap_of (run [])))) (keys (data_of final))
    /\ nth_error (heap_keys (heap_of final))
                 (length (heap_keys (heap_of (run []))))
       = Some (key_of_tag l1)
    /\ seg_init_section seg = Some (length (heap_maps (heap_of (run [l1])))).
Proof.
  intros l1 l2 l3 uri final.
  assert (E1 : (peek uri =? "#")%char = false) by reflexivity.
  assert (E2 : expect_segment (state_of (run [l1; l2; l3])) = true)
    by (vm_compute; reflexivity).
  assert (K1 : is_key_tag l1 = true) by (vm_compute; reflexivity).
  assert (K2 : Forall (fun l => is_key_tag l = false) [l2; l3])
    by (repeat constructor).
  assert (M1 : is_map_tag l2 = true) by (vm_compute; reflexivity).
  assert (M2 : Forall (fun l => is_map_tag l = false) [l3])
    by (repeat constructor).
  destruct segment_refers_to_latest_key_and_map as (H & _ & _).
  destruct (H [l1; l2; l3] [] uri 4 E1 E2)
    as (seg & H1 & _ & _ & H4 & _ & H6).
  destruct (H4 [] l1 [l2; l3] eq_refl K1 K2) as (A1 & A2 & A3).
  destruct (H6 [l1] l2 [l3] eq_refl M1 M2) as (B1 & _).
  exists seg. split; [exact H1|]. split; [exact A1|].
  split; [exact A2|]. split; [exact A3 | exact B1].
Defined.

(** C2 as stated fails for the segment appended at the end of the input:
    a KEY tag precedes it and its Key object is in the keys of the
    document, yet the key of the segment is NULL. *)
Lemma remnant_segment_has_no_key :
  exists h d s,
    m3u8_parse (Some (text ["#EXT-X-KEY:METHOD=AES-128,URI=k1";
                            "#EXTINF:4,"]%string)) = Some (h, d)
    /\ keys d = [0]
    /\ segments d = [s]
    /\ seg_key s = None
    /\ seg_key s <> Some 0.
Proof.
  do 3 eexists. split; [vm_compute; reflexivity|].
  repeat split. discriminate.
Qed.

(** ** C3: where the pending dateranges and asset metadata go *)

Lemma attached_snoc segs s :
  attached (segs ++ [s]) = attached segs ++ attached_in_segment s.
Proof.
  unfold attached. rewrite map_app, concat_app. simpl. now rewrite app_nil_r.
Qed.

Ltac ledger_case :=
  intros;
  match goal with H : pending_ok _ |- _ => clear H end;
  unfold ledger, attached_in_current, data_of, state_of;
  unfold_handlers; unfold ensure_segment, or_keep in *;
  destruct_records; rsimpl;
  repeat match goal with
    | x : option M3U8Segment |- _ => destruct x as [[]|]
    end;
  rsimpl; branch;
  unfold attached_in_segment; rsimpl;
  rewrite ?app_nil_r; reflexivity.

Lemma step_ledger_other c l :
  pending_ok c -> is_daterange_tag l = false ->
  ledger (step c l) = ledger c.
Proof.
  destruct c as [[h d] st]; destruct l as [cursor len].
  unfold step, is_daterange_tag. cbn [fst snd]. intros Hok Hno.
  apply process_line_cases; [reflexivity | | |].
  - apply dispatch_tag_cases; try reflexivity; try ledger_case.
    + (* DATERANGE *) intros H. congruence.
    + (* PART: the pending list moves into the part *)
      intros _. unfold pending_ok, state_of in Hok. cbn [snd] in Hok.
      unfold ledger, attached_in_current, data_of, state_of.
      unfold handle_part, ensure_segment. destruct st. rsimpl.
      destruct current_segment0 as [s|].
      * destruct (Hok s eq_refl) as (_ & _ & _ & _ & Hd).
        destruct s. unfold attached_in_segment in *. rsimpl. subst.
        rewrite map_app, concat_app. simpl.
        rewrite ?app_nil_r, <- ?app_assoc; reflexivity.
      * unfold attached_in_segment. rsimpl. simpl.
        rewrite ?app_nil_r, <- ?app_assoc; reflexivity.
  - (* a segment is finalized: the pending list moves into it *)
    intros _. unfold pending_ok, state_of in Hok. cbn [snd] in Hok.
    unfold ledger, attached_in_current, data_of, state_of, with_heap.
    cbn [fst snd].
    destruct (finalize_segment_effect d st cursor len)
      as (seg & Hs & _ & _ & _ & Hd & Hp & _ & Hd' & _ & Hc).
    rewrite Hs, Hd', Hc, attached_snoc. unfold attached_in_segment.
    rewrite Hd, Hp. unfold ensure_segment.
    destruct (current_segment st) as [s|] eqn:Es.
    + destruct (Hok s eq_refl) as (_ & _ & _ & _ & Hds).
      rewrite Hds. simpl.
      rewrite ?app_nil_r, <- ?app_assoc; reflexivity.
    + simpl. rewrite ?app_nil_r, <- ?app_assoc; reflexivity.
  - ledger_case.
Qed.

Lemma step_ledger_daterange c l :
  is_daterange_tag l = true ->
  ledger (step c l) = ledger c ++ [daterange_of_tag l].
Proof.
  destruct c as [[h d] st]; destruct l as [cursor len].
  unfold step, is_daterange_tag, daterange_of_tag. cbn [fst snd]. intros H.
  unfold process_line. rewrite (starts_with_hash _ _ _ H eq_refl).
  cbv beta zeta delta [dispatch_tag].
  other_tags H. rewrite H. cbn [andb negb]. clear.
  unfold ledger, attached_in_current, data_of, state_of, handle_daterange.
  destruct st. rsimpl. simpl rev. rewrite ?app_nil_r, <- ?app_assoc; reflexivity.
Qed.

Lemma run_from_ledger ls : forall c,
  pending_ok c ->
  ledger (run_from c ls) = ledger c ++ created_dateranges ls.
Proof.
  unfold created_dateranges.
  induction ls as [|l ls IH]; intros c Hok; simpl.
  { now rewrite app_nil_r. }
  rewrite IH by now apply step_pending_ok.
  destruct (is_daterange_tag l) eqn:E.
  - rewrite step_ledger_daterange by assumption.
    simpl. now rewrite <- app_assoc.
  - now rewrite step_ledger_other.
Qed.

(** C3, as amended.  Every DateRange object a DATERANGE tag creates is
    held in exactly one place -- the part or the finalized segment that
    came next after its tag, or the pending list: the objects held, place
    by place, are the objects created, tag by tag.  A URI line that
    finalizes a segment moves the whole pending list into that segment and
    leaves it empty, and so does a PART tag for its part; what is still
    pending at the end of the input is dropped, and the pending list is
    empty when the parse returns.  The pending asset metadata goes to the
    next finalized segment too, and leaves the state then unless [cue_out]
    is true: inside a cue-out span it is copied and stays pending for the
    segment after. *)
Theorem pending_dateranges_attached_once (ls : list Line) :
  let c := run ls in
  let final := finish c in
  ledger c = created_dateranges ls
  /\ attached (segments (data_of final)) ++ rev (dateranges (state_of c))
     = created_dateranges ls
  /\ dateranges (state_of final) = []
  /\ (forall (uri : bytes) (uri_len : nat),
         (peek uri =? "#")%char = false ->
         expect_segment (state_of c) = true ->
         let c' := process_line c uri uri_len in
         exists seg,
           segments (data_of c') = segments (data_of c) ++ [seg]
           /\ seg_dateranges seg = dateranges (state_of c)
           /\ dateranges (state_of c') = []
           /\ seg_asset_metadata seg = asset_metadata (state_of c)
           /\ asset_metadata (state_of c')
              = (if cue_out (state_of c)
                 then asset_metadata (state_of c) else []))
  /\ (forall (tag : bytes) (tag_len : nat),
         starts_with tag tag_len "#EXT-X-PART:" = true ->
         let c' := process_line c tag tag_len in
         exists seg part,
           current_segment (state_of c') = Some seg
           /\ seg_parts seg = seg_parts (ensure_segment (state_of c)) ++ [part]
           /\ part_dateranges part = dateranges (state_of c)
           /\ dateranges (state_of c') = []).
Proof.
  intros c final.
  assert (Hledger : ledger c = created_dateranges ls).
  { subst c. unfold run. rewrite run_from_ledger; [reflexivity|].
    intros s Hs. discriminate. }
  pose proof (run_pending_ok ls) as Hok. fold c in Hok.
  subst final. destruct c as [[h d] st].
  unfold pending_ok, state_of, data_of in *. cbn [fst snd] in *.
  split; [exact Hledger|]. split; [|split; [|split]].
  - rewrite <- Hledger. unfold ledger, attached_in_current, finish.
    unfold data_of, state_of. cbn [fst snd].
    destruct (current_segment st) as [s|]; destruct d; rsimpl.
    + rewrite attached_snoc. now rewrite app_assoc.
    + reflexivity.
  - unfold finish. cbn [snd]. destruct st. rsimpl.
    apply free_pending_dateranges_nil.
  - intros uri uri_len Huri Hexp.
    rewrite (process_uri_segment _ _ _ _ _ Huri Hexp).
    unfold with_heap. cbn [fst snd].
    destruct (finalize_segment_effect d st uri uri_len)
      as (seg & Hs & _ & _ & _ & Hd & _ & Ha & Hd' & Ha' & _).
    exists seg. split; [exact Hs|]. split; [exact Hd|].
    split; [exact Hd'|]. split; [|exact Ha'].
    rewrite Ha. destruct (asset_metadata st) as [|a l]; [|reflexivity].
    simpl. unfold ensure_segment.
    destruct (current_segment st) as [s|]; [|reflexivity].
    now destruct (Hok s eq_refl) as (_ & U & _).
  - intros tag tag_len Htag.
    unfold process_line. rewrite (starts_with_hash _ _ _ Htag eq_refl).
    cbv beta zeta delta [dispatch_tag].
    other_tags Htag. rewrite Htag. cbn [andb negb]. clear.
    unfold handle_part, ensure_segment. destruct st. rsimpl.
    destruct current_segment0 as [[]|]; rsimpl;
      do 2 eexists; repeat split.
Qed.

Lemma pending_dateranges_attached_once_witness :
  let ls :=
    [ (text ["#EXT-X-DATERANGE:ID=d1"; "#EXTINF:4,"; "a.ts"]%string, 22);
      (text ["#EXTINF:4,"; "a.ts"]%string, 10) ] in
  let c := run ls in
  let c' := process_line c (text ["a.ts"]%string) 4 in
  exists seg,
    segments (data_of c') = segments (data_of c) ++ [seg]
    /\ seg_dateranges seg = dateranges (state_of c)
    /\ dateranges (state_of c') = []
    /\ seg_asset_metadata seg = asset_metadata (state_of c)
    /\ asset_metadata (state_of c')
       = (if cue_out (state_of c) then asset_metadata (state_of c) else []).
Proof.
  intros ls c c'.
  assert (E : expect_segment (state_of c) = true) by (vm_compute; reflexivity).
  destruct (pending_dateranges_attached_once ls) as (_ & _ & _ & H & _).
  exact (H (text ["a.ts"]%string) 4 eq_refl E).
Defined.

(** C3 as stated fails for the asset metadata: inside a cue-out span the
    list pending at the first segment is attached to that segment and to
    the next one as well. *)
Lemma asset_metadata_attached_twice :
  exists h d s1 s2,
    m3u8_parse (Some (text ["#EXT-X-ASSET:CAID=0x1"; "#EXT-X-CUE-OUT:30";
                            "#EXTINF:4,"; "a.ts";
                            "#EXTINF:4,"; "b.ts"]%string)) = Some (h, d)
    /\ segments d = [s1; s2]
    /\ seg_asset_metadata s1 <> []
    /\ seg_asset_metadata s2 = seg_asset_metadata s1.
Proof.
  do 4 eexists. split; [vm_compute; reflexivity|].
  repeat split. discriminate.
Qed.

(** ** The scenarios of the specification, run on the model *)

(** S1, minimal segment. *)
Example scenario_minimal_segment :
  option_map (fun r => (targetduration (snd r), version (snd r),
                        is_endlist (snd r),
                        map (fun s => (seg_title s, seg_uri s))
                            (segments (snd r))))
    (m3u8_parse (Some (text ["#EXTM3U"; "#EXT-X-TARGETDURATION:6";
                             "#EXT-X-VERSION:3"; "#EXTINF:5.5,Intro";
                             "https://a/1.ts"; "#EXT-X-ENDLIST"]%string)))
  = Some (6%Z, 3%Z, true,
          [(Some (lit "Intro"), Some (lit "https://a/1.ts"))]).
Proof. vm_compute. reflexivity. Qed.

(** S3, cue-out span. *)
Example scenario_cue_out_span :
  map observed_cues
    (parsed_segments ["#EXT-X-CUE-OUT:DURATION=30,cue=c1"; "#EXTINF:10,";
                      "p1.ts"; "#EXT-X-CUE-OUT-CONT:10/30,scte35=c1";
                      "#EXTINF:10,"; "p2.ts"; "#EXT-X-CUE-IN";
                      "#EXTINF:10,"; "p3.ts"]%string)
  = [ (true, true, true, false,
       (Some (lit "c1"), None, Some (lit "30"), None),
       Some (lit "p1.ts"));
      (true, false, false, false,
       (Some (lit "c1"), None, Some (lit "30"), Some (lit "10")),
       Some (lit "p2.ts"));
      (false, false, false, true,
       (Some (lit "c1"), None, Some (lit "30"), Some (lit "10")),
       Some (lit "p3.ts")) ].
Proof. vm_compute. reflexivity. Qed.

(** S5, daterange transfer. *)
Example scenario_daterange_transfer :
  map (fun s => map dr_id (seg_dateranges s))
    (parsed_segments ["#EXT-X-DATERANGE:ID=d1,X-CUSTOM=v"; "#EXTINF:4,";
                      "a.ts"; "#EXTINF:4,"; "b.ts"]%string)
  = [ [Some (lit "d1")]; [] ].
Proof. vm_compute. reflexivity. Qed.

(** * Further properties *)

(** ** The line scanner *)

Lemma scan_lines_S n p :
  scan_lines (S n) p =
  match skip_blank p with
  | [] => []
  | cursor =>
      let (line, line_end) := find_eol cursor in
      let line_len :=
        length (trim_end (fun c => is_blank c || (c =? CR)%char) line) in
      if line_len =? 0 then scan_lines n (tl line_end)
      else (cursor, line_len) :: scan_lines n (skip_one LF (skip_one CR line_end))
  end.
Proof. reflexivity. Qed.

Lemma scan_lines_fuel n : forall m p,
  length p < n -> length p < m -> scan_lines n p = scan_lines m p.
Proof.
  induction n as [|n IH]; intros m p Hn Hm; [lia|].
  destruct m as [|m]; [lia|].
  rewrite !scan_lines_S. destruct (skip_blank p) as [|x r] eqn:E; [reflexivity|].
  cbv beta iota zeta.
  pose proof (next_cursor_shorter p x r E) as Hs.
  destruct (find_eol (x :: r)) as [line line_end].
  destruct Hs as [Hs1 Hs2]. cbv zeta.
  destruct (length (trim_end _ line) =? 0) eqn:El.
  - apply IH; lia.
  - assert (line <> []) by (intros ->; discriminate).
    specialize (Hs2 H). f_equal. apply IH; lia.
Qed.

Lemma lines_of_unfold p :
  lines_of p =
  match skip_blank p with
  | [] => []
  | cursor =>
      let (line, line_end) := find_eol cursor in
      let line_len :=
        length (trim_end (fun c => is_blank c || (c =? CR)%char) line) in
      if line_len =? 0 then lines_of (tl line_end)
      else (cursor, line_len) :: lines_of (skip_one LF (skip_one CR line_end))
  end.
Proof.
  unfold lines_of. rewrite scan_lines_S.
  destruct (skip_blank p) as [|x r] eqn:E; [reflexivity|].
  cbv beta iota zeta.
  pose proof (next_cursor_shorter p x r E) as Hs.
  destruct (find_eol (x :: r)) as [line line_end].
  destruct Hs as [Hs1 Hs2]. cbv zeta.
  destruct (length (trim_end _ line) =? 0) eqn:El.
  - apply scan_lines_fuel; lia.
  - assert (line <> []) by (intros ->; discriminate).
    specialize (Hs2 H). f_equal. apply scan_lines_fuel; lia.
Qed.

Lemma trim_end_cons drop c l :
  trim_end drop (c :: l) =
  match trim_end drop l with
  | [] => if drop c then [] else [c]
  | _ => c :: trim_end drop l
  end.
Proof. reflexivity. Qed.

Lemma trim_end_prefix drop l :
  exists x, l = trim_end drop l ++ x /\ Forall (fun c => drop c = true) x.
Proof.
  induction l as [|c l [x [IH1 IH2]]]; [exists []; auto|].
  rewrite trim_end_cons.
  destruct (trim_end drop l) eqn:E.
  - destruct (drop c) eqn:D.
    + exists (c :: x). simpl in *. split; [now rewrite <- IH1|]. constructor; auto.
    + exists x. simpl in *. split; [now rewrite <- IH1|auto].
  - exists x. split; [|auto]. simpl. f_equal. exact IH1.
Qed.

Lemma trim_end_last drop l :
  trim_end drop l <> [] -> drop (last (trim_end drop l) NUL) = false.
Proof.
  induction l as [|c l IH]; [intros H; now elim H|].
  rewrite trim_end_cons.
  destruct (trim_end drop l) as [|a l0] eqn:E.
  - destruct (drop c) eqn:D; [intros H; now elim H|]. intros _. exact D.
  - intros _. change (last (c :: a :: l0) NUL) with (last (a :: l0) NUL).
    apply IH. discriminate.
Qed.

Lemma skip_blank_suffix p : exists x, p = x ++ skip_blank p /\ Forall (fun c => is_blank c = true) x.
Proof.
  induction p as [|c p [x [IH1 IH2]]]; [exists []; auto|].
  simpl. destruct (is_blank c) eqn:B.
  - exists (c :: x). simpl. split; [now rewrite <- IH1|auto].
  - exists []. auto.
Qed.

Lemma skip_blank_head p x r : skip_blank p = x :: r -> is_blank x = false.
Proof.
  induction p as [|c p IH]; simpl; [discriminate|].
  destruct (is_blank c) eqn:B; [exact IH|].
  intros E; inversion E; subst; exact B.
Qed.

Lemma scan_until_fst stop p : Forall (fun c => stop c = false) (fst (scan_until stop p)).
Proof.
  induction p as [|c p IH]; simpl; [constructor|].
  destruct (stop c) eqn:S; simpl; [constructor|].
  destruct (scan_until stop p); simpl in *. constructor; auto.
Qed.

Lemma scan_until_snd stop p x r : snd (scan_until stop p) = x :: r -> stop x = true.
Proof.
  induction p as [|c p IH]; simpl; [discriminate|].
  destruct (stop c) eqn:S; simpl; [intros E; inversion E; subst; exact S|].
  destruct (scan_until stop p); simpl in *. exact IH.
Qed.

Lemma is_suffix_refl p : is_suffix p p.
Proof. now exists []. Qed.

Lemma is_suffix_trans p q r : is_suffix p q -> is_suffix q r -> is_suffix p r.
Proof. intros [x ->] [y ->]. exists (y ++ x). now rewrite app_assoc. Qed.

Lemma is_suffix_app a p : is_suffix p (a ++ p).
Proof. now exists a. Qed.

Lemma is_suffix_tl p : is_suffix (tl p) p.
Proof. destruct p as [|c p]; [apply is_suffix_refl|]. now exists [c]. Qed.

Lemma is_suffix_skip_one c p : is_suffix (skip_one c p) p.
Proof.
  destruct p as [|x p]; [apply is_suffix_refl|]. simpl.
  destruct (x =? c)%char; [now exists [x] | apply is_suffix_refl].
Qed.

(** One scanned line: what the loop knows of the trimmed line it hands to
    the dispatcher. *)
Lemma scanned_line x r :
  is_blank x = false ->
  let (line, line_end) := find_eol (x :: r) in
  let text := trim_end (fun c => is_blank c || (c =? CR)%char) line in
  x :: r = line ++ line_end
  /\ no_eol line
  /\ firstn (length text) (x :: r) = text
  /\ length text <= length (x :: r)
  /\ (text <> [] -> is_blank (last text NUL) = false)
  /\ no_eol text.
Proof.
  intros Hx. unfold find_eol.
  pose proof (scan_until_app is_eol (x :: r)) as Ha.
  pose proof (scan_until_fst is_eol (x :: r)) as Hf.
  destruct (scan_until is_eol (x :: r)) as [line line_end].
  cbn [fst snd] in *. cbv zeta.
  set (drop := fun c => is_blank c || (c =? CR)%char).
  destruct (trim_end_prefix drop line) as (y & Hy & _).
  assert (Hno : no_eol (trim_end drop line)).
  { unfold no_eol in *. rewrite Hy in Hf. now apply Forall_app in Hf. }
  assert (Hxr : x :: r = trim_end drop line ++ (y ++ line_end)).
  { rewrite app_assoc, <- Hy. now symmetry. }
  repeat split; auto.
  - rewrite Hxr, firstn_app, Nat.sub_diag, firstn_all. simpl.
    now rewrite app_nil_r.
  - rewrite Hxr, length_app. lia.
  - intros Hne. pose proof (trim_end_last drop line Hne) as Hl.
    unfold drop in Hl at 1. now apply orb_false_iff in Hl.
Qed.

Lemma scan_lines_shape fuel : forall p l,
  In l (scan_lines fuel p) ->
  is_suffix (fst l) p
  /\ 1 <= snd l <= length (fst l)
  /\ no_eol (line_text l)
  /\ is_blank (peek (fst l)) = false
  /\ is_blank (last (line_text l) NUL) = false.
Proof.
  induction fuel as [|fuel IH]; intros p l Hin; [contradiction|].
  rewrite scan_lines_S in Hin.
  destruct (skip_blank_suffix p) as (pre & Hp & _).
  destruct (skip_blank p) as [|x r] eqn:E; [contradiction|].
  cbv beta iota zeta in Hin.
  pose proof (scanned_line x r (skip_blank_head _ _ _ E)) as Hl.
  destruct (find_eol (x :: r)) as [line line_end].
  cbv zeta in Hl. destruct Hl as (Hcat & _ & Hfirst & Hlen & Hlast & Hno).
  assert (Hend : is_suffix line_end p).
  { rewrite Hp, Hcat, app_assoc. apply is_suffix_app. }
  destruct (length (trim_end _ line) =? 0) eqn:El.
  - destruct (IH _ _ Hin) as (Hs & Hrest). split; [|exact Hrest].
    eapply is_suffix_trans; [exact Hs|].
    eapply is_suffix_trans; [apply is_suffix_tl | exact Hend].
  - destruct Hin as [<- | Hin].
    + apply Nat.eqb_neq in El. unfold line_text. cbn [fst snd].
      split; [rewrite Hp; apply is_suffix_app|].
      split; [lia|]. rewrite Hfirst. split; [exact Hno|].
      split; [exact (skip_blank_head _ _ _ E)|].
      apply Hlast. intros H0. rewrite H0 in El. now elim El.
    + destruct (IH _ _ Hin) as (Hs & Hrest). split; [|exact Hrest].
      eapply is_suffix_trans; [exact Hs|].
      eapply is_suffix_trans; [apply is_suffix_skip_one|].
      eapply is_suffix_trans; [apply is_suffix_skip_one | exact Hend].
Qed.

Lemma scanned_after x r :
  let (line, line_end) := find_eol (x :: r) in
  let text := trim_end (fun c => is_blank c || (c =? CR)%char) line in
  line_stops (skipn (length text) (x :: r)).
Proof.
  unfold find_eol.
  pose proof (scan_until_app is_eol (x :: r)) as Ha.
  pose proof (scan_until_snd is_eol (x :: r)) as Hs.
  destruct (scan_until is_eol (x :: r)) as [line line_end].
  cbn [fst snd] in *. cbv zeta.
  set (drop := fun c => is_blank c || (c =? CR)%char).
  destruct (trim_end_prefix drop line) as (y & Hy & Hdrop).
  rewrite <- Ha. rewrite Hy at 2. rewrite <- app_assoc.
  rewrite skipn_app, skipn_all, Nat.sub_diag. cbn [skipn app].
  intros c t E. destruct y as [|c0 y].
  - apply Hs in E. now rewrite E, orb_true_r.
  - inversion E; subst. apply Forall_inv in Hdrop. unfold drop in Hdrop.
    apply orb_true_iff in Hdrop as [-> | H]; [reflexivity|].
    unfold is_eol. now rewrite H, !orb_true_r.
Qed.

Lemma scan_lines_stops fuel : forall p l,
  In l (scan_lines fuel p) -> line_stops (after_line l).
Proof.
  induction fuel as [|fuel IH]; intros p l Hin; [contradiction|].
  rewrite scan_lines_S in Hin.
  destruct (skip_blank p) as [|x r] eqn:E; [contradiction|].
  cbv beta iota zeta in Hin.
  pose proof (scanned_after x r) as Hl.
  destruct (find_eol (x :: r)) as [line line_end]. cbv zeta in Hl.
  destruct (length (trim_end _ line) =? 0) eqn:El; [now apply IH in Hin|].
  destruct Hin as [<- | Hin]; [exact Hl | now apply IH in Hin].
Qed.

(** X1. Every line the main loop hands to the dispatcher lies inside the
    input, is at least one byte long, holds no line break, and neither
    starts nor ends with a space or a tab; after it the input ends or
    goes on with a space, a tab or a line break. *)
Theorem dispatched_line_shape (content : bytes) (l : Line) :
  In l (lines_of content) ->
  is_suffix (fst l) content
  /\ 1 <= snd l <= length (fst l)
  /\ no_eol (line_text l)
  /\ is_blank (peek (fst l)) = false
  /\ is_blank (last (line_text l) NUL) = false
  /\ line_stops (after_line l).
Proof.
  intros H. pose proof (scan_lines_shape _ _ _ H) as (H1 & H2 & H3 & H4 & H5).
  repeat split; try assumption; try apply H2.
  exact (scan_lines_stops _ _ _ H).
Qed.

Lemma dispatched_line_shape_witness :
  let content := lit "  #EXTM3U  " ++ [CR; LF] in
  let l := (lit "#EXTM3U  " ++ [CR; LF], 7) in
  In l (lines_of content)
  /\ is_suffix (fst l) content
  /\ 1 <= snd l <= length (fst l)
  /\ no_eol (line_text l)
  /\ is_blank (peek (fst l)) = false
  /\ is_blank (last (line_text l) NUL) = false
  /\ line_stops (after_line l).
Proof.
  assert (H : In (lit "#EXTM3U  " ++ [CR; LF], 7)
                 (lines_of (lit "  #EXTM3U  " ++ [CR; LF])))
    by (vm_compute; left; reflexivity).
  split; [exact H|].
  exact (dispatched_line_shape _ _ H).
Defined.

(** *** Line endings *)

Lemma trim_end_ext d1 d2 l :
  Forall (fun c => d1 c = d2 c) l -> trim_end d1 l = trim_end d2 l.
Proof.
  induction 1 as [|c l Hc Hl IH]; [reflexivity|].
  rewrite !trim_end_cons, IH, Hc. reflexivity.
Qed.

Lemma scan_until_stop stop a b :
  Forall (fun c => stop c = false) a ->
  (forall x r, b = x :: r -> stop x = true) ->
  scan_until stop (a ++ b) = (a, b).
Proof.
  intros Ha Hb. induction Ha as [|c a Hc Ha IH]; simpl.
  - destruct b as [|x r]; [reflexivity|]. simpl.
    now rewrite (Hb x r eq_refl).
  - now rewrite Hc, IH.
Qed.

Lemma skip_blank_app a b :
  skip_blank (a ++ b)
  = match skip_blank a with [] => skip_blank b | s => s ++ b end.
Proof.
  induction a as [|c a IH]; simpl; [reflexivity|].
  destruct (is_blank c); [exact IH | reflexivity].
Qed.

Lemma skip_blank_no_eol l : no_eol l -> no_eol (skip_blank l).
Proof.
  intros H. destruct (skip_blank_suffix l) as (x & Hx & _).
  unfold no_eol in *. rewrite Hx in H. now apply Forall_app in H.
Qed.

Lemma lines_of_nil : lines_of [] = [].
Proof. reflexivity. Qed.

Lemma no_eol_trim l :
  no_eol l ->
  trim_end (fun c => is_blank c || (c =? CR)%char) l = rtrim l.
Proof.
  intros H. apply trim_end_ext. unfold no_eol in H.
  eapply Forall_impl; [|exact H]. intros c Hc. cbv beta in *.
  unfold is_eol in Hc. apply orb_false_iff in Hc as [_ ->].
  apply orb_false_r.
Qed.

Lemma lines_of_eol c R :
  is_eol c = true -> lines_of (c :: R) = lines_of R.
Proof.
  intros Hc. rewrite lines_of_unfold.
  assert (Hb : is_blank c = false).
  { unfold is_eol in Hc. apply orb_true_iff in Hc as [Hc|Hc];
      apply Ascii.eqb_eq in Hc; subst; reflexivity. }
  simpl skip_blank. rewrite Hb. unfold find_eol. simpl scan_until.
  rewrite Hc. reflexivity.
Qed.

(** A terminated line. *)
Lemma lines_of_line l t R :
  no_eol l -> line_terminator t ->
  (t = [CR] -> skip_one LF R = R) ->
  map line_text (lines_of (l ++ t ++ R))
  = (if is_nil (strip l) then [] else [strip l]) ++ map line_text (lines_of R).
Proof.
  intros Hl Ht HR.
  assert (Hstop : forall x r, t ++ R = x :: r -> is_eol x = true).
  { intros x r E. destruct Ht as [-> | [-> | ->]]; inversion E; reflexivity. }
  assert (Hblank : skip_blank (t ++ R) = t ++ R).
  { destruct Ht as [-> | [-> | ->]]; reflexivity. }
  assert (Hskip : lines_of (t ++ R) = lines_of R).
  { destruct Ht as [-> | [-> | ->]]; simpl app;
      rewrite ?lines_of_eol; reflexivity. }
  assert (Hnext : skip_one LF (skip_one CR (t ++ R)) = R).
  { destruct Ht as [-> | [-> | ->]]; simpl; auto. }
  rewrite lines_of_unfold, skip_blank_app. unfold strip.
  pose proof (skip_blank_no_eol l Hl) as Hs.
  destruct (skip_blank l) as [|x r] eqn:E.
  - rewrite Hblank. change (rtrim []) with (@nil ascii). cbn [is_nil app].
    destruct (t ++ R) as [|e rest] eqn:Et.
    { destruct Ht as [-> | [-> | ->]]; discriminate. }
    rewrite <- Et, <- Hskip, lines_of_unfold, Hblank, Et. reflexivity.
  - cbn [app]. cbv beta iota zeta. unfold find_eol.
    change (x :: r ++ t ++ R) with ((x :: r) ++ (t ++ R)).
    rewrite (scan_until_stop is_eol (x :: r) (t ++ R) Hs Hstop).
    cbv beta iota zeta.
    rewrite (no_eol_trim _ Hs).
    assert (Hx : is_blank x = false) by exact (skip_blank_head _ _ _ E).
    assert (Hne : rtrim (x :: r) <> []).
    { unfold rtrim. rewrite trim_end_cons.
      destruct (trim_end is_blank r); [rewrite Hx|]; discriminate. }
    destruct (rtrim (x :: r)) as [|y v] eqn:Ev; [now elim Hne|].
    cbn [length Nat.eqb is_nil map app]. rewrite Hnext. f_equal.
    unfold line_text. cbn [fst snd].
    destruct (trim_end_prefix is_blank (x :: r)) as (z & Hz & _).
    fold (rtrim (x :: r)) in Hz. rewrite Ev in Hz.
    change (x :: r ++ t ++ R) with ((x :: r) ++ (t ++ R)).
    rewrite Hz, <- app_assoc.
    change (S (length v)) with (length (y :: v)).
    rewrite firstn_app, Nat.sub_diag, firstn_all. simpl. now rewrite app_nil_r.
Qed.

(** The last line, left without a terminator. *)
Lemma lines_of_last l :
  no_eol l ->
  map line_text (lines_of l) = if is_nil (strip l) then [] else [strip l].
Proof.
  intros Hl. rewrite lines_of_unfold. unfold strip.
  pose proof (skip_blank_no_eol l Hl) as Hs.
  destruct (skip_blank l) as [|x r] eqn:E; [reflexivity|].
  cbv beta iota. unfold find_eol.
  rewrite <- (app_nil_r (x :: r)) at 1.
  rewrite (scan_until_stop is_eol (x :: r) [] Hs) by discriminate.
  cbv beta iota zeta. rewrite (no_eol_trim _ Hs).
  assert (Hx : is_blank x = false) by exact (skip_blank_head _ _ _ E).
  assert (Hne : rtrim (x :: r) <> []).
  { unfold rtrim. rewrite trim_end_cons.
    destruct (trim_end is_blank r); [rewrite Hx|]; discriminate. }
  destruct (rtrim (x :: r)) as [|y v] eqn:Ev; [now elim Hne|].
  cbn [length Nat.eqb is_nil map app skip_one]. rewrite lines_of_nil.
  cbn [map]. f_equal. unfold line_text. cbn [fst snd].
  destruct (trim_end_prefix is_blank (x :: r)) as (z & Hz & _).
  fold (rtrim (x :: r)) in Hz. rewrite Ev in Hz.
  rewrite Hz at 1.
  change (S (length v)) with (length (y :: v)).
  rewrite firstn_app, Nat.sub_diag, firstn_all. simpl. now rewrite app_nil_r.
Qed.

Lemma skip_one_LF_no_eol l R :
  no_eol l -> skip_one LF R = R -> skip_one LF (l ++ R) = l ++ R.
Proof.
  intros Hl HR. destruct l as [|c l]; [exact HR|].
  simpl. apply Forall_inv in Hl. unfold is_eol in Hl.
  apply orb_false_iff in Hl as [-> _]. reflexivity.
Qed.

Lemma skip_one_LF_join ls last :
  Forall no_eol ls -> no_eol last ->
  skip_one LF (join [CR] ls ++ last) = join [CR] ls ++ last.
Proof.
  intros Hls Hlast.
  destruct ls as [|l ls].
  - simpl. rewrite <- (app_nil_r last). apply skip_one_LF_no_eol; auto.
  - unfold join. cbn [map concat]. rewrite <- !app_assoc.
    apply skip_one_LF_no_eol; [now apply Forall_inv in Hls | reflexivity].
Qed.

(** X2. The three line endings are interchangeable: on lines joined by LF, by
    CR LF or by CR, the last one terminated or not, the main loop
    dispatches the same texts -- each line without its leading and
    trailing spaces and tabs, the empty ones dropped. *)
Theorem line_endings_interchangeable
    (t : bytes) (ls : list bytes) (last : bytes) :
  line_terminator t -> Forall no_eol ls -> no_eol last ->
  map line_text (lines_of (join t ls ++ last))
  = filter (fun l => negb (is_nil l)) (map strip (ls ++ [last])).
Proof.
  intros Ht Hls Hlast. induction Hls as [|l ls Hl Hls IH].
  - simpl. rewrite lines_of_last by assumption.
    destruct (strip last); reflexivity.
  - unfold join. cbn [map concat app]. rewrite <- !app_assoc.
    fold (join t ls).
    rewrite lines_of_line; [| assumption | assumption |].
    + rewrite IH. cbn [filter]. destruct (strip l); reflexivity.
    + intros ->. now apply skip_one_LF_join.
Qed.

Lemma line_endings_interchangeable_witness :
  let ls := [lit "#EXTM3U"; lit "  "; lit " #EXTINF:4, a "] in
  map line_text (lines_of (join [CR; LF] ls ++ lit "s.ts"))
  = filter (fun l => negb (is_nil l)) (map strip (ls ++ [lit "s.ts"])).
Proof.
  apply line_endings_interchangeable.
  - right; left; reflexivity.
  - repeat constructor.
  - repeat constructor.
Defined.

(** ** The attribute lexer *)

Lemma lex_unfold p : lex p = parse_attribute lex p.
Proof.
  unfold lex, parse_attributes. rewrite firstn_all.
  change (parse_attributes_loop (S (length p)) p)
    with (parse_attribute (parse_attributes_loop (length p)) p).
  apply parse_attribute_ext. intros q Hq. rewrite firstn_all.
  apply parse_attributes_loop_fuel; lia.
Qed.

Lemma lex_nil : lex [] = [].
Proof. reflexivity. Qed.

Lemma c_str_no_nul s : no_nul s -> c_str s = s.
Proof.
  induction 1 as [|c s Hc Hs IH]; simpl; [reflexivity|].
  now rewrite Hc, IH.
Qed.

Lemma str_ndup_whole s : no_nul s -> str_ndup (Some s) (length s) = Some s.
Proof. intros H. unfold str_ndup. simpl. now rewrite firstn_all, c_str_no_nul. Qed.

Lemma skip_blank_id p :
  (forall x r, p = x :: r -> is_blank x = false) -> skip_blank p = p.
Proof.
  destruct p as [|c p]; [reflexivity|]. intros H. simpl.
  now rewrite (H c p eq_refl).
Qed.

Lemma rtrim_id s :
  Forall (fun c => is_blank c = false) s -> rtrim s = s.
Proof.
  unfold rtrim. induction 1 as [|c s Hc Hs IH]; [reflexivity|].
  rewrite trim_end_cons, IH, Hc. destruct s; reflexivity.
Qed.

Lemma parse_attribute_at f p tok c after :
  skip_blank p = p ->
  scan_until (fun c => (c =? "=")%char || is_comma c) p = (tok, c :: after) ->
  parse_attribute f p =
  if is_comma c then bare_attribute tok ++ f after
  else
    let p1 := skip_blank after in
    if is_quote (peek p1) && negb (is_nil p1) then
      let quote := peek p1 in
      let (content, p2) :=
        scan_until (fun c => (c =? quote)%char) (tl p1) in
      let v := quote :: content ++ firstn 1 p2 in
      let p3 := snd (scan_until is_comma (tl p2)) in
      keyed_attribute tok v :: f (tl p3)
    else
      let (raw, p2) := scan_until is_comma p1 in
      keyed_attribute tok (rtrim raw) :: f (tl p2).
Proof.
  intros Hb Hs. unfold parse_attribute. rewrite Hb.
  destruct p as [|x p]; [discriminate|]. now rewrite Hs.
Qed.

Lemma name_char_true c :
  name_char c = true ->
  is_blank c = false /\ (c =? "=")%char = false /\ is_comma c = false
  /\ (c =? NUL)%char = false.
Proof.
  unfold name_char. rewrite negb_true_iff, !orb_false_iff. tauto.
Qed.

Lemma name_facts name :
  Forall (fun c => name_char c = true) name ->
  Forall (fun c => is_blank c = false) name
  /\ Forall (fun c => (c =? "=")%char || is_comma c = false) name
  /\ no_nul name.
Proof.
  intros H. repeat split; (eapply Forall_impl; [|exact H]); intros c Hc;
    apply name_char_true in Hc as (H1 & H2 & H3 & H4); cbv beta; auto.
  now rewrite H2, H3.
Qed.

Lemma keyed_attribute_c_str name v :
  Forall (fun c => name_char c = true) name ->
  keyed_attribute name v
  = {| attr_key := Some (normalize_attr_name name);
       attr_value := Some (c_str v) |}.
Proof.
  intros Hn. apply name_facts in Hn as (Hb & _ & Hz).
  unfold keyed_attribute. cbv zeta.
  rewrite (rtrim_id _ Hb), str_ndup_whole by assumption.
  unfold str_ndup. cbn [option_map]. now rewrite firstn_all.
Qed.

Lemma is_quote_facts q :
  is_quote q = true -> is_blank q = false /\ (q =? NUL)%char = false.
Proof.
  unfold is_quote. intros H. apply orb_true_iff in H as [H|H];
    apply Ascii.eqb_eq in H; subst; split; reflexivity.
Qed.

Lemma name_then_equals name X :
  Forall (fun c => name_char c = true) name ->
  skip_blank (name ++ "="%char :: X) = name ++ "="%char :: X
  /\ scan_until (fun c => (c =? "=")%char || is_comma c)
       (name ++ "="%char :: X) = (name, "="%char :: X).
Proof.
  intros Hn. split.
  - apply skip_blank_id. intros x r E.
    destruct name as [|c name]; inversion E; subst; [reflexivity|].
    apply Forall_inv in Hn. now apply name_char_true in Hn.
  - apply scan_until_stop.
    + now apply name_facts in Hn.
    + intros x r E. inversion E. reflexivity.
Qed.

(** [NAME="value"]: the value is kept with its quotes, whatever it holds
    but the quote itself, and stored as a C string; what follows the
    closing quote is dropped up to the next comma. *)
Lemma lex_quoted_c_str name q v junk rest :
  Forall (fun c => name_char c = true) name ->
  is_quote q = true ->
  Forall (fun c => (c =? q)%char = false) v ->
  Forall (fun c => is_comma c = false) junk -> at_separator rest ->
  lex (name ++ "="%char :: q :: v ++ q :: junk ++ rest)
  = {| attr_key := Some (normalize_attr_name name);
       attr_value := Some (c_str (q :: v ++ [q])) |} :: lex (tl rest).
Proof.
  intros Hn Hq Hv Hj Hr.
  destruct (name_then_equals name (q :: v ++ q :: junk ++ rest) Hn) as [Hb Hs].
  destruct (is_quote_facts q Hq) as [Hqb Hqz].
  rewrite lex_unfold, (parse_attribute_at _ _ _ _ _ Hb Hs).
  change (is_comma "=") with false. cbv iota zeta.
  cbn [skip_blank]. rewrite Hqb. cbn [peek hd is_nil negb tl].
  rewrite Hq. cbn [andb].
  rewrite (scan_until_stop (fun c => (c =? q)%char) v (q :: junk ++ rest) Hv)
    by (intros x r E; inversion E; apply Ascii.eqb_refl).
  cbn [tl firstn].
  rewrite (scan_until_stop is_comma junk rest Hj Hr). cbn [snd].
  now rewrite keyed_attribute_c_str.
Qed.

(** [NAME=value]: the value runs to the next comma and loses the spaces
    and tabs around it. *)
Lemma lex_plain_c_str name v rest :
  Forall (fun c => name_char c = true) name ->
  Forall (fun c => is_comma c = false) v ->
  is_quote (peek (skip_blank v)) = false -> at_separator rest ->
  lex (name ++ "="%char :: v ++ rest)
  = {| attr_key := Some (normalize_attr_name name);
       attr_value := Some (c_str (strip v)) |} :: lex (tl rest).
Proof.
  intros Hn Hv Hq Hr.
  destruct (name_then_equals name (v ++ rest) Hn) as [Hb Hs].
  rewrite lex_unfold, (parse_attribute_at _ _ _ _ _ Hb Hs).
  change (is_comma "=") with false. cbv iota zeta.
  assert (Hsr : skip_blank rest = rest).
  { apply skip_blank_id. intros x r E. specialize (Hr x r E).
    apply Ascii.eqb_eq in Hr. subst. reflexivity. }
  assert (Hsv : skip_blank (v ++ rest) = skip_blank v ++ rest).
  { rewrite skip_blank_app. destruct (skip_blank v); [exact Hsr | reflexivity]. }
  rewrite Hsv.
  assert (Hpeek : is_quote (peek (skip_blank v ++ rest)) = false).
  { destruct (skip_blank v) as [|x r] eqn:E; [|exact Hq].
    destruct rest as [|y rest]; [reflexivity|].
    specialize (Hr y rest eq_refl). apply Ascii.eqb_eq in Hr. subst. reflexivity. }
  rewrite Hpeek. cbn [andb].
  destruct (skip_blank_suffix v) as (pre & Hpre & _).
  assert (Hv' : Forall (fun c => is_comma c = false) (skip_blank v)).
  { rewrite Hpre in Hv. now apply Forall_app in Hv. }
  rewrite (scan_until_stop is_comma (skip_blank v) rest Hv' Hr).
  now rewrite keyed_attribute_c_str.
Qed.

(** A token without [=]: a bare value under the empty key, or nothing
    when the token is blank. *)
Lemma lex_bare_c_str tok rest :
  Forall (fun c => (c =? "=")%char || is_comma c = false) tok ->
  at_separator rest ->
  lex (tok ++ rest)
  = (if is_nil (strip tok) then []
     else [ {| attr_key := Some [];
               attr_value := Some (c_str (strip tok)) |} ])
    ++ lex (tl rest).
Proof.
  intros Ht Hr.
  assert (Hsr : skip_blank rest = rest).
  { apply skip_blank_id. intros x r E. specialize (Hr x r E).
    apply Ascii.eqb_eq in Hr. subst. reflexivity. }
  assert (Hst : skip_blank (tok ++ rest) = skip_blank tok ++ rest).
  { rewrite skip_blank_app. destruct (skip_blank tok); [exact Hsr | reflexivity]. }
  destruct (skip_blank_suffix tok) as (pre & Hpre & _).
  assert (Ht' : Forall (fun c => (c =? "=")%char || is_comma c = false)
                  (skip_blank tok)).
  { rewrite Hpre in Ht. now apply Forall_app in Ht. }
  assert (Hstop : forall x r, rest = x :: r ->
                    (x =? "=")%char || is_comma x = true).
  { intros x r E. rewrite (Hr x r E). apply orb_true_r. }
  assert (Hbare : bare_attribute (skip_blank tok)
                  = if is_nil (strip tok) then []
                    else [ {| attr_key := Some [];
                              attr_value := Some (c_str (strip tok)) |} ]).
  { unfold bare_attribute. cbv zeta. fold (strip tok).
    unfold str_ndup. cbn [option_map]. now rewrite firstn_all. }
  rewrite lex_unfold. unfold parse_attribute. rewrite Hst.
  destruct (skip_blank tok ++ rest) as [|x0 r0] eqn:Ep.
  - apply app_eq_nil in Ep as [E1 E2]. subst rest. unfold strip. rewrite E1.
    reflexivity.
  - rewrite <- Ep.
    rewrite (scan_until_stop _ (skip_blank tok) rest Ht' Hstop).
    destruct rest as [|c after].
    + rewrite Hbare. cbn [tl]. rewrite lex_nil. now rewrite app_nil_r.
    + rewrite (Hr c after eq_refl). rewrite Hbare. reflexivity.
Qed.



Lemma lex_bare tok rest :
  Forall (fun c => (c =? "=")%char || is_comma c = false) tok -> no_nul tok ->
  at_separator rest ->
  lex (tok ++ rest)
  = (if is_nil (strip tok) then []
     else [ {| attr_key := Some []; attr_value := Some (strip tok) |} ])
    ++ lex (tl rest).
Proof.
  intros Ht Hz Hr.
  rewrite lex_bare_c_str by assumption.
  rewrite c_str_no_nul; [reflexivity|].
  destruct (skip_blank_suffix tok) as (pre & Hpre & _).
  unfold strip, rtrim.
  destruct (trim_end_prefix is_blank (skip_blank tok)) as (y & Hy & _).
  unfold no_nul in *. rewrite Hpre in Hz. apply Forall_app in Hz as [_ Hz].
  rewrite Hy in Hz. now apply Forall_app in Hz.
Qed.

(** X3. The grammar of an attribute list, one attribute at a time, for a
    name of plain characters (no space, tab, [=], comma or NUL).  The
    name followed by [=] and a quoted value yields the normalized name
    with the value, quotes kept, whatever the value holds but its own
    quote, stored as a C string -- that is, cut at the first NUL byte if
    it holds one; the text between the closing quote and the next comma
    is dropped.  The name followed by [=] and an unquoted value yields
    the value up to the next comma, without the spaces and tabs around
    it, as a C string.  A token without [=] yields a bare value under
    the empty key, as a C string, or nothing when it is blank.  In each
    case the lexer goes on after the comma. *)
Theorem attribute_list_grammar :
  (forall name q v junk rest,
      Forall (fun c => name_char c = true) name ->
      is_quote q = true ->
      Forall (fun c => (c =? q)%char = false) v ->
      Forall (fun c => is_comma c = false) junk -> at_separator rest ->
      lex (name ++ "="%char :: q :: v ++ q :: junk ++ rest)
      = {| attr_key := Some (normalize_attr_name name);
           attr_value := Some (c_str (q :: v ++ [q])) |} :: lex (tl rest))
  /\ (forall name v rest,
         Forall (fun c => name_char c = true) name ->
         Forall (fun c => is_comma c = false) v ->
         is_quote (peek (skip_blank v)) = false -> at_separator rest ->
         lex (name ++ "="%char :: v ++ rest)
         = {| attr_key := Some (normalize_attr_name name);
              attr_value := Some (c_str (strip v)) |} :: lex (tl rest))
  /\ (forall tok rest,
         Forall (fun c => (c =? "=")%char || is_comma c = false) tok ->
         at_separator rest ->
         lex (tok ++ rest)
         = (if is_nil (strip tok) then []
            else [ {| attr_key := Some [];
                      attr_value := Some (c_str (strip tok)) |} ])
           ++ lex (tl rest)).
Proof.
  split; [exact lex_quoted_c_str|].
  split; [exact lex_plain_c_str | exact lex_bare_c_str].
Qed.

Lemma attribute_list_grammar_witness :
  lex (lit "CODECS" ++ "="%char :: "034"%char :: lit "avc1,mp4a"
         ++ "034"%char :: lit " " ++ lit ",BANDWIDTH = 1280000 ")
  = {| attr_key := Some (lit "codecs");
       attr_value := Some ("034"%char :: lit "avc1,mp4a" ++ ["034"%char]) |}
    :: lex (lit "BANDWIDTH = 1280000 ").
Proof.
  apply (proj1 attribute_list_grammar (lit "CODECS") "034"%char
           (lit "avc1,mp4a") (lit " ") (lit ",BANDWIDTH = 1280000 "));
    try (repeat constructor; fail); try reflexivity.
  intros x r E. inversion E. reflexivity.
Defined.

Lemma quoted_both_ends q v :
  is_quote q = true -> quoted (q :: v ++ [q]) (length (q :: v ++ [q])) = true.
Proof.
  intros Hq. unfold quoted.
  assert (Hlast : nth (length (q :: v ++ [q]) - 1) (q :: v ++ [q]) NUL = q).
  { change (q :: v ++ [q]) with ((q :: v) ++ [q]).
    rewrite length_app, app_nth2 by (simpl; lia).
    replace (_ - _ - _) with 0 by (simpl; lia). reflexivity. }
  rewrite Hlast. cbn [nth].
  replace (2 <=? length (q :: v ++ [q])) with true
    by (symmetry; apply Nat.leb_le; simpl; rewrite length_app; simpl; lia).
  unfold is_quote in Hq. cbn [andb].
  destruct (q =? "034")%char; destruct (q =? "'")%char; auto.
Qed.

Lemma bytes_eqb_refl a : bytes_eqb a a = true.
Proof. now apply bytes_eqb_eq. Qed.

Lemma c_str_app_nul v x : has_nul v = true -> c_str (v ++ x) = c_str v.
Proof.
  unfold has_nul. induction v as [|c v IH]; [discriminate|].
  simpl. destruct (c =? NUL)%char; [reflexivity|].
  intros H. now rewrite IH.
Qed.

Lemma has_nul_false v : has_nul v = false -> no_nul v.
Proof.
  unfold has_nul, no_nul. induction v as [|c v IH]; [constructor|].
  simpl. intros H. apply orb_false_iff in H as [H1 H2]. constructor; auto.
Qed.

Lemma c_str_prefix v : exists x, v = c_str v ++ x.
Proof.
  induction v as [|c v [x IH]]; [now exists []|].
  simpl. destruct (c =? NUL)%char; [now exists (c :: v)|].
  exists x. simpl. now rewrite <- IH.
Qed.

(** A value cut before its closing quote is not enclosed in quotes. *)
Lemma not_quoted_open q w :
  is_quote q = true ->
  Forall (fun c => (c =? q)%char = false) w ->
  quoted (q :: w) (length (q :: w)) = false.
Proof.
  intros Hq Hw. unfold quoted.
  destruct w as [|c w]; [reflexivity|].
  assert (Hlast : (nth (length (q :: c :: w) - 1) (q :: c :: w) NUL =? q)%char
                  = false).
  { cbn [length]. rewrite Nat.sub_1_r. cbn [Nat.pred nth].
    rewrite Forall_forall in Hw. apply Hw.
    change (In (nth (length w) (c :: w) NUL) (c :: w)).
    apply nth_In. simpl. lia. }
  unfold is_quote in Hq. apply andb_false_intro2, orb_false_intro.
  - apply orb_true_iff in Hq as [Hq|Hq]; apply Ascii.eqb_eq in Hq; subst q;
      [apply andb_false_intro2; exact Hlast
      | apply andb_false_intro1; reflexivity].
  - apply orb_true_iff in Hq as [Hq|Hq]; apply Ascii.eqb_eq in Hq; subst q;
      [apply andb_false_intro1; reflexivity
      | apply andb_false_intro2; exact Hlast].
Qed.

(** X4. What is written between quotes is what the unquoted accessor
    returns, as long as it holds no NUL byte: after [NAME="value"] is
    lexed, [get_attr_str_unquoted] under the normalized name gives the
    value exactly -- commas, [=] signs and spaces included.  A value
    that holds a NUL byte is cut there when it is stored, so that no
    closing quote is found: the accessor then gives the opening quote
    followed by the bytes before the NUL.  [get_attr_str] gives the
    stored value, quotes included. *)
Theorem quoted_value_round_trip (name : bytes) (q : ascii) (v junk rest : bytes) :
  Forall (fun c => name_char c = true) name ->
  is_quote q = true ->
  Forall (fun c => (c =? q)%char = false) v ->
  Forall (fun c => is_comma c = false) junk -> at_separator rest ->
  let attrs := lex (name ++ "="%char :: q :: v ++ q :: junk ++ rest) in
  get_attr_str_unquoted attrs (normalize_attr_name name)
    = Some (if has_nul v then q :: c_str v else v)
  /\ get_attr_str attrs (normalize_attr_name name)
     = Some (c_str (q :: v ++ [q])).
Proof.
  intros Hn Hq Hv Hj Hr attrs. subst attrs.
  rewrite lex_quoted_c_str by assumption.
  unfold get_attr_str_unquoted, get_attr_str, get_attr, str_dup.
  cbn [attr_key attr_value]. unfold strcmp_eq. rewrite bytes_eqb_refl.
  split; [|reflexivity].
  destruct (is_quote_facts q Hq) as [_ Hqz].
  cbn [c_str]. rewrite Hqz.
  destruct (has_nul v) eqn:Ez.
  - rewrite (c_str_app_nul v [q] Ez).
    rewrite not_quoted_open; [reflexivity | exact Hq |].
    destruct (c_str_prefix v) as [x Hx]. rewrite Hx in Hv.
    now apply Forall_app in Hv.
  - apply has_nul_false in Ez.
    assert (Hz' : no_nul (v ++ [q])).
    { apply Forall_app. split; [exact Ez|]. constructor; [exact Hqz|constructor]. }
    rewrite (c_str_no_nul _ Hz').
    rewrite (quoted_both_ends q v Hq).
    unfold str_ndup. cbn [option_map skipn length].
    rewrite length_app. cbn [length].
    replace (S (length v + 1) - 2) with (length v) by lia.
    rewrite firstn_app, Nat.sub_diag, firstn_all. cbn [firstn].
    now rewrite app_nil_r, c_str_no_nul.
Qed.

Lemma quoted_value_round_trip_witness :
  let attrs :=
    lex (lit "URI" ++ "="%char :: "034"%char :: lit "k.bin?a=1,b=2"
           ++ "034"%char :: [] ++ lit ",IV=0x1") in
  get_attr_str_unquoted attrs (normalize_attr_name (lit "URI"))
    = Some (lit "k.bin?a=1,b=2")
  /\ get_attr_str attrs (normalize_attr_name (lit "URI"))
     = Some ("034"%char :: lit "k.bin?a=1,b=2" ++ ["034"%char]).
Proof.
  apply (quoted_value_round_trip (lit "URI") "034"%char (lit "k.bin?a=1,b=2")
           [] (lit ",IV=0x1"));
    try (repeat constructor; fail); try reflexivity.
  intros x r E. inversion E. reflexivity.
Defined.

(** A value with a NUL byte is cut there. *)
Example quoted_value_with_nul :
  let attrs :=
    lex (lit "URI" ++ "="%char :: "034"%char :: (lit "a" ++ NUL :: lit "b")
           ++ "034"%char :: [] ++ []) in
  get_attr_str_unquoted attrs (lit "uri") = Some ("034"%char :: lit "a").
Proof. vm_compute. reflexivity. Qed.

(** *** Normalized names *)

Lemma trim_end_map (f : ascii -> ascii) drop l :
  (forall c, drop (f c) = drop c) ->
  trim_end drop (map f l) = map f (trim_end drop l).
Proof.
  intros Hf. induction l as [|c l IH]; [reflexivity|].
  cbn [map]. rewrite !trim_end_cons, IH, Hf.
  destruct (trim_end drop l); [destruct (drop c)|]; reflexivity.
Qed.

Lemma trim_end_idem drop l :
  trim_end drop (trim_end drop l) = trim_end drop l.
Proof.
  induction l as [|c l IH]; [reflexivity|].
  rewrite trim_end_cons.
  destruct (trim_end drop l) as [|a l0] eqn:E.
  - destruct (drop c) eqn:D; [reflexivity|].
    rewrite trim_end_cons. cbn. now rewrite D.
  - rewrite trim_end_cons, IH. reflexivity.
Qed.

Lemma normalize_char_idem c :
  normalize_char (normalize_char c) = normalize_char c.
Proof. destruct c as [[] [] [] [] [] [] [] []]; reflexivity. Qed.

Lemma normalize_char_blank c : is_blank (normalize_char c) = is_blank c.
Proof. destruct c as [[] [] [] [] [] [] [] []]; reflexivity. Qed.

(** X5. Normalizing an attribute name twice is normalizing it once: a
    key taken from an attribute list can be looked up as it is. *)
Theorem normalize_attr_name_idempotent (name : bytes) :
  normalize_attr_name (normalize_attr_name name) = normalize_attr_name name.
Proof.
  unfold normalize_attr_name, rtrim. fold normalize_char.
  change (fun c : ascii => if (c =? "-")%char then "_"%char else tolower c)
    with normalize_char.
  rewrite (trim_end_map normalize_char is_blank (trim_end _ _)
             normalize_char_blank).
  rewrite trim_end_idem.
  rewrite <- (trim_end_map normalize_char is_blank _ normalize_char_blank).
  rewrite map_map. f_equal. apply map_ext. apply normalize_char_idem.
Qed.

(** ** The tags of the document *)

(** Routes a tag line to the handler of the prefix [H] says it has. *)
Ltac route H :=
  unfold process_line; rewrite (starts_with_hash _ _ _ H eq_refl);
  cbv beta zeta delta [dispatch_tag];
  other_tags H; rewrite ?H; cbn [andb negb].

(** A property of one line that every handler but those of the stated
    prefixes preserves. *)
Ltac frame_step :=
  match goal with
  | |- forall (c : Config) (l : Line), _ =>
      let h := fresh "h" in let d := fresh "d" in let st := fresh "st" in
      let cursor := fresh "cursor" in let len := fresh "len" in
      intros [[h d] st] [cursor len];
      unfold step, has_prefix; cbn [fst snd]; intros;
      apply process_line_cases;
      [ reflexivity
      | apply dispatch_tag_cases; try reflexivity; frame_case
      | frame_case | frame_case ]
  end.

(** A DISCONTINUITY-SEQUENCE line leaves the parser state and the
    segments alone. *)
Lemma process_discontinuity_sequence h d st line len :
  starts_with line len "#EXT-X-DISCONTINUITY-SEQUENCE" = true ->
  state_of (process_line (h, d, st) line len) = st
  /\ segments (data_of (process_line (h, d, st) line len)) = segments d.
Proof.
  intros H.
  destruct (starts_with line len "#EXT-X-DISCONTINUITY-SEQUENCE:") eqn:Hc.
  - route Hc. unfold handle_discontinuity_sequence. destruct d. now split.
  - route H. rewrite Hc. cbn [andb negb]. rewrite ?andb_false_r. now split.
Qed.

(** X6. A line that starts with [#EXT-X-DISCONTINUITY-SEQUENCE] never
    marks a discontinuity: followed by a colon it sets the discontinuity
    sequence number of the document, otherwise it is ignored; the parser
    state is left as it was. *)
Theorem discontinuity_sequence_is_not_discontinuity
    (h : Heap) (d : M3U8Data) (st : ParserState) (line : bytes) (len : nat) :
  starts_with line len "#EXT-X-DISCONTINUITY-SEQUENCE" = true ->
  process_line (h, d, st) line len
  = (h,
     (if starts_with line len "#EXT-X-DISCONTINUITY-SEQUENCE:"
      then set_discontinuity_sequence (strtoll (skipn 30 line)) d
      else d),
     st).
Proof.
  intros H.
  destruct (starts_with line len "#EXT-X-DISCONTINUITY-SEQUENCE:") eqn:Hc.
  - route Hc. reflexivity.
  - route H. rewrite Hc. cbn [andb negb]. rewrite ?andb_false_r. reflexivity.
Qed.

Lemma discontinuity_sequence_is_not_discontinuity_witness :
  process_line initial (lit "#EXT-X-DISCONTINUITY-SEQUENCE:7") 31
  = (empty_heap, set_discontinuity_sequence 7 zero_data, zero_state).
Proof.
  apply (discontinuity_sequence_is_not_discontinuity empty_heap zero_data
           zero_state (lit "#EXT-X-DISCONTINUITY-SEQUENCE:7") 31).
  reflexivity.
Defined.

(** *** Document-level flags and the program date time *)

Lemma step_endlist_other : forall c l,
  has_prefix "#EXT-X-ENDLIST" l = false ->
  is_endlist (data_of (step c l)) = is_endlist (data_of c).
Proof. frame_step. Qed.

Lemma step_i_frames_only_other : forall c l,
  has_prefix "#EXT-X-I-FRAMES-ONLY" l = false ->
  is_i_frames_only (data_of (step c l)) = is_i_frames_only (data_of c).
Proof. frame_step. Qed.

Lemma step_independent_segments_other : forall c l,
  has_prefix "#EXT-X-INDEPENDENT-SEGMENTS" l = false ->
  is_independent_segments (data_of (step c l))
  = is_independent_segments (data_of c).
Proof. frame_step. Qed.

Lemma step_images_only_other : forall c l,
  has_prefix "#EXT-X-IMAGES-ONLY" l = false ->
  is_images_only (data_of (step c l)) = is_images_only (data_of c).
Proof. frame_step. Qed.

Lemma step_variant_other : forall c l,
  has_prefix "#EXT-X-STREAM-INF:" l = false ->
  is_variant (data_of (step c l)) = is_variant (data_of c).
Proof. frame_step. Qed.

Lemma step_flag_tags c l :
  (has_prefix "#EXT-X-ENDLIST" l = true ->
   is_endlist (data_of (step c l)) = true)
  /\ (has_prefix "#EXT-X-I-FRAMES-ONLY" l = true ->
      is_i_frames_only (data_of (step c l)) = true)
  /\ (has_prefix "#EXT-X-INDEPENDENT-SEGMENTS" l = true ->
      is_independent_segments (data_of (step c l)) = true)
  /\ (has_prefix "#EXT-X-IMAGES-ONLY" l = true ->
      is_images_only (data_of (step c l)) = true)
  /\ (has_prefix "#EXT-X-STREAM-INF:" l = true ->
      is_variant (data_of (step c l)) = true).
Proof.
  destruct c as [[h d] st]; destruct l as [cursor len].
  unfold step, has_prefix. cbn [fst snd].
  repeat split; intros H; route H; clear H; frame_case.
Qed.

(** A flag that one tag sets and nothing clears is set exactly when the
    tag occurred. *)
Lemma flag_reflects_tag (flag : Config -> bool) (tag : Line -> bool) :
  flag initial = false ->
  (forall c l, tag l = false -> flag (step c l) = flag c) ->
  (forall c l, tag l = true -> flag (step c l) = true) ->
  forall ls, flag (run ls) = existsb tag ls.
Proof.
  intros H0 Hother Htag ls.
  induction ls as [|l ls IH] using rev_ind; [exact H0|].
  rewrite run_snoc, existsb_app. cbn [existsb]. rewrite orb_false_r.
  destruct (tag l) eqn:E.
  - rewrite Htag by assumption. now rewrite orb_true_r.
  - rewrite Hother by assumption. now rewrite IH, orb_false_r.
Qed.

(** X7. The flags of the document say which tags occurred: each of
    [is_endlist], [is_i_frames_only], [is_independent_segments],
    [is_images_only] and [is_variant] is set if and only if some line
    starts with the prefix of its tag -- whatever the line goes on with
    -- and nothing ever clears it. *)
Theorem document_flags_reflect_tags (ls : list Line) :
  let d := data_of (run ls) in
  is_endlist d = existsb (has_prefix "#EXT-X-ENDLIST") ls
  /\ is_i_frames_only d = existsb (has_prefix "#EXT-X-I-FRAMES-ONLY") ls
  /\ is_independent_segments d
     = existsb (has_prefix "#EXT-X-INDEPENDENT-SEGMENTS") ls
  /\ is_images_only d = existsb (has_prefix "#EXT-X-IMAGES-ONLY") ls
  /\ is_variant d = existsb (has_prefix "#EXT-X-STREAM-INF:") ls.
Proof.
  cbv zeta. repeat split.
  - apply (flag_reflects_tag (fun c => is_endlist (data_of c)));
      [reflexivity | apply step_endlist_other | apply step_flag_tags].
  - apply (flag_reflects_tag (fun c => is_i_frames_only (data_of c)));
      [reflexivity | apply step_i_frames_only_other | apply step_flag_tags].
  - apply (flag_reflects_tag (fun c => is_independent_segments (data_of c)));
      [reflexivity | apply step_independent_segments_other
      | apply step_flag_tags].
  - apply (flag_reflects_tag (fun c => is_images_only (data_of c)));
      [reflexivity | apply step_images_only_other | apply step_flag_tags].
  - apply (flag_reflects_tag (fun c => is_variant (data_of c)));
      [reflexivity | apply step_variant_other | apply step_flag_tags].
Qed.

Lemma step_media_sequence_other : forall c l,
  has_prefix "#EXT-X-MEDIA-SEQUENCE:" l = false ->
  media_sequence (data_of (step c l)) = media_sequence (data_of c).
Proof. frame_step. Qed.

Lemma step_has_media_sequence_other : forall c l,
  has_prefix "#EXT-X-MEDIA-SEQUENCE:" l = false ->
  has_media_sequence (data_of c) = false ->
  has_media_sequence (data_of (step c l)) = false.
Proof.
  intros [[h d] st] [cursor len].
  unfold step, has_prefix; cbn [fst snd]; intros Hno H0.
  apply process_line_cases;
    [ exact H0
    | apply dispatch_tag_cases; try exact H0; revert H0; frame_case
    | revert H0; frame_case | revert H0; frame_case ].
Qed.

Lemma step_stream_inf_media_sequence c l :
  has_prefix "#EXT-X-STREAM-INF:" l = true ->
  has_media_sequence (data_of (step c l)) = false
  /\ media_sequence (data_of (step c l)) = media_sequence (data_of c).
Proof.
  destruct c as [[h d] st]; destruct l as [cursor len].
  unfold step, has_prefix. cbn [fst snd]. intros H.
  rewrite (process_stream_inf _ _ _ _ _ H).
  unfold handle_stream_inf, data_of. destruct d. split; reflexivity.
Qed.

(** X8. A STREAM-INF tag withdraws the media sequence flag: when no
    MEDIA-SEQUENCE tag follows the last STREAM-INF tag,
    [has_media_sequence] is false in the end, whatever came before,
    while the number itself stays as the earlier lines left it. *)
Theorem stream_inf_clears_has_media_sequence
    (pre post : list Line) (tag : Line) :
  has_prefix "#EXT-X-STREAM-INF:" tag = true ->
  Forall (fun l => has_prefix "#EXT-X-MEDIA-SEQUENCE:" l = false) post ->
  has_media_sequence (data_of (run (pre ++ tag :: post))) = false
  /\ media_sequence (data_of (run (pre ++ tag :: post)))
     = media_sequence (data_of (run pre)).
Proof.
  intros Htag Hpost.
  change (pre ++ tag :: post) with (pre ++ [tag] ++ post).
  rewrite app_assoc, run_app, run_snoc.
  destruct (step_stream_inf_media_sequence (run pre) tag Htag) as [H1 H2].
  revert H1 H2. generalize (step (run pre) tag). intros c H1 H2.
  rewrite <- H2. clear H2. revert c H1.
  induction Hpost as [|l post Hl Hpost IH]; intros c H1; [now split|].
  simpl run_from. destruct (IH (step c l)) as [A B].
  { now apply step_has_media_sequence_other. }
  split; [exact A|]. rewrite B. now apply step_media_sequence_other.
Qed.

Lemma stream_inf_clears_has_media_sequence_witness :
  let pre := [(lit "#EXT-X-MEDIA-SEQUENCE:42", 25)] in
  let tag := (lit "#EXT-X-STREAM-INF:BANDWIDTH=1", 29) in
  let post := [(lit "v.m3u8", 6)] in
  has_media_sequence (data_of (run pre)) = true
  /\ media_sequence (data_of (run pre)) = 42%Z
  /\ has_media_sequence (data_of (run (pre ++ tag :: post))) = false
  /\ media_sequence (data_of (run (pre ++ tag :: post)))
     = media_sequence (data_of (run pre)).
Proof.
  split; [reflexivity|]. split; [vm_compute; reflexivity|].
  apply (stream_inf_clears_has_media_sequence
           [(lit "#EXT-X-MEDIA-SEQUENCE:42", 25)]
           [(lit "v.m3u8", 6)]
           (lit "#EXT-X-STREAM-INF:BANDWIDTH=1", 29)).
  - reflexivity.
  - repeat constructor.
Defined.

Lemma step_data_pdt_other : forall c l,
  has_prefix "#EXT-X-PROGRAM-DATE-TIME:" l = false ->
  data_program_date_time (data_of (step c l))
  = data_program_date_time (data_of c).
Proof. frame_step. Qed.

Lemma step_pdt_tag c l :
  has_prefix "#EXT-X-PROGRAM-DATE-TIME:" l = true ->
  data_program_date_time (data_of (step c l))
  = match data_program_date_time (data_of c) with
    | None => program_date_time_of_tag l
    | Some t => Some t
    end
  /\ program_date_time (state_of (step c l)) = program_date_time_of_tag l.
Proof.
  destruct c as [[h d] st]; destruct l as [cursor len].
  unfold step, has_prefix, program_date_time_of_tag. cbn [fst snd]. intros H.
  route H. unfold handle_program_date_time, data_of, state_of.
  destruct (data_program_date_time d) eqn:E; destruct d, st; rsimpl;
    rewrite ?E; split; reflexivity.
Qed.

Lemma program_date_time_of_tag_some l :
  exists t, program_date_time_of_tag l = Some t.
Proof. unfold program_date_time_of_tag, str_ndup. simpl. eauto. Qed.

Lemma run_from_keeps_data_pdt ls : forall c t,
  data_program_date_time (data_of c) = Some t ->
  data_program_date_time (data_of (run_from c ls)) = Some t.
Proof.
  induction ls as [|l ls IH]; intros c t H; [exact H|].
  simpl. apply IH.
  destruct (has_prefix "#EXT-X-PROGRAM-DATE-TIME:" l) eqn:E.
  - destruct (step_pdt_tag c l E) as [-> _]. now rewrite H.
  - now rewrite step_data_pdt_other.
Qed.

Lemma run_without_pdt ls :
  Forall (fun l => has_prefix "#EXT-X-PROGRAM-DATE-TIME:" l = false) ls ->
  data_program_date_time (data_of (run ls)) = None.
Proof.
  induction ls as [|l ls IH] using rev_ind; intros H; [reflexivity|].
  apply Forall_app in H as [H1 H2]. apply Forall_inv in H2.
  rewrite run_snoc, step_data_pdt_other by assumption. auto.
Qed.

(** X9. The program date time of the document is that of the first
    PROGRAM-DATE-TIME tag: the value is taken when the field is still
    NULL, and no later line changes it. *)
Theorem document_program_date_time_is_first
    (pre post : list Line) (tag : Line) :
  Forall (fun l => has_prefix "#EXT-X-PROGRAM-DATE-TIME:" l = false) pre ->
  has_prefix "#EXT-X-PROGRAM-DATE-TIME:" tag = true ->
  data_program_date_time (data_of (run (pre ++ tag :: post)))
  = program_date_time_of_tag tag.
Proof.
  intros Hpre Htag.
  change (pre ++ tag :: post) with (pre ++ [tag] ++ post).
  rewrite app_assoc, run_app, run_snoc.
  destruct (program_date_time_of_tag_some tag) as [t Ht].
  rewrite Ht. apply run_from_keeps_data_pdt.
  destruct (step_pdt_tag (run pre) tag Htag) as [-> _].
  now rewrite (run_without_pdt pre Hpre).
Qed.

Lemma document_program_date_time_is_first_witness :
  let pre := [(lit "#EXTM3U", 7)] in
  let tag := (lit "#EXT-X-PROGRAM-DATE-TIME: 2024-01-01T00:00:00Z", 46) in
  let post := [(lit "#EXT-X-PROGRAM-DATE-TIME:2024-01-01T00:00:06Z", 45)] in
  data_program_date_time (data_of (run (pre ++ tag :: post)))
  = Some (lit "2024-01-01T00:00:00Z").
Proof.
  apply (document_program_date_time_is_first
           [(lit "#EXTM3U", 7)]
           [(lit "#EXT-X-PROGRAM-DATE-TIME:2024-01-01T00:00:06Z", 45)]
           (lit "#EXT-X-PROGRAM-DATE-TIME: 2024-01-01T00:00:00Z", 46)).
  - repeat constructor.
  - reflexivity.
Defined.

(** ** Segments, keys and variants *)

(** *** The segments of the document *)

Lemma m3u8_parse_some content h d :
  m3u8_parse (Some content) = Some (h, d) ->
  h = heap_of (finish (run (lines_of content)))
  /\ d = data_of (finish (run (lines_of content))).
Proof.
  destruct content as [|x content]; [discriminate|].
  unfold m3u8_parse. rewrite m3u8_parse_run_lines. cbn [option_map].
  intros E. inversion E as [E'].
  unfold heap_of, data_of. rewrite E'. split; reflexivity.
Qed.

Lemma step_segments_have_uri c l :
  Forall (fun s => seg_uri s <> None) (segments (data_of c)) ->
  Forall (fun s => seg_uri s <> None) (segments (data_of (step c l))).
Proof.
  intros H.
  destruct (step_segments c l) as [-> | (Hp & He & _)]; [exact H|].
  destruct c as [[h d] st]; destruct l as [cursor len].
  unfold step, state_of, data_of in *. cbn [fst snd] in *.
  rewrite process_uri_segment by assumption.
  destruct (finalize_segment_effect d st cursor len) as (seg & Hs & Hu & _).
  unfold with_heap. cbn [fst snd]. rewrite Hs.
  apply Forall_app. split; [exact H|]. constructor; [|constructor].
  rewrite Hu. discriminate.
Qed.

Lemma run_segments_have_uri ls :
  Forall (fun s => seg_uri s <> None) (segments (data_of (run ls))).
Proof.
  induction ls as [|l ls IH] using rev_ind; [constructor|].
  rewrite run_snoc. now apply step_segments_have_uri.
Qed.

Lemma finish_segments c :
  segments (data_of (finish c))
  = segments (data_of c)
    ++ match current_segment (state_of c) with Some s => [s] | None => [] end.
Proof.
  destruct c as [[h d] st]. unfold finish, data_of, state_of. cbn [fst snd].
  destruct (current_segment st); destruct d; rsimpl;
    [reflexivity | now rewrite app_nil_r].
Qed.

(** X10. Only the last segment of a document can lack its URI.  The
    segments of the returned document are those a URI line finalized,
    each with a URI, followed by at most one more: the segment still
    under construction when the input ended, whose URI is NULL. *)
Theorem only_last_segment_lacks_uri
    (content : bytes) (h : Heap) (d : M3U8Data) :
  m3u8_parse (Some content) = Some (h, d) ->
  exists finalized remnant,
    segments d = finalized ++ remnant
    /\ Forall (fun s => seg_uri s <> None) finalized
    /\ (remnant = [] \/ exists s, remnant = [s] /\ seg_uri s = None).
Proof.
  intros H. apply m3u8_parse_some in H as [_ ->].
  set (ls := lines_of content).
  exists (segments (data_of (run ls))).
  eexists. split; [apply finish_segments|].
  split; [apply run_segments_have_uri|].
  pose proof (run_pending_ok ls) as Hp. unfold pending_ok in Hp.
  destruct (current_segment (state_of (run ls))) as [s|]; [right | now left].
  exists s. split; [reflexivity|]. now destruct (Hp s eq_refl).
Qed.

Lemma only_last_segment_lacks_uri_witness :
  exists finalized remnant,
    parsed_segments ["#EXTINF:4,"; "a.ts"; "#EXTINF:4,"]%string
      = finalized ++ remnant
    /\ Forall (fun s => seg_uri s <> None) finalized
    /\ (remnant = [] \/ exists s, remnant = [s] /\ seg_uri s = None).
Proof.
  unfold parsed_segments.
  destruct (m3u8_parse (Some (text ["#EXTINF:4,"; "a.ts"; "#EXTINF:4,"]%string)))
    as [[h d]|] eqn:E; [|discriminate].
  exact (only_last_segment_lacks_uri _ h d E).
Defined.

(** *** The Key and Map objects of the document *)

Lemma step_session_key_tag c l :
  is_session_key_tag l = true ->
  let a := length (heap_keys (heap_of c)) in
  heap_keys (heap_of (step c l)) = heap_keys (heap_of c) ++ [session_key_of_tag l]
  /\ session_keys (data_of (step c l)) = session_keys (data_of c) ++ [a]
  /\ keys (data_of (step c l)) = keys (data_of c)
  /\ current_key (state_of (step c l)) = current_key (state_of c).
Proof.
  destruct c as [[h d] st]; destruct l as [cursor len].
  unfold step, is_session_key_tag, has_prefix, session_key_of_tag.
  cbn [fst snd]. intros H. route H. clear.
  unfold data_of, state_of, heap_of. handler_crush. repeat split.
Qed.

Lemma step_key_tag_frame c l :
  is_key_tag l = true ->
  session_keys (data_of (step c l)) = session_keys (data_of c).
Proof.
  destruct c as [[h d] st]; destruct l as [cursor len].
  unfold step, is_key_tag. cbn [fst snd]. intros H. route H. clear.
  frame_case.
Qed.

Lemma step_keys_other : forall c l,
  is_key_tag l = false -> is_session_key_tag l = false ->
  heap_keys (heap_of (step c l)) = heap_keys (heap_of c)
  /\ keys (data_of (step c l)) = keys (data_of c)
  /\ session_keys (data_of (step c l)) = session_keys (data_of c).
Proof.
  intros [[h d] st] [cursor len].
  unfold step, is_key_tag, is_session_key_tag, has_prefix; cbn [fst snd].
  intros H1 H2.
  apply process_line_cases;
    [ repeat split
    | apply dispatch_tag_cases; try (repeat split; fail); intros
    | intros | intros ];
    try congruence;
    unfold data_of, state_of, heap_of; handler_crush; repeat split.
Qed.

Lemma step_maps_other : forall c l,
  is_map_tag l = false ->
  heap_maps (heap_of (step c l)) = heap_maps (heap_of c)
  /\ segment_map (data_of (step c l)) = segment_map (data_of c).
Proof.
  intros [[h d] st] [cursor len].
  unfold step, is_map_tag; cbn [fst snd]. intros H1.
  apply process_line_cases;
    [ repeat split
    | apply dispatch_tag_cases; try (repeat split; fail); intros
    | intros | intros ];
    try congruence;
    unfold data_of, state_of, heap_of; handler_crush; repeat split.
Qed.

(** Looking up valid addresses in a store that grew. *)
Lemma map_nth_error_app {A : Type} (heap new : list A) (addrs : list addr) :
  Forall (fun a => a < length heap) addrs ->
  map (fun a : addr => nth_error (heap ++ new) a) addrs
  = map (fun a : addr => nth_error heap a) addrs.
Proof.
  induction 1 as [|a addrs Ha _ IH]; [reflexivity|].
  cbn [map]. rewrite IH, nth_error_app1 by assumption. reflexivity.
Qed.

Lemma Forall_lt_app (n : nat) (addrs : list nat) :
  Forall (fun a => a < n) addrs -> Forall (fun a => a < n + 1) addrs.
Proof. apply Forall_impl. intros; lia. Qed.

Lemma nth_error_new {A : Type} (heap : list A) (x : A) :
  nth_error (heap ++ [x]) (length heap) = Some x.
Proof. rewrite nth_error_app2, Nat.sub_diag by lia. reflexivity. Qed.

(** The addresses the document holds are those of the objects the tags
    created, in the order of the tags. *)
Lemma run_keys ls :
  let c := run ls in
  (map (key_at (heap_of c)) (keys (data_of c))
   = map (fun l => Some (key_of_tag l)) (filter is_key_tag ls)
   /\ Forall (fun a => a < length (heap_keys (heap_of c))) (keys (data_of c)))
  /\ (map (key_at (heap_of c)) (session_keys (data_of c))
      = map (fun l => Some (session_key_of_tag l))
            (filter is_session_key_tag ls)
      /\ Forall (fun a => a < length (heap_keys (heap_of c)))
                (session_keys (data_of c))).
Proof.
  cbv zeta. unfold key_at.
  induction ls as [|l ls IH] using rev_ind.
  { repeat split; constructor. }
  destruct IH as [[K1 K2] [S1 S2]].
  rewrite run_snoc, !filter_app, !map_app. cbn [filter].
  destruct (is_key_tag l) eqn:Ek.
  - assert (Es : is_session_key_tag l = false).
    { unfold is_session_key_tag, has_prefix. unfold is_key_tag in Ek.
      apply (starts_with_other _ _ "#EXT-X-KEY:" "#EXT-X-SESSION-KEY:");
        [reflexivity | exact Ek]. }
    rewrite Es.
    destruct (step_key_tag (run ls) l Ek) as (Hh & Hk & _).
    rewrite (step_key_tag_frame _ _ Ek), Hh, Hk, length_app. cbn [length map].
    rewrite map_app. cbn [map]. rewrite nth_error_new.
    rewrite !map_nth_error_app by assumption.
    rewrite K1, S1, app_nil_r.
    repeat split; try reflexivity.
    + apply Forall_app. split; [now apply Forall_lt_app|].
      constructor; [lia | constructor].
    + now apply Forall_lt_app.
  - destruct (is_session_key_tag l) eqn:Es.
    + destruct (step_session_key_tag (run ls) l Es) as (Hh & Hs & Hk & _).
      rewrite Hh, Hs, Hk, length_app. cbn [length map].
      rewrite map_app. cbn [map]. rewrite nth_error_new.
      rewrite !map_nth_error_app by assumption.
      rewrite K1, S1, app_nil_r.
      repeat split; try reflexivity.
      * now apply Forall_lt_app.
      * apply Forall_app. split; [now apply Forall_lt_app|].
        constructor; [lia | constructor].
    + destruct (step_keys_other (run ls) l Ek Es) as (-> & -> & ->).
      rewrite K1, S1, !app_nil_r. repeat split; assumption.
Qed.

Lemma run_maps ls :
  let c := run ls in
  map (map_at (heap_of c)) (segment_map (data_of c))
  = map (fun l => Some (map_of_tag l)) (filter is_map_tag ls)
  /\ Forall (fun a => a < length (heap_maps (heap_of c)))
            (segment_map (data_of c)).
Proof.
  cbv zeta. unfold map_at.
  induction ls as [|l ls IH] using rev_ind.
  { repeat split; constructor. }
  destruct IH as [M1 M2].
  rewrite run_snoc, !filter_app, !map_app. cbn [filter].
  destruct (is_map_tag l) eqn:Em.
  - destruct (step_map_tag (run ls) l Em) as (Hh & Hm & _).
    rewrite Hh, Hm, length_app. cbn [length map].
    rewrite map_app. cbn [map]. rewrite nth_error_new.
    rewrite !map_nth_error_app by assumption.
    rewrite M1. split; [reflexivity|].
    apply Forall_app. split; [now apply Forall_lt_app|].
    constructor; [lia | constructor].
  - destruct (step_maps_other (run ls) l Em) as (-> & ->).
    rewrite M1, !app_nil_r. split; [reflexivity | assumption].
Qed.

Lemma finish_frame c :
  heap_of (finish c) = heap_of c
  /\ keys (data_of (finish c)) = keys (data_of c)
  /\ session_keys (data_of (finish c)) = session_keys (data_of c)
  /\ segment_map (data_of (finish c)) = segment_map (data_of c).
Proof.
  destruct c as [[h d] st]. unfold finish, heap_of, data_of. cbn [fst snd].
  destruct (current_segment st); destruct d; repeat split.
Qed.

(** X11. The keys, the session keys and the maps of a document are the
    objects its tags created, one for each tag, in the order of the tags
    and never merged: the addresses in [keys] lead to the Key objects of
    the KEY tags, those in [session_keys] to the Key objects of the
    SESSION-KEY tags, those in [segment_map] to the Map objects of the
    MAP tags, and every one of them is an address of the store. *)
Theorem keys_and_maps_follow_their_tags
    (content : bytes) (h : Heap) (d : M3U8Data) :
  m3u8_parse (Some content) = Some (h, d) ->
  map (key_at h) (keys d)
    = map (fun l => Some (key_of_tag l))
          (filter is_key_tag (lines_of content))
  /\ map (key_at h) (session_keys d)
     = map (fun l => Some (session_key_of_tag l))
           (filter is_session_key_tag (lines_of content))
  /\ map (map_at h) (segment_map d)
     = map (fun l => Some (map_of_tag l))
           (filter is_map_tag (lines_of content)).
Proof.
  intros H. apply m3u8_parse_some in H as [-> ->].
  destruct (finish_frame (run (lines_of content))) as (-> & -> & -> & ->).
  destruct (run_keys (lines_of content)) as [[K _] [S _]].
  destruct (run_maps (lines_of content)) as [M _].
  auto.
Qed.

Lemma keys_and_maps_follow_their_tags_witness :
  let content :=
    text ["#EXT-X-SESSION-KEY:METHOD=AES-128"; "#EXT-X-KEY:METHOD=NONE";
          "#EXT-X-MAP:URI=init.mp4"; "#EXT-X-KEY:METHOD=NONE"]%string in
  exists h d,
    m3u8_parse (Some content) = Some (h, d)
    /\ map (key_at h) (keys d)
       = map (fun l => Some (key_of_tag l))
             (filter is_key_tag (lines_of content))
    /\ map (key_at h) (session_keys d)
       = map (fun l => Some (session_key_of_tag l))
             (filter is_session_key_tag (lines_of content))
    /\ map (map_at h) (segment_map d)
       = map (fun l => Some (map_of_tag l))
             (filter is_map_tag (lines_of content)).
Proof.
  cbv zeta.
  destruct (m3u8_parse
              (Some (text ["#EXT-X-SESSION-KEY:METHOD=AES-128";
                           "#EXT-X-KEY:METHOD=NONE";
                           "#EXT-X-MAP:URI=init.mp4";
                           "#EXT-X-KEY:METHOD=NONE"]%string)))
    as [[h d]|] eqn:E; [|discriminate E].
  exists h, d. split; [reflexivity|].
  exact (keys_and_maps_follow_their_tags _ h d E).
Defined.

(** *** Variant playlists *)

Lemma step_playlists_stream_inf c l :
  has_prefix "#EXT-X-STREAM-INF:" l = true ->
  playlists (data_of (step c l)) = playlists (data_of c)
  /\ expect_playlist (state_of (step c l)) = true.
Proof.
  destruct c as [[h d] st]; destruct l as [cursor len].
  unfold step, has_prefix. cbn [fst snd]. intros H.
  rewrite (process_stream_inf _ _ _ _ _ H).
  unfold handle_stream_inf, data_of, state_of. destruct d, st. split; reflexivity.
Qed.

Lemma step_playlists_other : forall c l,
  has_prefix "#EXT-X-STREAM-INF:" l = false ->
  (playlists (data_of (step c l)) = playlists (data_of c)
   /\ expect_playlist (state_of (step c l)) = expect_playlist (state_of c))
  \/ (expect_playlist (state_of c) = true
      /\ expect_playlist (state_of (step c l)) = false
      /\ (playlists (data_of (step c l)) = playlists (data_of c)
          \/ exists pl,
               playlists (data_of (step c l)) = playlists (data_of c) ++ [pl]
               /\ pl_uri pl = str_ndup (Some (fst l)) (snd l))).
Proof.
  intros [[h d] st] [cursor len].
  unfold step, has_prefix; cbn [fst snd]. intros Hno.
  apply process_line_cases.
  - left. split; reflexivity.
  - left. apply dispatch_tag_cases; try (split; reflexivity); intros;
      try congruence;
      unfold data_of, state_of; handler_crush; split; reflexivity.
  - intros _. left. unfold data_of, state_of. handler_crush; split; reflexivity.
  - intros _ He. right. unfold data_of, state_of. cbn [fst snd].
    split; [exact He|].
    unfold finalize_playlist, with_heap. cbn [fst snd].
    destruct (is_nil (stream_info st)); destruct d, st; rsimpl.
    + split; [reflexivity|]. now left.
    + split; [reflexivity|]. right. eexists. split; reflexivity.
Qed.

Lemma run_playlists ls :
  length (playlists (data_of (run ls)))
  + (if expect_playlist (state_of (run ls)) then 1 else 0)
  <= length (filter (has_prefix "#EXT-X-STREAM-INF:") ls)
  /\ Forall (fun p => pl_uri p <> None) (playlists (data_of (run ls))).
Proof.
  induction ls as [|l ls [IH1 IH2]] using rev_ind.
  { split; [simpl; lia | constructor]. }
  rewrite run_snoc, filter_app, length_app. cbn [filter].
  destruct (has_prefix "#EXT-X-STREAM-INF:" l) eqn:E.
  - destruct (step_playlists_stream_inf (run ls) l E) as [-> ->].
    split; [|exact IH2]. cbn [length].
    destruct (expect_playlist (state_of (run ls))); lia.
  - cbn [length].
    destruct (step_playlists_other (run ls) l E)
      as [[-> ->] | (He & -> & [-> | (pl & -> & Hu)])].
    + split; [lia | exact IH2].
    + rewrite He in IH1. split; [lia | exact IH2].
    + rewrite He in IH1. rewrite length_app. cbn [length]. split; [lia|].
      apply Forall_app. split; [exact IH2|].
      constructor; [|constructor]. rewrite Hu. discriminate.
Qed.

(** X12. No variant without a STREAM-INF tag: a document lists at most as
    many variants as its lines hold STREAM-INF tags -- a tag yields one
    variant at most, however many URI lines follow it -- and every
    variant carries a URI. *)
Theorem variants_bounded_by_stream_inf_tags (ls : list Line) :
  length (playlists (data_of (run ls)))
  <= length (filter (has_prefix "#EXT-X-STREAM-INF:") ls)
  /\ Forall (fun p => pl_uri p <> None) (playlists (data_of (run ls))).
Proof.
  destruct (run_playlists ls) as [H1 H2]. split; [lia | exact H2].
Qed.

(** ** From tags to segments *)

(** *** The one-shot flags of a segment *)

Lemma no_colon_prefix line len :
  starts_with line len "#EXT-X-DISCONTINUITY-SEQUENCE" = false ->
  starts_with line len "#EXT-X-DISCONTINUITY-SEQUENCE:" = false.
Proof.
  intros H. destruct (starts_with line len "#EXT-X-DISCONTINUITY-SEQUENCE:") eqn:E;
    [|reflexivity].
  rewrite (starts_with_prefix _ _ _ "#EXT-X-DISCONTINUITY-SEQUENCE" E eq_refl) in H.
  discriminate.
Qed.

(** What a tag line does to the one-shot flags: it appends no segment,
    and it sets a flag exactly when it is the tag of the flag. *)
Lemma step_tag_line_flags c l :
  is_tag_line l = true ->
  segments (data_of (step c l)) = segments (data_of c)
  /\ discontinuity (state_of (step c l))
     = discontinuity (state_of c) || is_discontinuity_tag l
  /\ cue_in (state_of (step c l))
     = cue_in (state_of c) || has_prefix "#EXT-X-CUE-IN" l.
Proof.
  destruct c as [[h d] st]; destruct l as [cursor len].
  unfold is_tag_line, is_discontinuity_tag, has_prefix, step. cbn [fst snd].
  intros Htag.
  destruct (starts_with cursor len "#EXT-X-DISCONTINUITY-SEQUENCE") eqn:Hseq.
  { destruct (process_discontinuity_sequence h d st _ _ Hseq) as [Hst Hsegs].
    assert (E : starts_with cursor len "#EXT-X-CUE-IN" = false)
      by (apply (starts_with_other _ _ "#EXT-X-DISCONTINUITY-SEQUENCE");
          [reflexivity | exact Hseq]).
    rewrite E, andb_false_r, !orb_false_r, Hst, Hsegs. repeat split. }
  pose proof (no_colon_prefix _ _ Hseq) as Hcolon.
  destruct (starts_with cursor len "#EXT-X-DISCONTINUITY") eqn:Hd.
  { assert (E : starts_with cursor len "#EXT-X-CUE-IN" = false)
      by (apply (starts_with_other _ _ "#EXT-X-DISCONTINUITY");
          [reflexivity | exact Hd]).
    rewrite E. route Hd. rewrite Hcolon, Hseq. cbn [andb negb].
    unfold data_of, state_of, handle_discontinuity. destruct st; rsimpl.
    rewrite !orb_true_r, orb_false_r. repeat split. }
  cbn [andb]. rewrite orb_false_r.
  destruct (starts_with cursor len "#EXT-X-CUE-IN") eqn:Hc.
  { route Hc. unfold data_of, state_of, handle_cue_in. destruct st; rsimpl.
    rewrite orb_true_r. repeat split. }
  rewrite orb_false_r.
  unfold process_line. rewrite Htag.
  apply dispatch_tag_cases; try (repeat split; fail); intros; try congruence;
    unfold data_of, state_of; handler_crush; repeat split.
Qed.

Lemma run_tag_lines_flags mid : forall c,
  Forall (fun l => is_tag_line l = true) mid ->
  segments (data_of (run_from c mid)) = segments (data_of c)
  /\ discontinuity (state_of (run_from c mid))
     = discontinuity (state_of c) || existsb is_discontinuity_tag mid
  /\ cue_in (state_of (run_from c mid))
     = cue_in (state_of c) || existsb (has_prefix "#EXT-X-CUE-IN") mid.
Proof.
  induction mid as [|l mid IH]; intros c H.
  { simpl. rewrite !orb_false_r. repeat split. }
  apply Forall_cons_iff in H as [Hl H].
  destruct (step_tag_line_flags c l Hl) as (S1 & D1 & C1).
  destruct (IH (step c l) H) as (S2 & D2 & C2).
  simpl run_from. cbn [existsb].
  rewrite S2, D2, C2, S1, D1, C1, !orb_assoc. repeat split.
Qed.

Lemma finalize_segment_flags d st uri uri_len :
  exists seg,
    segments (fst (finalize_segment d st uri uri_len)) = segments d ++ [seg]
    /\ seg_discontinuity seg = discontinuity st
    /\ seg_cue_in seg = cue_in st
    /\ seg_gap_tag seg = gap st
    /\ discontinuity (snd (finalize_segment d st uri uri_len)) = false
    /\ cue_in (snd (finalize_segment d st uri uri_len)) = false
    /\ gap (snd (finalize_segment d st uri uri_len)) = false
    /\ blackout (snd (finalize_segment d st uri uri_len)) = None
    /\ program_date_time (snd (finalize_segment d st uri uri_len)) = None
    /\ expect_segment (snd (finalize_segment d st uri uri_len)) = false.
Proof.
  unfold finalize_segment. destruct d, st. rsimpl.
  eexists. split; [reflexivity|]. rsimpl.
  match goal with |- context [if ?b then _ else _] => destruct b end;
    rsimpl; repeat split.
Qed.

(** X13. The discontinuity and cue-in marks are one-shot.  When a URI line
    finalizes a segment after a run of tag lines, the segment is marked
    as a discontinuity exactly when the mark was pending before the run
    or a DISCONTINUITY tag occurs in it (a DISCONTINUITY-SEQUENCE tag
    does not count), and as a cue-in exactly when that mark was pending
    or a CUE-IN tag occurs in the run; after the URI line neither mark is
    pending, so that the next segment is marked only by tags of its own. *)
Theorem one_shot_marks_go_to_next_segment
    (c : Config) (mid : list Line) (uri : bytes) (uri_len : nat) :
  Forall (fun l => is_tag_line l = true) mid ->
  (peek uri =? "#")%char = false ->
  expect_segment (state_of (run_from c mid)) = true ->
  let c' := run_from c (mid ++ [(uri, uri_len)]) in
  exists seg,
    segments (data_of c') = segments (data_of c) ++ [seg]
    /\ seg_discontinuity seg
       = discontinuity (state_of c) || existsb is_discontinuity_tag mid
    /\ seg_cue_in seg
       = cue_in (state_of c) || existsb (has_prefix "#EXT-X-CUE-IN") mid
    /\ discontinuity (state_of c') = false
    /\ cue_in (state_of c') = false.
Proof.
  intros Hmid Huri He. cbv zeta.
  rewrite run_from_app. simpl run_from.
  destruct (run_tag_lines_flags mid c Hmid) as (S1 & D1 & C1).
  destruct (run_from c mid) as [[h d] st] eqn:E.
  unfold step, state_of, data_of in *. cbn [fst snd] in *.
  rewrite process_uri_segment by assumption.
  destruct (finalize_segment_flags d st uri uri_len)
    as (seg & Hs & Hd & Hc & _ & Hd' & Hc' & _).
  exists seg. unfold with_heap. cbn [fst snd].
  rewrite Hs, S1, Hd, Hc, D1, C1. repeat split; assumption.
Qed.

Lemma one_shot_marks_go_to_next_segment_witness :
  let mid := [(lit "#EXT-X-DISCONTINUITY-SEQUENCE:3", 31);
              (lit "#EXTINF:4,", 10); (lit "#EXT-X-CUE-IN", 13)] in
  let c' := run_from initial (mid ++ [(lit "a.ts", 4)]) in
  exists seg,
    segments (data_of c') = segments (data_of initial) ++ [seg]
    /\ seg_discontinuity seg
       = discontinuity (state_of initial) || existsb is_discontinuity_tag mid
    /\ seg_cue_in seg
       = cue_in (state_of initial) || existsb (has_prefix "#EXT-X-CUE-IN") mid
    /\ discontinuity (state_of c') = false
    /\ cue_in (state_of c') = false.
Proof.
  apply (one_shot_marks_go_to_next_segment initial
           [(lit "#EXT-X-DISCONTINUITY-SEQUENCE:3", 31);
            (lit "#EXTINF:4,", 10); (lit "#EXT-X-CUE-IN", 13)]
           (lit "a.ts") 4).
  - repeat constructor.
  - reflexivity.
  - vm_compute. reflexivity.
Defined.

(** *** What makes a URI line a segment *)

Lemma step_expect_segment_other : forall c l,
  has_prefix "#EXTINF:" l = false ->
  has_prefix "#EXT-X-BYTERANGE:" l = false ->
  expect_segment (state_of c) = false ->
  expect_segment (state_of (step c l)) = false
  /\ segments (data_of (step c l)) = segments (data_of c).
Proof.
  intros [[h d] st] [cursor len].
  unfold step, has_prefix, state_of, data_of; cbn [fst snd].
  intros H1 H2 H0.
  apply process_line_cases.
  - now split.
  - apply dispatch_tag_cases; try (now split); intros; try congruence;
      revert H0; clear; unfold_handlers; destruct d, st; rsimpl;
      intros ->; branch; split; reflexivity.
  - congruence.
  - intros _ _. revert H0; clear; unfold_handlers; destruct d, st; rsimpl;
      intros ->; branch; split; reflexivity.
Qed.

Lemma run_without_extinf ls :
  Forall (fun l => has_prefix "#EXTINF:" l = false
                   /\ has_prefix "#EXT-X-BYTERANGE:" l = false) ls ->
  expect_segment (state_of (run ls)) = false
  /\ segments (data_of (run ls)) = [].
Proof.
  induction ls as [|l ls IH] using rev_ind; intros H; [now split|].
  apply Forall_app in H as [H1 H2]. apply Forall_inv in H2 as [Ha Hb].
  destruct (IH H1) as [E S]. rewrite run_snoc.
  destruct (step_expect_segment_other (run ls) l Ha Hb E) as [-> ->].
  now split.
Qed.

(** X14. Only an EXTINF or a BYTERANGE tag makes a URI line a segment.
    When no line of the input is one of these tags, no URI line
    finalizes a segment, however many there are: the document holds at
    most one segment, the one a BITRATE or PART tag may have started,
    and that one has no URI. *)
Theorem no_segment_without_extinf_or_byterange
    (content : bytes) (h : Heap) (d : M3U8Data) :
  m3u8_parse (Some content) = Some (h, d) ->
  Forall (fun l => has_prefix "#EXTINF:" l = false
                   /\ has_prefix "#EXT-X-BYTERANGE:" l = false)
         (lines_of content) ->
  length (segments d) <= 1
  /\ Forall (fun s => seg_uri s = None) (segments d).
Proof.
  intros H Hno. apply m3u8_parse_some in H as [_ ->].
  destruct (run_without_extinf _ Hno) as [_ Hs].
  rewrite finish_segments, Hs. cbn [app].
  pose proof (run_pending_ok (lines_of content)) as Hp. unfold pending_ok in Hp.
  destruct (current_segment (state_of (run (lines_of content)))) as [s|].
  - split; [simpl; lia|]. constructor; [|constructor].
    now destruct (Hp s eq_refl).
  - split; [simpl; lia | constructor].
Qed.

Lemma no_segment_without_extinf_or_byterange_witness :
  let content :=
    text ["#EXTM3U"; "#EXT-X-BITRATE:800"; "a.ts"; "b.ts"]%string in
  exists h d,
    m3u8_parse (Some content) = Some (h, d)
    /\ length (segments d) <= 1
    /\ Forall (fun s => seg_uri s = None) (segments d).
Proof.
  cbv zeta.
  destruct (m3u8_parse
              (Some (text ["#EXTM3U"; "#EXT-X-BITRATE:800"; "a.ts";
                           "b.ts"]%string)))
    as [[h d]|] eqn:E; [|discriminate E].
  exists h, d. split; [reflexivity|].
  apply (no_segment_without_extinf_or_byterange _ h d E).
  vm_compute. repeat constructor.
Defined.

(** *** The lists of the document only grow *)

Lemma document_extends_refl d : document_extends d d.
Proof. repeat split; apply extends_refl. Qed.

Lemma document_extends_trans d1 d2 d3 :
  document_extends d1 d2 -> document_extends d2 d3 -> document_extends d1 d3.
Proof.
  unfold document_extends. intros H1 H2.
  repeat match goal with H : _ /\ _ |- _ => destruct H end.
  repeat split; eapply extends_trans; eauto.
Qed.

Ltac extends_case :=
  intros; unfold document_extends, data_of, state_of, heap_of;
  handler_crush;
  repeat split; first [apply extends_refl | apply extends_app].

Lemma step_document_extends c l :
  document_extends (data_of c) (data_of (step c l)).
Proof.
  destruct c as [[h d] st]; destruct l as [cursor len].
  unfold step. cbn [fst snd].
  apply process_line_cases;
    [apply document_extends_refl | | extends_case | extends_case].
  apply dispatch_tag_cases; try apply document_extends_refl; extends_case.
Qed.

(** X15. Reading on never takes back what the document lists.  Each of
    the eleven lists of the document -- segments, variants, I-frame and
    image playlists, media, keys, session keys, maps, rendition reports,
    session data, tiles -- after more lines is the list before them with
    the new entries appended: no entry is removed, reordered or changed. *)
Theorem document_lists_only_grow (ls more : list Line) :
  document_extends (data_of (run ls)) (data_of (run (ls ++ more))).
Proof.
  rewrite run_app. generalize (run ls). clear ls.
  induction more as [|l more IH]; intros c; simpl;
    [apply document_extends_refl|].
  eapply document_extends_trans; [apply step_document_extends | apply IH].
Qed.

(** *** The parts of a segment *)

Lemma step_part_tag c l :
  is_part_tag l = true ->
  segments (data_of (step c l)) = segments (data_of c)
  /\ map part_uri (current_parts (state_of (step c l)))
     = map part_uri (current_parts (state_of c)) ++ [part_uri_of_tag l].
Proof.
  destruct c as [[h d] st]; destruct l as [cursor len].
  unfold is_part_tag, has_prefix, step, part_uri_of_tag. cbn [fst snd].
  intros H. route H. clear.
  unfold data_of, state_of, current_parts, handle_part, ensure_segment.
  set (attrs := parse_attributes _ _). clearbody attrs.
  destruct st. rsimpl.
  match goal with
  | x : option M3U8Segment |- _ => destruct x as [[]|]
  end; rsimpl; rewrite ?map_app; split; reflexivity.
Qed.

Lemma step_parts_other c l :
  is_tag_line l = true -> is_part_tag l = false ->
  segments (data_of (step c l)) = segments (data_of c)
  /\ current_parts (state_of (step c l)) = current_parts (state_of c).
Proof.
  destruct c as [[h d] st]; destruct l as [cursor len].
  unfold is_tag_line, is_part_tag, has_prefix, step. cbn [fst snd].
  intros Htag Hno. unfold process_line. rewrite Htag.
  apply dispatch_tag_cases; try (split; reflexivity); intros;
    try congruence;
    unfold data_of, state_of, current_parts;
    unfold_handlers; unfold ensure_segment, or_keep in *;
    destruct_records; rsimpl;
    repeat match goal with
      | x : option M3U8Segment |- _ => destruct x as [[]|]
      end;
    rsimpl; branch; split; reflexivity.
Qed.

Lemma run_tag_lines_parts mid : forall c,
  Forall (fun l => is_tag_line l = true) mid ->
  segments (data_of (run_from c mid)) = segments (data_of c)
  /\ map part_uri (current_parts (state_of (run_from c mid)))
     = map part_uri (current_parts (state_of c))
       ++ map part_uri_of_tag (filter is_part_tag mid).
Proof.
  induction mid as [|l mid IH]; intros c H.
  { simpl. now rewrite app_nil_r. }
  apply Forall_cons_iff in H as [Hl H].
  destruct (IH (step c l) H) as (S2 & P2).
  simpl run_from. rewrite S2, P2. cbn [filter].
  destruct (is_part_tag l) eqn:E.
  - destruct (step_part_tag c l E) as [-> ->].
    cbn [map]. now rewrite <- app_assoc.
  - destruct (step_parts_other c l Hl E) as [-> ->]. now split.
Qed.

(** X16. The parts of a segment are those of the PART tags before its URI
    line, in the order of the tags.  When a URI line finalizes a segment
    after a run of tag lines, the URIs of the parts of the segment are
    those of the parts already collected before the run, followed by the
    URI of each PART tag of the run; after the URI line no part is left
    over for the next segment. *)
Theorem parts_collect_in_tag_order
    (c : Config) (mid : list Line) (uri : bytes) (uri_len : nat) :
  Forall (fun l => is_tag_line l = true) mid ->
  (peek uri =? "#")%char = false ->
  expect_segment (state_of (run_from c mid)) = true ->
  let c' := run_from c (mid ++ [(uri, uri_len)]) in
  exists seg,
    segments (data_of c') = segments (data_of c) ++ [seg]
    /\ map part_uri (seg_parts seg)
       = map part_uri (current_parts (state_of c))
         ++ map part_uri_of_tag (filter is_part_tag mid)
    /\ current_parts (state_of c') = [].
Proof.
  intros Hmid Huri He. cbv zeta.
  rewrite run_from_app. simpl run_from.
  destruct (run_tag_lines_parts mid c Hmid) as (S1 & P1).
  destruct (run_from c mid) as [[h d] st] eqn:E.
  unfold step, state_of, data_of in *. cbn [fst snd] in *.
  rewrite process_uri_segment by assumption.
  destruct (finalize_segment_effect d st uri uri_len)
    as (seg & Hs & _ & _ & _ & _ & Hp & _ & _ & _ & Hc).
  exists seg. unfold with_heap. cbn [fst snd].
  rewrite Hs, S1, Hp. split; [reflexivity|]. split.
  - rewrite <- P1. unfold current_parts, ensure_segment.
    destruct (current_segment st); reflexivity.
  - unfold current_parts. now rewrite Hc.
Qed.

Lemma parts_collect_in_tag_order_witness :
  let mid := [(lit "#EXT-X-PART:DURATION=1,URI=p1.mp4", 33);
              (lit "#EXT-X-PART:DURATION=1,URI=p2.mp4", 33);
              (lit "#EXTINF:2,", 10)] in
  let c' := run_from initial (mid ++ [(lit "s.mp4", 5)]) in
  exists seg,
    segments (data_of c') = segments (data_of initial) ++ [seg]
    /\ map part_uri (seg_parts seg)
       = map part_uri (current_parts (state_of initial))
         ++ map part_uri_of_tag (filter is_part_tag mid)
    /\ current_parts (state_of c') = [].
Proof.
  apply (parts_collect_in_tag_order initial
           [(lit "#EXT-X-PART:DURATION=1,URI=p1.mp4", 33);
            (lit "#EXT-X-PART:DURATION=1,URI=p2.mp4", 33);
            (lit "#EXTINF:2,", 10)]
           (lit "s.mp4") 5).
  - repeat constructor.
  - reflexivity.
  - vm_compute. reflexivity.
Defined.

(** *** The dispatcher *)

Lemma recognized_prefixes_overlap :
  forallb (fun pq =>
             implb (compatible (fst pq) (snd pq))
                   (String.eqb (fst pq) (snd pq)
                    || (String.eqb (fst pq) "#EXT-X-DISCONTINUITY"
                        && String.eqb (snd pq) "#EXT-X-DISCONTINUITY-SEQUENCE:")
                    || (String.eqb (fst pq) "#EXT-X-DISCONTINUITY-SEQUENCE:"
                        && String.eqb (snd pq) "#EXT-X-DISCONTINUITY")
                    || (String.eqb (fst pq) "#EXT-X-CUE-OUT"
                        && String.eqb (snd pq) "#EXT-X-CUE-OUT-CONT")
                    || (String.eqb (fst pq) "#EXT-X-CUE-OUT-CONT"
                        && String.eqb (snd pq) "#EXT-X-CUE-OUT")))
          (list_prod recognized_tags recognized_tags) = true.
Proof. vm_compute. reflexivity. Qed.

(** X17. The prefixes of the dispatcher exclude one another, two pairs
    apart: a line that starts with two different prefixes of the table
    starts with [#EXT-X-DISCONTINUITY-SEQUENCE:] (and so with
    [#EXT-X-DISCONTINUITY]) or with [#EXT-X-CUE-OUT-CONT] (and so with
    [#EXT-X-CUE-OUT]).  For every other line the order of the tests of
    the dispatcher is immaterial. *)
Theorem dispatcher_prefixes_exclusive
    (line : bytes) (len : nat) (p q : string) :
  In p recognized_tags -> In q recognized_tags ->
  starts_with line len p = true -> starts_with line len q = true ->
  p <> q ->
  starts_with line len "#EXT-X-DISCONTINUITY-SEQUENCE:" = true
  \/ starts_with line len "#EXT-X-CUE-OUT-CONT" = true.
Proof.
  intros Hp Hq Sp Sq Hne.
  pose proof (starts_with_compatible _ _ _ _ Sp Sq) as Hc.
  pose proof recognized_prefixes_overlap as Hall.
  rewrite forallb_forall in Hall.
  specialize (Hall (p, q) (proj2 (in_prod_iff _ _ p q) (conj Hp Hq))).
  cbn [fst snd] in Hall. rewrite Hc in Hall. cbn [implb] in Hall.
  repeat (apply orb_true_iff in Hall as [Hall | Hall]);
    try (apply andb_true_iff in Hall as [H1 H2];
         apply String.eqb_eq in H1, H2; subst; auto; fail).
  apply String.eqb_eq in Hall. contradiction.
Qed.

Lemma dispatcher_prefixes_exclusive_witness :
  starts_with (lit "#EXT-X-CUE-OUT-CONT:2/30") 24
    "#EXT-X-DISCONTINUITY-SEQUENCE:" = true
  \/ starts_with (lit "#EXT-X-CUE-OUT-CONT:2/30") 24
       "#EXT-X-CUE-OUT-CONT" = true.
Proof.
  apply (dispatcher_prefixes_exclusive (lit "#EXT-X-CUE-OUT-CONT:2/30") 24
           "#EXT-X-CUE-OUT" "#EXT-X-CUE-OUT-CONT").
  - unfold recognized_tags. simpl. tauto.
  - unfold recognized_tags. simpl. tauto.
  - reflexivity.
  - reflexivity.
  - discriminate.
Defined.

(** ** The values of tags *)

Lemma tolower_not_upper c : isupper (tolower c) = false.
Proof. destruct c as [[] [] [] [] [] [] [] []]; reflexivity. Qed.

Lemma map_tolower_no_upper s :
  Forall (fun c => isupper c = false) (map tolower s).
Proof.
  apply Forall_forall. intros c Hc. apply in_map_iff in Hc as (c0 & <- & _).
  apply tolower_not_upper.
Qed.

(** X18. The values of ALLOW-CACHE and PLAYLIST-TYPE are stored in lower
    case: whatever the tag line holds, the stored string exists and has
    no upper-case letter. *)
Theorem allow_cache_and_playlist_type_lowercase
    (c : Config) (line : bytes) (len : nat) :
  (starts_with line len "#EXT-X-ALLOW-CACHE:" = true ->
   exists v, allow_cache (data_of (process_line c line len)) = Some v
             /\ Forall (fun x => isupper x = false) v)
  /\ (starts_with line len "#EXT-X-PLAYLIST-TYPE:" = true ->
      exists v, playlist_type (data_of (process_line c line len)) = Some v
                /\ Forall (fun x => isupper x = false) v).
Proof.
  destruct c as [[h d] st]. split; intros H; route H; clear H;
    unfold data_of, handle_allow_cache, handle_playlist_type; destruct d; rsimpl;
    unfold lowercase, str_ndup; cbn [option_map];
    eexists; (split; [reflexivity|]); apply map_tolower_no_upper.
Qed.

Lemma allow_cache_and_playlist_type_lowercase_witness :
  exists v,
    playlist_type (data_of (process_line initial
                              (lit "#EXT-X-PLAYLIST-TYPE:VOD") 24)) = Some v
    /\ Forall (fun x => isupper x = false) v.
Proof.
  apply (proj2 (allow_cache_and_playlist_type_lowercase initial
                  (lit "#EXT-X-PLAYLIST-TYPE:VOD") 24)).
  reflexivity.
Defined.

(** *** Numbers are read from the line alone *)

Lemma line_stops_not_digit p :
  line_stops p -> forall x r, p = x :: r -> isdigit x = false.
Proof.
  intros H x r E. specialize (H x r E). revert H.
  destruct x as [[] [] [] [] [] [] [] []]; (reflexivity || discriminate).
Qed.

Lemma read_digits_app a : forall acc n b,
  (forall x r, b = x :: r -> isdigit x = false) ->
  fst (fst (read_digits acc n (a ++ b))) = fst (fst (read_digits acc n a)).
Proof.
  induction a as [|c a IH]; intros acc n b Hb.
  - destruct b as [|x r]; [reflexivity|]. simpl.
    now rewrite (Hb x r eq_refl).
  - simpl. destruct (isdigit c); [now apply IH | reflexivity].
Qed.

Lemma skip_space_app a b :
  has_value a = true -> skip_space (a ++ b) = skip_space a ++ b.
Proof.
  unfold has_value. induction a as [|c a IH]; [discriminate|].
  simpl. destruct (isspace c); [exact IH | reflexivity].
Qed.

Lemma skip_space_has_value a :
  has_value a = true -> skip_space a <> [].
Proof.
  unfold has_value. induction a as [|c a IH]; [discriminate|].
  simpl. destruct (isspace c); [exact IH | discriminate].
Qed.

(** [strtoll] does not read past a text that holds a value, when what
    follows it does not start with a digit. *)
Lemma strtoll_app a b :
  has_value a = true ->
  (forall x r, b = x :: r -> isdigit x = false) ->
  strtoll (a ++ b) = strtoll a.
Proof.
  intros Ha Hb. unfold strtoll. rewrite (skip_space_app a b Ha).
  pose proof (skip_space_has_value a Ha) as Hne.
  destruct (skip_space a) as [|x r]; [now elim Hne|].
  cbn [app read_sign].
  destruct (x =? "-")%char; [|destruct (x =? "+")%char].
  - pose proof (read_digits_app r 0%Z 0 b Hb) as E.
    destruct (read_digits 0 0 (r ++ b)) as [[v1 ?] ?].
    destruct (read_digits 0 0 r) as [[v2 ?] ?]. cbn [fst] in E. now subst.
  - pose proof (read_digits_app r 0%Z 0 b Hb) as E.
    destruct (read_digits 0 0 (r ++ b)) as [[v1 ?] ?].
    destruct (read_digits 0 0 r) as [[v2 ?] ?]. cbn [fst] in E. now subst.
  - pose proof (read_digits_app (x :: r) 0%Z 0 b Hb) as E.
    change ((x :: r) ++ b) with (x :: r ++ b) in E.
    destruct (read_digits 0 0 (x :: r ++ b)) as [[v1 ?] ?].
    destruct (read_digits 0 0 (x :: r)) as [[v2 ?] ?]. cbn [fst] in E. now subst.
Qed.

(** The cursor of a dispatched line past a prefix of the line: the rest
    of the text of the line, then what follows the line. *)
Lemma skipn_cursor n l :
  n <= snd l -> snd l <= length (fst l) ->
  skipn n (fst l) = tag_body n l ++ after_line l.
Proof.
  intros Hn Hl. unfold tag_body, line_text, after_line.
  rewrite <- (firstn_skipn (snd l) (fst l)) at 1.
  rewrite skipn_app.
  replace (n - length (firstn (snd l) (fst l))) with 0; [reflexivity|].
  rewrite length_firstn. lia.
Qed.

Lemma integer_tag_body (content : bytes) (l : Line) (p : string) :
  In l (lines_of content) ->
  has_prefix p l = true ->
  has_value (tag_body (length (lit p)) l) = true ->
  strtoll (skipn (length (lit p)) (fst l))
  = strtoll (tag_body (length (lit p)) l).
Proof.
  intros Hin Hp Hv.
  destruct (scan_lines_shape _ _ _ Hin) as (_ & [_ Hlen] & _).
  pose proof (scan_lines_stops _ _ _ Hin) as Hstop.
  apply starts_with_true in Hp as [_ Hp].
  rewrite skipn_cursor by assumption.
  apply strtoll_app; [exact Hv|].
  now apply line_stops_not_digit.
Qed.

(** X19. The integer of a tag is read from the line of the tag alone, as
    long as the tag has a value.  On a line of the input that carries a
    TARGETDURATION, MEDIA-SEQUENCE, DISCONTINUITY-SEQUENCE or VERSION
    tag whose text after the colon holds a byte other than white space,
    the number stored is the one [atoi] or [strtoll] reads in that text:
    the bytes that follow the line in the input play no part. *)
Theorem integer_tags_read_their_own_line
    (content : bytes) (l : Line) (c : Config) :
  In l (lines_of content) ->
  (has_prefix "#EXT-X-TARGETDURATION:" l = true ->
   has_value (tag_body 22 l) = true ->
   targetduration (data_of (step c l)) = atoi (tag_body 22 l))
  /\ (has_prefix "#EXT-X-MEDIA-SEQUENCE:" l = true ->
      has_value (tag_body 22 l) = true ->
      media_sequence (data_of (step c l)) = strtoll (tag_body 22 l))
  /\ (has_prefix "#EXT-X-DISCONTINUITY-SEQUENCE:" l = true ->
      has_value (tag_body 30 l) = true ->
      discontinuity_sequence (data_of (step c l)) = strtoll (tag_body 30 l))
  /\ (has_prefix "#EXT-X-VERSION:" l = true ->
      has_value (tag_body 15 l) = true ->
      version (data_of (step c l)) = atoi (tag_body 15 l)).
Proof.
  intros Hin. destruct c as [[h d] st].
  repeat split; intros Hp Hv;
    pose proof (integer_tag_body content l _ Hin Hp Hv) as E;
    cbv [lit list_ascii_of_string length] in E;
    destruct l as [cursor len]; unfold has_prefix, step in *;
    cbn [fst snd] in *; route Hp;
    unfold data_of, handle_targetduration, handle_media_sequence,
      handle_discontinuity_sequence, handle_version, atoi;
    destruct d; rsimpl; cbv zeta; now rewrite <- E.
Qed.

Lemma integer_tags_read_their_own_line_witness :
  let content := text ["#EXT-X-TARGETDURATION: 10 "; "7"]%string in
  let l := (content, 25) in
  In l (lines_of content)
  /\ targetduration (data_of (step initial l)) = atoi (tag_body 22 l).
Proof.
  assert (H : In (text ["#EXT-X-TARGETDURATION: 10 "; "7"]%string, 25)
                 (lines_of (text ["#EXT-X-TARGETDURATION: 10 "; "7"]%string)))
    by (vm_compute; left; reflexivity).
  split; [exact H|].
  apply (proj1 (integer_tags_read_their_own_line _ _ initial H));
    reflexivity.
Defined.

(** Without a value the number is that of the following line. *)
Example integer_tag_without_value_reads_on :
  targetduration
    (data_of (run (lines_of (text ["#EXT-X-TARGETDURATION:"; "7"]%string))))
  = 7%Z.
Proof. vm_compute. reflexivity. Qed.

(** *** Values that a handler splits *)

Lemma parse_attributes_exact p beyond :
  parse_attributes (p ++ beyond) (length p) = lex p.
Proof.
  unfold lex, parse_attributes.
  now rewrite firstn_app, Nat.sub_diag, !firstn_all, app_nil_r.
Qed.

Lemma memchr_first a c b n :
  Forall (fun x => (x =? c)%char = false) a -> length a < n ->
  memchr (a ++ c :: b) c n = Some (length a).
Proof.
  intros Ha. revert n. induction Ha as [|x a Hx Ha IH]; intros n Hn.
  - destruct n; [simpl in Hn; lia|]. simpl. now rewrite Ascii.eqb_refl.
  - destruct n; [simpl in Hn; lia|]. simpl in *. rewrite Hx.
    rewrite IH by lia. reflexivity.
Qed.

Lemma strip_plain s :
  Forall (fun c => name_char c = true) s -> strip s = s.
Proof.
  intros H. apply name_facts in H as (Hb & _ & _). unfold strip.
  rewrite skip_blank_id, rtrim_id; auto.
  intros x r E. subst. now apply Forall_inv in Hb.
Qed.

Lemma elapsed_facts e :
  Forall (fun c => elapsed_char c = true) e ->
  Forall (fun c => name_char c = true) e
  /\ Forall (fun c => (c =? "/")%char = false) e.
Proof.
  intros H. split; (eapply Forall_impl; [|exact H]); intros c Hc;
    unfold elapsed_char in Hc; apply andb_true_iff in Hc as [H1 H2];
    [exact H1 | now apply negb_true_iff in H2].
Qed.

(** X20. A CUE-OUT-CONT tag of the form [elapsed/duration] is split at the
    first slash: the part before it becomes the pending elapsed time,
    the part after it the pending duration; the cue-out flag is set and
    the pending SCTE-35 payload is left as it was. *)
Theorem cue_out_cont_splits_elapsed_and_duration
    (h : Heap) (d : M3U8Data) (st : ParserState) (e dur beyond : bytes) :
  Forall (fun c => elapsed_char c = true) e ->
  Forall (fun c => name_char c = true) dur ->
  let line := lit "#EXT-X-CUE-OUT-CONT:" ++ e ++ "/"%char :: dur in
  let st' := state_of (process_line (h, d, st) (line ++ beyond) (length line)) in
  current_cue_out_elapsedtime st' = Some e
  /\ current_cue_out_duration st' = Some dur
  /\ current_cue_out_scte35 st' = current_cue_out_scte35 st
  /\ cue_out st' = true.
Proof.
  intros He Hd line st'. subst st'.
  destruct (elapsed_facts e He) as [Hen Hes].
  set (bare := e ++ "/"%char :: dur).
  assert (Hbare : Forall (fun c => name_char c = true) bare).
  { apply Forall_app. split; [exact Hen|]. constructor; [reflexivity | exact Hd]. }
  assert (Hline : line ++ beyond = lit "#EXT-X-CUE-OUT-CONT:" ++ bare ++ beyond).
  { unfold line, bare. now rewrite <- !app_assoc. }
  assert (Hlen : length line = 20 + length bare).
  { unfold line, bare. now rewrite length_app. }
  rewrite Hline, Hlen.
  rewrite process_cue_out_cont by reflexivity.
  unfold handle_cue_out_cont.
  change (memchr (lit "#EXT-X-CUE-OUT-CONT:" ++ bare ++ beyond) ":"
            (20 + length bare)) with (Some 19).
  cbv iota beta zeta.
  change (skipn (19 + 1) (lit "#EXT-X-CUE-OUT-CONT:" ++ bare ++ beyond))
    with (bare ++ beyond).
  replace (20 + length bare - (19 + 1)) with (length bare) by lia.
  assert (Hattrs : parse_attributes (bare ++ beyond) (length bare)
                   = [ {| attr_key := Some []; attr_value := Some bare |} ]).
  { rewrite parse_attributes_exact.
    rewrite <- (app_nil_r bare) at 1.
    destruct (name_facts bare Hbare) as (_ & Heq & Hnul).
    rewrite lex_bare; [| exact Heq | exact Hnul | intros x r E; discriminate].
    rewrite (strip_plain bare Hbare). cbn [tl]. rewrite lex_nil.
    unfold bare. destruct e; reflexivity. }
  rewrite Hattrs. clear Hattrs.
  unfold get_attr_str_unquoted.
  cbn [get_attr attr_key attr_value]. unfold strcmp_eq.
  change (bytes_eqb [] (lit EmptyString)) with true.
  change (bytes_eqb [] (lit "duration")) with false.
  change (bytes_eqb [] (lit "scte35")) with false.
  change (bytes_eqb [] (lit "elapsedtime")) with false.
  cbv iota.
  unfold strchr, bare.
  rewrite memchr_first by (rewrite ?length_app; simpl; try lia; exact Hes).
  unfold state_of, or_keep, str_dup, str_ndup. cbn [option_map snd].
  rewrite firstn_app, Nat.sub_diag, firstn_all. cbn [firstn].
  rewrite app_nil_r.
  rewrite (c_str_no_nul e) by (now apply name_facts in Hen).
  rewrite skipn_app, skipn_all2 by lia.
  replace (length e + 1 - length e) with 1 by lia. cbn [skipn app].
  destruct st; rsimpl. repeat split.
Qed.

Lemma cue_out_cont_splits_elapsed_and_duration_witness :
  let line := lit "#EXT-X-CUE-OUT-CONT:" ++ lit "2.5" ++ "/"%char :: lit "30" in
  let st' :=
    state_of (process_line initial (line ++ [LF]) (length line)) in
  current_cue_out_elapsedtime st' = Some (lit "2.5")
  /\ current_cue_out_duration st' = Some (lit "30")
  /\ current_cue_out_scte35 st' = current_cue_out_scte35 zero_state
  /\ cue_out st' = true.
Proof.
  apply (cue_out_cont_splits_elapsed_and_duration empty_heap zero_data
           zero_state (lit "2.5") (lit "30") [LF]);
    repeat constructor.
Defined.



(** ** Entries, sections and marks *)

(** *** One entry for each tag *)

Lemma count_reflects_tag (size : Config -> nat) (tag : Line -> bool) :
  size initial = 0 ->
  (forall c l, tag l = false -> size (step c l) = size c) ->
  (forall c l, tag l = true -> size (step c l) = S (size c)) ->
  forall ls, size (run ls) = length (filter tag ls).
Proof.
  intros H0 Hother Htag ls.
  induction ls as [|l ls IH] using rev_ind; [exact H0|].
  rewrite run_snoc, filter_app, length_app. cbn [filter].
  destruct (tag l) eqn:E.
  - rewrite Htag by assumption. cbn [length]. lia.
  - rewrite Hother by assumption. cbn [length]. lia.
Qed.

Ltac entry_step :=
  match goal with
  | |- forall (c : Config) (l : Line), _ =>
      let h := fresh "h" in let d := fresh "d" in let st := fresh "st" in
      let cursor := fresh "cursor" in let len := fresh "len" in
      let H := fresh "H" in
      intros [[h d] st] [cursor len];
      unfold step, has_prefix; cbn [fst snd]; intros H;
      route H; clear H; unfold data_of; handler_crush;
      rewrite length_app; cbn [length]; lia
  end.

Lemma step_media_other : forall c l,
  has_prefix "#EXT-X-MEDIA:" l = false ->
  length (media (data_of (step c l))) = length (media (data_of c)).
Proof. frame_step. Qed.

Lemma step_media_tag : forall c l,
  has_prefix "#EXT-X-MEDIA:" l = true ->
  length (media (data_of (step c l))) = S (length (media (data_of c))).
Proof. entry_step. Qed.

Lemma step_iframe_other : forall c l,
  has_prefix "#EXT-X-I-FRAME-STREAM-INF:" l = false ->
  length (iframe_playlists (data_of (step c l)))
  = length (iframe_playlists (data_of c)).
Proof. frame_step. Qed.

Lemma step_iframe_tag : forall c l,
  has_prefix "#EXT-X-I-FRAME-STREAM-INF:" l = true ->
  length (iframe_playlists (data_of (step c l)))
  = S (length (iframe_playlists (data_of c))).
Proof. entry_step. Qed.

Lemma step_image_other : forall c l,
  has_prefix "#EXT-X-IMAGE-STREAM-INF:" l = false ->
  length (image_playlists (data_of (step c l)))
  = length (image_playlists (data_of c)).
Proof. frame_step. Qed.

Lemma step_image_tag : forall c l,
  has_prefix "#EXT-X-IMAGE-STREAM-INF:" l = true ->
  length (image_playlists (data_of (step c l)))
  = S (length (image_playlists (data_of c))).
Proof. entry_step. Qed.

Lemma step_rendition_other : forall c l,
  has_prefix "#EXT-X-RENDITION-REPORT:" l = false ->
  length (rendition_reports (data_of (step c l)))
  = length (rendition_reports (data_of c)).
Proof. frame_step. Qed.

Lemma step_rendition_tag : forall c l,
  has_prefix "#EXT-X-RENDITION-REPORT:" l = true ->
  length (rendition_reports (data_of (step c l)))
  = S (length (rendition_reports (data_of c))).
Proof. entry_step. Qed.

Lemma step_session_data_other : forall c l,
  has_prefix "#EXT-X-SESSION-DATA:" l = false ->
  length (session_data (data_of (step c l)))
  = length (session_data (data_of c)).
Proof. frame_step. Qed.

Lemma step_session_data_tag : forall c l,
  has_prefix "#EXT-X-SESSION-DATA:" l = true ->
  length (session_data (data_of (step c l)))
  = S (length (session_data (data_of c))).
Proof. entry_step. Qed.

Lemma step_tiles_other : forall c l,
  has_prefix "#EXT-X-TILES:" l = false ->
  length (tiles (data_of (step c l))) = length (tiles (data_of c)).
Proof. frame_step. Qed.

Lemma step_tiles_tag : forall c l,
  has_prefix "#EXT-X-TILES:" l = true ->
  length (tiles (data_of (step c l))) = S (length (tiles (data_of c))).
Proof. entry_step. Qed.

(** X22. One entry for each tag: the document lists as many media
    renditions, I-frame playlists, image playlists, rendition reports,
    session data items and tiles as the input holds lines with the
    prefix of the tag -- a tag is never skipped, whatever its attributes,
    and entries are never merged. *)
Theorem one_entry_per_tag (ls : list Line) :
  let d := data_of (run ls) in
  length (media d) = length (filter (has_prefix "#EXT-X-MEDIA:") ls)
  /\ length (iframe_playlists d)
     = length (filter (has_prefix "#EXT-X-I-FRAME-STREAM-INF:") ls)
  /\ length (image_playlists d)
     = length (filter (has_prefix "#EXT-X-IMAGE-STREAM-INF:") ls)
  /\ length (rendition_reports d)
     = length (filter (has_prefix "#EXT-X-RENDITION-REPORT:") ls)
  /\ length (session_data d)
     = length (filter (has_prefix "#EXT-X-SESSION-DATA:") ls)
  /\ length (tiles d) = length (filter (has_prefix "#EXT-X-TILES:") ls).
Proof.
  cbv zeta. repeat split.
  - apply (count_reflects_tag (fun c => length (media (data_of c))));
      [reflexivity | apply step_media_other | apply step_media_tag].
  - apply (count_reflects_tag (fun c => length (iframe_playlists (data_of c))));
      [reflexivity | apply step_iframe_other | apply step_iframe_tag].
  - apply (count_reflects_tag (fun c => length (image_playlists (data_of c))));
      [reflexivity | apply step_image_other | apply step_image_tag].
  - apply (count_reflects_tag (fun c => length (rendition_reports (data_of c))));
      [reflexivity | apply step_rendition_other | apply step_rendition_tag].
  - apply (count_reflects_tag (fun c => length (session_data (data_of c))));
      [reflexivity | apply step_session_data_other
      | apply step_session_data_tag].
  - apply (count_reflects_tag (fun c => length (tiles (data_of c))));
      [reflexivity | apply step_tiles_other | apply step_tiles_tag].
Qed.

(** *** The optional sections of the document *)

Ltac section_step :=
  match goal with
  | |- forall (c : Config) (l : Line), _ =>
      let h := fresh "h" in let d := fresh "d" in let st := fresh "st" in
      let cursor := fresh "cursor" in let len := fresh "len" in
      let H := fresh "H" in
      intros [[h d] st] [cursor len];
      unfold step, has_prefix; cbn [fst snd]; intros H;
      route H; clear H; frame_case
  end.

Lemma step_start_other : forall c l,
  has_prefix "#EXT-X-START:" l = false ->
  has_start (start (data_of (step c l))) = has_start (start (data_of c)).
Proof. frame_step. Qed.

Lemma step_start_tag : forall c l,
  has_prefix "#EXT-X-START:" l = true ->
  has_start (start (data_of (step c l))) = true.
Proof. section_step. Qed.

Lemma step_server_control_other : forall c l,
  has_prefix "#EXT-X-SERVER-CONTROL:" l = false ->
  has_server_control (server_control (data_of (step c l)))
  = has_server_control (server_control (data_of c)).
Proof. frame_step. Qed.

Lemma step_server_control_tag : forall c l,
  has_prefix "#EXT-X-SERVER-CONTROL:" l = true ->
  has_server_control (server_control (data_of (step c l))) = true.
Proof. section_step. Qed.

Lemma step_part_inf_other : forall c l,
  has_prefix "#EXT-X-PART-INF:" l = false ->
  has_part_inf (part_inf (data_of (step c l)))
  = has_part_inf (part_inf (data_of c)).
Proof. frame_step. Qed.

Lemma step_part_inf_tag : forall c l,
  has_prefix "#EXT-X-PART-INF:" l = true ->
  has_part_inf (part_inf (data_of (step c l))) = true.
Proof. section_step. Qed.

Lemma step_skip_other : forall c l,
  has_prefix "#EXT-X-SKIP:" l = false ->
  has_skip (skip (data_of (step c l))) = has_skip (skip (data_of c)).
Proof. frame_step. Qed.

Lemma step_skip_tag : forall c l,
  has_prefix "#EXT-X-SKIP:" l = true ->
  has_skip (skip (data_of (step c l))) = true.
Proof. section_step. Qed.

Lemma step_preload_hint_other : forall c l,
  has_prefix "#EXT-X-PRELOAD-HINT:" l = false ->
  has_preload_hint (preload_hint (data_of (step c l)))
  = has_preload_hint (preload_hint (data_of c)).
Proof. frame_step. Qed.

Lemma step_preload_hint_tag : forall c l,
  has_prefix "#EXT-X-PRELOAD-HINT:" l = true ->
  has_preload_hint (preload_hint (data_of (step c l))) = true.
Proof. section_step. Qed.

Lemma step_content_steering_other : forall c l,
  has_prefix "#EXT-X-CONTENT-STEERING:" l = false ->
  has_content_steering (content_steering (data_of (step c l)))
  = has_content_steering (content_steering (data_of c)).
Proof. frame_step. Qed.

Lemma step_content_steering_tag : forall c l,
  has_prefix "#EXT-X-CONTENT-STEERING:" l = true ->
  has_content_steering (content_steering (data_of (step c l))) = true.
Proof. section_step. Qed.

(** X23. The optional sections of the document are present exactly when
    their tag occurred: each of the flags [has_start],
    [has_server_control], [has_part_inf], [has_skip], [has_preload_hint]
    and [has_content_steering] is set if and only if some line starts
    with the prefix of its tag, whether or not the attributes of the tag
    could be read. *)
Theorem optional_sections_reflect_tags (ls : list Line) :
  let d := data_of (run ls) in
  has_start (start d) = existsb (has_prefix "#EXT-X-START:") ls
  /\ has_server_control (server_control d)
     = existsb (has_prefix "#EXT-X-SERVER-CONTROL:") ls
  /\ has_part_inf (part_inf d) = existsb (has_prefix "#EXT-X-PART-INF:") ls
  /\ has_skip (skip d) = existsb (has_prefix "#EXT-X-SKIP:") ls
  /\ has_preload_hint (preload_hint d)
     = existsb (has_prefix "#EXT-X-PRELOAD-HINT:") ls
  /\ has_content_steering (content_steering d)
     = existsb (has_prefix "#EXT-X-CONTENT-STEERING:") ls.
Proof.
  cbv zeta. repeat split.
  - apply (flag_reflects_tag (fun c => has_start (start (data_of c))));
      [reflexivity | apply step_start_other | apply step_start_tag].
  - apply (flag_reflects_tag
             (fun c => has_server_control (server_control (data_of c))));
      [reflexivity | apply step_server_control_other
      | apply step_server_control_tag].
  - apply (flag_reflects_tag (fun c => has_part_inf (part_inf (data_of c))));
      [reflexivity | apply step_part_inf_other | apply step_part_inf_tag].
  - apply (flag_reflects_tag (fun c => has_skip (skip (data_of c))));
      [reflexivity | apply step_skip_other | apply step_skip_tag].
  - apply (flag_reflects_tag
             (fun c => has_preload_hint (preload_hint (data_of c))));
      [reflexivity | apply step_preload_hint_other
      | apply step_preload_hint_tag].
  - apply (flag_reflects_tag
             (fun c => has_content_steering (content_steering (data_of c))));
      [reflexivity | apply step_content_steering_other
      | apply step_content_steering_tag].
Qed.

(** *** Input without any line *)

Lemma scan_lines_blank fuel : forall p,
  Forall (fun c => is_blank c || is_eol c = true) p ->
  scan_lines fuel p = [].
Proof.
  induction fuel as [|fuel IH]; intros p Hp; [reflexivity|].
  rewrite scan_lines_S.
  destruct (skip_blank_suffix p) as (pre & Hpre & _).
  destruct (skip_blank p) as [|x r] eqn:E; [reflexivity|].
  cbv beta iota zeta.
  rewrite Hpre in Hp. apply Forall_app in Hp as [_ Hp].
  pose proof (skip_blank_head _ _ _ E) as Hx.
  apply Forall_cons_iff in Hp as [Hc Hr]. rewrite Hx in Hc. cbn [orb] in Hc.
  unfold find_eol. simpl scan_until. rewrite Hc.
  cbn [trim_end fold_right length Nat.eqb tl]. now apply IH.
Qed.

(** X24. An input that holds only spaces, tabs and line breaks -- but at
    least one byte -- is not an error: the parser returns the empty
    document, every field zero and every list empty. *)
Theorem blank_input_gives_empty_document (content : bytes) :
  content <> [] ->
  Forall (fun c => is_blank c || is_eol c = true) content ->
  m3u8_parse (Some content) = Some (empty_heap, zero_data).
Proof.
  intros Hne Hb. destruct content as [|x content]; [now elim Hne|].
  unfold m3u8_parse. rewrite m3u8_parse_run_lines.
  unfold lines_of. rewrite scan_lines_blank by assumption. reflexivity.
Qed.

Lemma blank_input_gives_empty_document_witness :
  m3u8_parse (Some [" "%char; CR; LF; "009"%char; LF])
  = Some (empty_heap, zero_data).
Proof.
  apply blank_input_gives_empty_document.
  - discriminate.
  - repeat constructor.
Defined.

(** *** The blackout of a segment *)

Lemma step_blackout_other c l :
  is_tag_line l = true -> has_prefix "#EXT-X-BLACKOUT" l = false ->
  segments (data_of (step c l)) = segments (data_of c)
  /\ blackout (state_of (step c l)) = blackout (state_of c).
Proof.
  destruct c as [[h d] st]; destruct l as [cursor len].
  unfold is_tag_line, has_prefix, step. cbn [fst snd].
  intros Htag Hno. unfold process_line. rewrite Htag.
  apply dispatch_tag_cases; try (split; reflexivity); intros;
    try congruence;
    unfold data_of, state_of; handler_crush; split; reflexivity.
Qed.

Lemma step_blackout_tag c l :
  has_prefix "#EXT-X-BLACKOUT" l = true ->
  segments (data_of (step c l)) = segments (data_of c)
  /\ blackout (state_of (step c l)) = blackout_of_tag l.
Proof.
  destruct c as [[h d] st]; destruct l as [cursor len].
  unfold has_prefix, step, blackout_of_tag. cbn [fst snd]. intros H.
  route H. clear H. unfold data_of, state_of, handle_blackout. cbn [fst snd].
  destruct (memchr cursor ":" len); destruct st; rsimpl; split; reflexivity.
Qed.

Lemma run_keeps_blackout mid : forall c,
  Forall (fun l => is_tag_line l = true
                   /\ has_prefix "#EXT-X-BLACKOUT" l = false) mid ->
  segments (data_of (run_from c mid)) = segments (data_of c)
  /\ blackout (state_of (run_from c mid)) = blackout (state_of c).
Proof.
  induction mid as [|l mid IH]; intros c H; [now split|].
  apply Forall_cons_iff in H as [[H1 H2] H]. simpl run_from.
  destruct (IH (step c l) H) as [-> ->].
  now apply step_blackout_other.
Qed.

Lemma blackout_of_tag_some l : blackout_of_tag l <> None.
Proof.
  unfold blackout_of_tag. destruct (memchr (fst l) ":" (snd l)); discriminate.
Qed.

Lemma finalize_segment_blackout d st uri uri_len b :
  blackout st = Some b ->
  exists seg,
    segments (fst (finalize_segment d st uri uri_len)) = segments d ++ [seg]
    /\ seg_blackout seg = Some b
    /\ blackout (snd (finalize_segment d st uri uri_len)) = None.
Proof.
  unfold finalize_segment. destruct d, st. rsimpl. intros ->.
  eexists. split; [reflexivity|]. rsimpl.
  match goal with |- context [if ?b then _ else _] => destruct b end;
    rsimpl; repeat split.
Qed.

(** X25. A BLACKOUT tag marks the segment of the next URI line, and only
    that one.  The segment finalized after the tag carries the text that
    follows the first colon of the tag line, or the marker
    [__BLACKOUT_TRUE__] when the line has no colon -- never NULL --
    whatever other tags stand in between; after the URI line no blackout
    is pending. *)
Theorem blackout_marks_next_segment
    (c : Config) (tag : Line) (mid : list Line) (uri : bytes) (uri_len : nat) :
  has_prefix "#EXT-X-BLACKOUT" tag = true ->
  Forall (fun l => is_tag_line l = true
                   /\ has_prefix "#EXT-X-BLACKOUT" l = false) mid ->
  (peek uri =? "#")%char = false ->
  expect_segment (state_of (run_from c (tag :: mid))) = true ->
  let c' := run_from c (tag :: mid ++ [(uri, uri_len)]) in
  exists seg,
    segments (data_of c') = segments (data_of c) ++ [seg]
    /\ seg_blackout seg = blackout_of_tag tag
    /\ seg_blackout seg <> None
    /\ blackout (state_of c') = None.
Proof.
  intros Htag Hmid Huri He. cbv zeta.
  change (tag :: mid ++ [(uri, uri_len)]) with ((tag :: mid) ++ [(uri, uri_len)]).
  rewrite run_from_app. simpl run_from in *.
  destruct (step_blackout_tag c tag Htag) as [S1 B1].
  destruct (run_keeps_blackout mid (step c tag) Hmid) as [S2 B2].
  rewrite S1 in S2. rewrite B1 in B2. clear S1 B1.
  destruct (run_from (step c tag) mid) as [[h d] st] eqn:E.
  unfold step. unfold state_of in B2, He |- *.
  unfold data_of in S2 |- * at 1.
  cbn [fst snd] in S2, B2, He |- *.
  rewrite process_uri_segment by assumption.
  destruct (blackout_of_tag tag) as [b|] eqn:Eb;
    [|now elim (blackout_of_tag_some tag)].
  destruct (finalize_segment_blackout d st uri uri_len b B2)
    as (seg & Hs & Hb & Hb').
  exists seg. unfold with_heap. cbn [fst snd].
  rewrite Hs, S2, Hb.
  repeat split; [discriminate | exact Hb'].
Qed.

Lemma blackout_marks_next_segment_witness :
  let tag := (lit "#EXT-X-BLACKOUT", 15) in
  let mid := [(lit "#EXTINF:4,", 10)] in
  let c' := run_from initial (tag :: mid ++ [(lit "a.ts", 4)]) in
  exists seg,
    segments (data_of c') = segments (data_of initial) ++ [seg]
    /\ seg_blackout seg = blackout_of_tag tag
    /\ seg_blackout seg <> None
    /\ blackout (state_of c') = None.
Proof.
  apply (blackout_marks_next_segment initial (lit "#EXT-X-BLACKOUT", 15)
           [(lit "#EXTINF:4,", 10)] (lit "a.ts") 4).
  - reflexivity.
  - repeat constructor.
  - reflexivity.
  - vm_compute. reflexivity.
Defined.

(** *** The duration of a cue-out *)

(** X26. A CUE-OUT tag with a bare value, as in [#EXT-X-CUE-OUT:30], gives
    the value as the pending duration of the cue; it opens the cue (both
    [cue_out] and [cue_out_start] are set) and leaves the pending SCTE-35
    payload as it was. *)
Theorem cue_out_bare_value_is_duration
    (h : Heap) (d : M3U8Data) (st : ParserState) (v beyond : bytes) :
  v <> [] -> Forall (fun c => name_char c = true) v ->
  let line := lit "#EXT-X-CUE-OUT:" ++ v in
  let st' := state_of (process_line (h, d, st) (line ++ beyond) (length line)) in
  current_cue_out_duration st' = Some v
  /\ current_cue_out_scte35 st' = current_cue_out_scte35 st
  /\ cue_out st' = true
  /\ cue_out_start st' = true.
Proof.
  intros Hne Hv line st'. subst st'.
  assert (Hline : line ++ beyond = lit "#EXT-X-CUE-OUT:" ++ v ++ beyond).
  { unfold line. now rewrite <- !app_assoc. }
  assert (Hlen : length line = 15 + length v).
  { unfold line. now rewrite length_app. }
  rewrite Hline, Hlen.
  assert (Hp : starts_with (lit "#EXT-X-CUE-OUT:" ++ v ++ beyond) (15 + length v)
                 "#EXT-X-CUE-OUT:" = true) by reflexivity.
  rewrite process_cue_out.
  2:{ unfold is_cue_out_tag. cbn [fst snd].
      rewrite (starts_with_prefix _ _ _ "#EXT-X-CUE-OUT" Hp eq_refl).
      rewrite (starts_with_other _ _ "#EXT-X-CUE-OUT:" "#EXT-X-CUE-OUT-CONT"
                 eq_refl Hp).
      reflexivity. }
  unfold handle_cue_out.
  change (memchr (lit "#EXT-X-CUE-OUT:" ++ v ++ beyond) ":" (15 + length v))
    with (Some 14).
  cbv iota beta zeta.
  assert (Hlt : (14 <? 15 + length v - 1) = true).
  { apply Nat.ltb_lt. destruct v; [now elim Hne | simpl; lia]. }
  rewrite Hlt.
  change (skipn (14 + 1) (lit "#EXT-X-CUE-OUT:" ++ v ++ beyond))
    with (v ++ beyond).
  replace (15 + length v - (14 + 1)) with (length v) by lia.
  assert (Hattrs : parse_attributes (v ++ beyond) (length v)
                   = [ {| attr_key := Some []; attr_value := Some v |} ]).
  { rewrite parse_attributes_exact.
    rewrite <- (app_nil_r v) at 1.
    destruct (name_facts v Hv) as (_ & Heq & Hnul).
    rewrite lex_bare; [| exact Heq | exact Hnul | intros x r E; discriminate].
    rewrite (strip_plain v Hv). cbn [tl]. rewrite lex_nil.
    destruct v; [now elim Hne | reflexivity]. }
  rewrite Hattrs. clear Hattrs.
  unfold get_attr_str_unquoted.
  cbn [get_attr attr_key attr_value]. unfold strcmp_eq.
  change (bytes_eqb [] (lit EmptyString)) with true.
  change (bytes_eqb [] (lit "duration")) with false.
  change (bytes_eqb [] (lit "cue")) with false.
  cbv iota.
  unfold state_of, or_keep, str_dup. cbn [snd].
  destruct ((12 <? 15 + length v)
            && find_duration_keyword (lit "#EXT-X-CUE-OUT:" ++ v ++ beyond)
                 (15 + length v));
    destruct st; rsimpl; repeat split.
Qed.

Lemma cue_out_bare_value_is_duration_witness :
  let line := lit "#EXT-X-CUE-OUT:" ++ lit "30" in
  let st' :=
    state_of (process_line initial (line ++ [LF]) (length line)) in
  current_cue_out_duration st' = Some (lit "30")
  /\ current_cue_out_scte35 st' = current_cue_out_scte35 zero_state
  /\ cue_out st' = true
  /\ cue_out_start st' = true.
Proof.
  apply (cue_out_bare_value_is_duration empty_heap zero_data zero_state
           (lit "30") [LF]).
  - discriminate.
  - repeat constructor.
Defined.

(** ** What a segment takes from the tags before it *)

(** *** The program date time of a segment *)

Lemma step_state_pdt_other c l :
  is_tag_line l = true -> has_prefix "#EXT-X-PROGRAM-DATE-TIME:" l = false ->
  segments (data_of (step c l)) = segments (data_of c)
  /\ program_date_time (state_of (step c l)) = program_date_time (state_of c).
Proof.
  destruct c as [[h d] st]; destruct l as [cursor len].
  unfold is_tag_line, has_prefix, step. cbn [fst snd].
  intros Htag Hno. unfold process_line. rewrite Htag.
  apply dispatch_tag_cases; try (split; reflexivity); intros;
    try congruence;
    unfold data_of, state_of; handler_crush; split; reflexivity.
Qed.

Lemma step_pdt_tag_segments c l :
  has_prefix "#EXT-X-PROGRAM-DATE-TIME:" l = true ->
  segments (data_of (step c l)) = segments (data_of c).
Proof.
  destruct c as [[h d] st]; destruct l as [cursor len].
  unfold has_prefix, step. cbn [fst snd]. intros H.
  route H. clear H. frame_case.
Qed.

Lemma run_keeps_state_pdt mid : forall c,
  Forall (fun l => is_tag_line l = true
                   /\ has_prefix "#EXT-X-PROGRAM-DATE-TIME:" l = false) mid ->
  segments (data_of (run_from c mid)) = segments (data_of c)
  /\ program_date_time (state_of (run_from c mid))
     = program_date_time (state_of c).
Proof.
  induction mid as [|l mid IH]; intros c H; [now split|].
  apply Forall_cons_iff in H as [[H1 H2] H]. simpl run_from.
  destruct (IH (step c l) H) as [-> ->].
  now apply step_state_pdt_other.
Qed.

Lemma finalize_segment_pdt d st uri uri_len t :
  program_date_time st = Some t ->
  exists seg,
    segments (fst (finalize_segment d st uri uri_len)) = segments d ++ [seg]
    /\ seg_program_date_time seg = Some t
    /\ program_date_time (snd (finalize_segment d st uri uri_len)) = None.
Proof.
  unfold finalize_segment. destruct d, st. rsimpl. intros ->.
  eexists. split; [reflexivity|]. rsimpl.
  match goal with |- context [if ?b then _ else _] => destruct b end;
    rsimpl; repeat split.
Qed.

(** X27. A segment carries the program date time of the last
    PROGRAM-DATE-TIME tag before its URI line: the value of the tag
    reaches the segment that the next URI line finalizes, whatever other
    tags stand in between, and after the URI line none is pending. *)
Theorem segment_program_date_time_is_latest
    (c : Config) (tag : Line) (mid : list Line) (uri : bytes) (uri_len : nat) :
  has_prefix "#EXT-X-PROGRAM-DATE-TIME:" tag = true ->
  Forall (fun l => is_tag_line l = true
                   /\ has_prefix "#EXT-X-PROGRAM-DATE-TIME:" l = false) mid ->
  (peek uri =? "#")%char = false ->
  expect_segment (state_of (run_from c (tag :: mid))) = true ->
  let c' := run_from c (tag :: mid ++ [(uri, uri_len)]) in
  exists seg,
    segments (data_of c') = segments (data_of c) ++ [seg]
    /\ seg_program_date_time seg = program_date_time_of_tag tag
    /\ program_date_time (state_of c') = None.
Proof.
  intros Htag Hmid Huri He. cbv zeta.
  change (tag :: mid ++ [(uri, uri_len)]) with ((tag :: mid) ++ [(uri, uri_len)]).
  rewrite run_from_app. simpl run_from in *.
  pose proof (step_pdt_tag_segments c tag Htag) as S1.
  destruct (step_pdt_tag c tag Htag) as [_ B1].
  destruct (run_keeps_state_pdt mid (step c tag) Hmid) as [S2 B2].
  rewrite S1 in S2. rewrite B1 in B2. clear S1 B1.
  destruct (run_from (step c tag) mid) as [[h d] st] eqn:E.
  unfold step. unfold state_of in B2, He |- *.
  unfold data_of in S2 |- * at 1.
  cbn [fst snd] in S2, B2, He |- *.
  rewrite process_uri_segment by assumption.
  destruct (program_date_time_of_tag_some tag) as [t Ht]. rewrite Ht in *.
  destruct (finalize_segment_pdt d st uri uri_len t B2)
    as (seg & Hs & Hb & Hb').
  exists seg. unfold with_heap. cbn [fst snd].
  rewrite Hs, S2, Hb. repeat split. exact Hb'.
Qed.

Lemma segment_program_date_time_is_latest_witness :
  let tag := (lit "#EXT-X-PROGRAM-DATE-TIME:2024-01-01T00:00:06Z", 45) in
  let mid := [(lit "#EXTINF:6,", 10)] in
  let c' := run_from initial (tag :: mid ++ [(lit "b.ts", 4)]) in
  exists seg,
    segments (data_of c') = segments (data_of initial) ++ [seg]
    /\ seg_program_date_time seg = program_date_time_of_tag tag
    /\ program_date_time (state_of c') = None.
Proof.
  apply (segment_program_date_time_is_latest initial
           (lit "#EXT-X-PROGRAM-DATE-TIME:2024-01-01T00:00:06Z", 45)
           [(lit "#EXTINF:6,", 10)] (lit "b.ts") 4).
  - reflexivity.
  - repeat constructor.
  - reflexivity.
  - vm_compute. reflexivity.
Defined.

(** *** The gap mark between parts and segments *)

Lemma step_part_gap c l :
  is_part_tag l = true ->
  segments (data_of (step c l)) = segments (data_of c)
  /\ gap (state_of (step c l)) = false
  /\ exists part,
       current_parts (state_of (step c l))
       = current_parts (state_of c) ++ [part]
       /\ part_gap_tag part = gap (state_of c).
Proof.
  destruct c as [[h d] st]; destruct l as [cursor len].
  unfold is_part_tag, has_prefix, step. cbn [fst snd].
  intros H. route H. clear.
  unfold data_of, state_of, current_parts, handle_part, ensure_segment.
  set (attrs := parse_attributes _ _). clearbody attrs.
  destruct st. rsimpl.
  match goal with
  | x : option M3U8Segment |- _ => destruct x as [[]|]
  end; rsimpl; (split; [reflexivity|]); (split; [reflexivity|]);
    eexists; split; reflexivity.
Qed.

Lemma step_gap_other c l :
  is_tag_line l = true -> is_part_tag l = false ->
  segments (data_of (step c l)) = segments (data_of c)
  /\ gap (state_of (step c l))
     = gap (state_of c) || has_prefix "#EXT-X-GAP" l.
Proof.
  destruct c as [[h d] st]; destruct l as [cursor len].
  unfold is_tag_line, is_part_tag, has_prefix, step. cbn [fst snd].
  intros Htag Hno.
  destruct (starts_with cursor len "#EXT-X-GAP") eqn:Hg.
  { route Hg. unfold data_of, state_of, handle_gap. destruct st; rsimpl.
    now rewrite orb_true_r. }
  rewrite orb_false_r. unfold process_line. rewrite Htag.
  apply dispatch_tag_cases; try (split; reflexivity); intros;
    try congruence;
    unfold data_of, state_of; handler_crush; split; reflexivity.
Qed.

Lemma run_gap_without_part mid : forall c,
  Forall (fun l => is_tag_line l = true /\ is_part_tag l = false) mid ->
  segments (data_of (run_from c mid)) = segments (data_of c)
  /\ gap (state_of (run_from c mid))
     = gap (state_of c) || existsb (has_prefix "#EXT-X-GAP") mid.
Proof.
  induction mid as [|l mid IH]; intros c H.
  { simpl. now rewrite orb_false_r. }
  apply Forall_cons_iff in H as [[H1 H2] H]. simpl run_from.
  destruct (IH (step c l) H) as [-> ->].
  destruct (step_gap_other c l H1 H2) as [-> ->].
  cbn [existsb]. now rewrite orb_assoc.
Qed.

(** X28. A GAP tag marks the next part, if one comes before the URI line,
    and not the segment.  A PART tag hands the pending gap mark to the
    part it appends and clears it; the segment finalized afterwards is
    marked as a gap exactly when a GAP tag occurs after the last PART
    tag. *)
Theorem gap_mark_goes_to_next_part
    (c : Config) (tag : Line) (mid : list Line) (uri : bytes) (uri_len : nat) :
  is_part_tag tag = true ->
  Forall (fun l => is_tag_line l = true /\ is_part_tag l = false) mid ->
  (peek uri =? "#")%char = false ->
  expect_segment (state_of (run_from c (tag :: mid))) = true ->
  let c' := run_from c (tag :: mid ++ [(uri, uri_len)]) in
  exists part seg,
    current_parts (state_of (step c tag))
    = current_parts (state_of c) ++ [part]
    /\ part_gap_tag part = gap (state_of c)
    /\ segments (data_of c') = segments (data_of c) ++ [seg]
    /\ seg_gap_tag seg = existsb (has_prefix "#EXT-X-GAP") mid.
Proof.
  intros Htag Hmid Huri He. cbv zeta.
  change (tag :: mid ++ [(uri, uri_len)]) with ((tag :: mid) ++ [(uri, uri_len)]).
  rewrite run_from_app. simpl run_from in *.
  destruct (step_part_gap c tag Htag) as (S1 & G1 & part & P1 & P2).
  destruct (run_gap_without_part mid (step c tag) Hmid) as [S2 G2].
  rewrite S1 in S2. rewrite G1 in G2. cbn [orb] in G2. clear S1 G1.
  exists part. rewrite P1.
  destruct (run_from (step c tag) mid) as [[h d] st] eqn:E.
  unfold step at 1. unfold state_of in G2, He. unfold data_of in S2 |- * at 1.
  cbn [fst snd] in S2, G2, He |- *.
  rewrite process_uri_segment by assumption.
  destruct (finalize_segment_flags d st uri uri_len)
    as (seg & Hs & _ & _ & Hg & _).
  exists seg. unfold with_heap. cbn [fst snd].
  rewrite Hs, S2, Hg, G2. repeat split. exact P2.
Qed.

Lemma gap_mark_goes_to_next_part_witness :
  let tag := (lit "#EXT-X-PART:DURATION=1,URI=p1.mp4", 33) in
  let mid := [(lit "#EXTINF:2,", 10)] in
  let c0 := run [(lit "#EXT-X-GAP", 10)] in
  let c' := run_from c0 (tag :: mid ++ [(lit "s.mp4", 5)]) in
  exists part seg,
    current_parts (state_of (step c0 tag))
    = current_parts (state_of c0) ++ [part]
    /\ part_gap_tag part = gap (state_of c0)
    /\ segments (data_of c') = segments (data_of c0) ++ [seg]
    /\ seg_gap_tag seg = existsb (has_prefix "#EXT-X-GAP") mid.
Proof.
  apply (gap_mark_goes_to_next_part (run [(lit "#EXT-X-GAP", 10)])
           (lit "#EXT-X-PART:DURATION=1,URI=p1.mp4", 33)
           [(lit "#EXTINF:2,", 10)] (lit "s.mp4") 5).
  - reflexivity.
  - repeat constructor.
  - reflexivity.
  - vm_compute. reflexivity.
Defined.

(** *** A KEY tag, end to end *)




